(** * MongoToNeo4j: the document-to-graph import of TP4/Scripts

    A shallow embedding of [TP4/Scripts/MongoToNeo4j.py]: the field
    normalisation done by [parse_date] and [create_market_node], the three
    Cypher statements the script sends to the graph store, the batch loop of
    [import_markets_to_neo4j], the checks and connections before it and the
    control flow of [main].

    Conventions.
    - A Python [str] is a Rocq [string] with one character per code point;
      only code points below 256 are representable.
    - A Python exception is the [Raise] case of [result].
    - The graph store is a list of nodes and a list of relationships; the
      Cypher statements are functions on it.  A statement that reaches the
      store succeeds, except in [try_document], where the driver or the store
      may refuse it. *)

From Stdlib Require Import ZArith QArith String Ascii List Bool Lia SpecFloat.
From stdpp Require Import base tactics option list strings pretty gmap.

Local Open Scope string_scope.
Local Open Scope list_scope.
Local Open Scope Z_scope.

(** ** Python values *)

(** The values a document read through pymongo can hold, as far as the script
    distinguishes them.  A [dict] keeps its items in insertion order. *)
#[warnings="-register-all"]
Inductive value : Type :=
  | VNone
  | VBool (b : bool)
  | VInt (z : Z)
  | VFloat (f : spec_float)
  | VStr (s : string)
  | VObjectId (hex : string)
  | VList (l : list value)
  | VDict (d : list (string * value)).

Definition document := list (string * value).

Inductive exn := ValueError | TypeError | OverflowError | CypherError.

Inductive result (A : Type) : Type :=
  | Ok (a : A)
  | Raise (e : exn).
Arguments Ok {A} a.
Arguments Raise {A} e.

#[global] Instance result_ret : MRet result := fun A a => Ok a.

#[global] Instance result_bind : MBind result := fun A B k r =>
  match r with
  | Ok a => k a
  | Raise e => Raise e
  end.

#[global] Instance result_fmap : FMap result := fun A B f r =>
  match r with
  | Ok a => Ok (f a)
  | Raise e => Raise e
  end.

Definition is_ok {A} (r : result A) : bool :=
  match r with Ok _ => true | Raise _ => false end.

(** ** Equality of values *)

Definition spec_float_eqb (f g : spec_float) : bool :=
  match f, g with
  | S754_zero s, S754_zero t => Bool.eqb s t
  | S754_infinity s, S754_infinity t => Bool.eqb s t
  | S754_nan, S754_nan => true
  | S754_finite s m e, S754_finite t n k =>
      Bool.eqb s t && Pos.eqb m n && Z.eqb e k
  | _, _ => false
  end.

Fixpoint value_eqb (v w : value) {struct v} : bool :=
  let fix list_eqb (l m : list value) {struct l} : bool :=
    match l, m with
    | [], [] => true
    | x :: l', y :: m' => value_eqb x y && list_eqb l' m'
    | _, _ => false
    end in
  let fix items_eqb (l m : list (string * value)) {struct l} : bool :=
    match l, m with
    | [], [] => true
    | (k, x) :: l', (j, y) :: m' =>
        String.eqb k j && value_eqb x y && items_eqb l' m'
    | _, _ => false
    end in
  match v, w with
  | VNone, VNone => true
  | VBool a, VBool b => Bool.eqb a b
  | VInt a, VInt b => Z.eqb a b
  | VFloat a, VFloat b => spec_float_eqb a b
  | VStr a, VStr b => String.eqb a b
  | VObjectId a, VObjectId b => String.eqb a b
  | VList a, VList b => list_eqb a b
  | VDict a, VDict b => items_eqb a b
  | _, _ => false
  end.

(** ** Truthiness, [dict.get], [in] *)

Definition is_zero_float (f : spec_float) : bool :=
  match f with S754_zero _ => true | _ => false end.

(** [bool(v)]: what [if v], [not v] and [v or w] test. *)
Definition truthy (v : value) : bool :=
  match v with
  | VNone => false
  | VBool b => b
  | VInt z => negb (Z.eqb z 0)
  | VFloat f => negb (is_zero_float f)
  | VStr s => negb (String.eqb s "")
  | VObjectId _ => true
  | VList l => match l with [] => false | _ => true end
  | VDict d => match d with [] => false | _ => true end
  end.

Fixpoint lookup_item (k : string) (d : list (string * value)) : option value :=
  match d with
  | [] => None
  | (j, v) :: d' => if String.eqb k j then Some v else lookup_item k d'
  end.

(** [d.get(k, default)] *)
Definition dict_get (d : list (string * value)) (k : string) (default : value) : value :=
  match lookup_item k d with
  | Some v => v
  | None => default
  end.

(** [d.get(k)], whose default is [None] *)
Definition dict_get_none (d : list (string * value)) (k : string) : value :=
  dict_get d k VNone.

(** [a or b] *)
Definition py_or (a b : value) : value := if truthy a then a else b.

(** ** Characters *)

Definition code (c : ascii) : N := N_of_ascii c.

Definition is_digit (c : ascii) : bool :=
  ((48 <=? code c) && (code c <=? 57))%N.

Definition digit_val (c : ascii) : Z := Z.of_N (code c) - 48.

(** Unicode white space among the code points below 256: what the regular
    expression [\s] matches. *)
Definition is_space (c : ascii) : bool :=
  (((9 <=? code c) && (code c <=? 13)) || ((28 <=? code c) && (code c <=? 32))
   || (code c =? 133) || (code c =? 160))%N.

(** What [float] and [int] skip around a number.  They read the text after
    [_PyUnicode_TransformDecimalAndSpaceToASCII], which turns the white space
    above U+007F into a blank and leaves the ASCII range as it is, and they
    skip the white space of C there ([Py_ISSPACE]): the separators U+001C to
    U+001F, white space for [\s], are not skipped. *)
Definition is_number_space (c : ascii) : bool :=
  (((9 <=? code c) && (code c <=? 13)) || (code c =? 32)
   || (code c =? 133) || (code c =? 160))%N.

(** ASCII lower case, for the case-insensitive comparisons. *)
Definition lower (c : ascii) : ascii :=
  if ((65 <=? code c) && (code c <=? 90))%N then ascii_of_N (code c + 32) else c.

Fixpoint lower_string (s : string) : string :=
  match s with
  | EmptyString => EmptyString
  | String c s' => String (lower c) (lower_string s')
  end.

(** The text without the white space that [float] and [int] skip before a
    number, and after it. *)
Fixpoint lstrip (s : string) : string :=
  match s with
  | String c s' => if is_number_space c then lstrip s' else s
  | EmptyString => EmptyString
  end.

Fixpoint rstrip (s : string) : string :=
  match s with
  | EmptyString => EmptyString
  | String c s' =>
      match rstrip s' with
      | EmptyString => if is_number_space c then EmptyString else String c EmptyString
      | r => String c r
      end
  end.

(** A maximal run of decimal digits: its value, its length and what follows. *)
Fixpoint take_digits (acc : Z) (n : Z) (s : string) : Z * Z * string :=
  match s with
  | String c s' =>
      if is_digit c then take_digits (10 * acc + digit_val c) (n + 1) s'
      else (acc, n, s)
  | EmptyString => (acc, n, s)
  end.

(** ** [float] and [int] *)

Definition prec : Z := 53.
Definition emax : Z := 1024.

Definition float_zero : spec_float := S754_zero false.
Definition float_inf : spec_float := S754_infinity false.
Definition float_neg_inf : spec_float := S754_infinity true.
Definition float_nan : spec_float := S754_nan.

(** The binary64 nearest to [m * 10 ^ e], ties to even; what the runtime's
    [strtod] returns for a decimal literal with digits [m] and exponent [e].
    Overflow gives an infinity and underflow a zero. *)
Definition decimal_to_float (m : Z) (e : Z) : spec_float :=
  match m with
  | Z0 => S754_zero false
  | Zpos p =>
      if 0 <=? e then binary_normalize prec emax (Zpos p * 10 ^ e) 0 false
      else
        let '(q, e', l) := SFdiv_core_binary prec emax (Zpos p) 0 (10 ^ (- e)) 0 in
        binary_round_aux prec emax false q e' l
  | Zneg _ => S754_nan
  end.

Definition with_sign (neg : bool) (f : spec_float) : spec_float :=
  if neg then SFopp f else f.

(** Underscores may only stand between two digits
    ([_Py_string_to_number_with_underscores]); they are removed. *)
Fixpoint strip_underscores (prev : ascii) (s : string) : option string :=
  match s with
  | EmptyString => if Ascii.eqb prev "_" then None else Some EmptyString
  | String c s' =>
      if Ascii.eqb c "_" then
        if is_digit prev then strip_underscores c s' else None
      else if Ascii.eqb prev "_" && negb (is_digit c) then None
      else String c <$> strip_underscores c s'
  end.

Definition take_sign (s : string) : bool * string :=
  match s with
  | String "-" s' => (true, s')
  | String "+" s' => (false, s')
  | _ => (false, s)
  end.

(** The exponent part: [e] or [E], an optional sign and at least one digit.
    Anything else after the mantissa is unconverted text. *)
Definition parse_exponent (s : string) : option Z :=
  match s with
  | EmptyString => Some 0
  | String c s' =>
      if Ascii.eqb (lower c) "e" then
        let '(neg, s1) := take_sign s' in
        match take_digits 0 0 s1 with
        | (x, n, EmptyString) =>
            if 0 <? n then Some (if neg then - x else x) else None
        | _ => None
        end
      else None
  end.

(** A decimal literal: digits, an optional point and more digits, at least
    one digit in all, then an optional exponent. *)
Definition parse_decimal (neg : bool) (s : string) : option spec_float :=
  let '(i, ni, s1) := take_digits 0 0 s in
  let '(m, nf, s2) :=
    match s1 with
    | String "." s1' => take_digits i 0 s1'
    | _ => (i, 0, s1)
    end in
  if 0 <? ni + nf then
    x ← parse_exponent s2;
    Some (with_sign neg (decimal_to_float m (x - nf)))
  else None.

(** [float(s)] for a string: [None] stands for [ValueError]. *)
Definition float_of_string (s : string) : option spec_float :=
  t ← strip_underscores "000" s;
  let body := rstrip (lstrip t) in
  let '(neg, u) := take_sign body in
  let w := lower_string u in
  if String.eqb w "inf" || String.eqb w "infinity" then
    Some (S754_infinity neg)
  else if String.eqb w "nan" then Some S754_nan
  else parse_decimal neg u.

(** [float(n)] for an [int]: the nearest binary64, [OverflowError] beyond. *)
Definition float_of_int (z : Z) : result spec_float :=
  match binary_normalize prec emax z 0 false with
  | S754_infinity _ => Raise OverflowError
  | f => Ok f
  end.

(** [float(v)] *)
Definition py_float (v : value) : result spec_float :=
  match v with
  | VFloat f => Ok f
  | VInt z => float_of_int z
  | VBool b => float_of_int (if b then 1 else 0)
  | VStr s =>
      match float_of_string s with
      | Some f => Ok f
      | None => Raise ValueError
      end
  | VNone | VObjectId _ | VList _ | VDict _ => Raise TypeError
  end.

(** [int(s)] for a string, base ten: white space, a sign, digits separated
    by at most one underscore, white space. *)
Fixpoint int_digits (acc : Z) (prev_digit : bool) (s : string) : option (Z * string) :=
  match s with
  | String c s' =>
      if is_digit c then int_digits (10 * acc + digit_val c) true s'
      else if Ascii.eqb c "_" then
        if prev_digit then
          match s' with
          | String d _ => if is_digit d then int_digits acc false s' else None
          | EmptyString => None
          end
        else None
      else if prev_digit then Some (acc, s) else None
  | EmptyString => if prev_digit then Some (acc, s) else None
  end.

Definition int_of_string (s : string) : option Z :=
  let '(neg, u) := take_sign (lstrip s) in
  '(x, rest) ← int_digits 0 false u;
  match lstrip rest with
  | EmptyString => Some (if neg then - x else x)
  | _ => None
  end.

Definition default_int (o : option Z) (d : Z) : Z :=
  match o with Some z => z | None => d end.

(** [int(f)] for a float: truncation towards zero. *)
Definition int_of_float (f : spec_float) : result Z :=
  match f with
  | S754_zero _ => Ok 0
  | S754_infinity _ => Raise OverflowError
  | S754_nan => Raise ValueError
  | S754_finite s m e =>
      let a := if 0 <=? e then Z.shiftl (Zpos m) e else Z.shiftr (Zpos m) (- e) in
      Ok (if s then - a else a)
  end.

(** [int(v)] *)
Definition py_int (v : value) : result Z :=
  match v with
  | VInt z => Ok z
  | VBool b => Ok (if b then 1 else 0)
  | VFloat f => int_of_float f
  | VStr s =>
      match int_of_string s with
      | Some z => Ok z
      | None => Raise ValueError
      end
  | VNone | VObjectId _ | VList _ | VDict _ => Raise TypeError
  end.

(** ** [datetime.strptime]

    [_strptime] turns the format into a regular expression, matches it at the
    start of the text ignoring case, refuses text left over, converts the
    groups and builds the [datetime]; every failure is a [ValueError]. *)

Inductive regex : Type :=
  | RChar (c : ascii)
  | RClass (lo hi : ascii)
  | RSpaces
  | REps
  | RSeq (r1 r2 : regex)
  | RAlt (r1 r2 : regex)
  | RGroup (name : ascii) (r : regex).

Definition groups := list (ascii * string).

Definition in_class (lo hi c : ascii) : bool :=
  ((code lo <=? code c) && (code c <=? code hi))%N.

(** [\s+], greedy: the longest run first, then shorter ones. *)
Fixpoint spaces_plus {R} (s : string) (k : string -> option R) : option R :=
  match s with
  | String c s' =>
      if is_space c then
        match spaces_plus s' k with
        | Some r => Some r
        | None => k s'
        end
      else None
  | EmptyString => None
  end.

(** The text of [s] consumed when [rest] is what remains. *)
Definition consumed (s rest : string) : string :=
  String.substring 0 (String.length s - String.length rest) s.

(** Backtracking match of [r] at the start of [s]: alternatives in order,
    the first way through [k] wins. *)
Fixpoint rmatch {R} (r : regex) (s : string) (g : groups)
    (k : string -> groups -> option R) : option R :=
  match r with
  | RChar c =>
      match s with
      | String a s' => if Ascii.eqb (lower a) (lower c) then k s' g else None
      | EmptyString => None
      end
  | RClass lo hi =>
      match s with
      | String a s' => if in_class lo hi a then k s' g else None
      | EmptyString => None
      end
  | RSpaces => spaces_plus s (fun s' => k s' g)
  | REps => k s g
  | RSeq r1 r2 => rmatch r1 s g (fun s1 g1 => rmatch r2 s1 g1 k)
  | RAlt r1 r2 =>
      match rmatch r1 s g k with
      | Some x => Some x
      | None => rmatch r2 s g k
      end
  | RGroup name r1 =>
      rmatch r1 s g (fun s1 g1 => k s1 ((name, consumed s s1) :: g1))
  end.

Definition rdigit : regex := RClass "0" "9".

Fixpoint ralts (rs : list regex) : regex :=
  match rs with
  | [] => REps
  | [r] => r
  | r :: rs' => RAlt r (ralts rs')
  end.

Fixpoint rseqs (rs : list regex) : regex :=
  match rs with
  | [] => REps
  | [r] => r
  | r :: rs' => RSeq r (rseqs rs')
  end.

(** [r{1,n}], greedy. *)
Fixpoint rupto (n : nat) (r : regex) : regex :=
  match n with
  | O => REps
  | S O => r
  | S n' => RSeq r (RAlt (rupto n' r) REps)
  end.

(** The groups of [TimeRE] for the directives the script uses. *)
Definition year_group : regex :=
  RGroup "Y" (rseqs [rdigit; rdigit; rdigit; rdigit]).

Definition month_group : regex :=
  RGroup "m" (ralts [RSeq (RChar "1") (RClass "0" "2");
                     RSeq (RChar "0") (RClass "1" "9");
                     RClass "1" "9"]).

Definition day_group : regex :=
  RGroup "d" (ralts [RSeq (RChar "3") (RClass "0" "1");
                     RSeq (RClass "1" "2") rdigit;
                     RSeq (RChar "0") (RClass "1" "9");
                     RClass "1" "9";
                     RSeq (RChar " ") (RClass "1" "9")]).

Definition hour_group : regex :=
  RGroup "H" (ralts [RSeq (RChar "2") (RClass "0" "3");
                     RSeq (RClass "0" "1") rdigit;
                     rdigit]).

Definition minute_group : regex :=
  RGroup "M" (ralts [RSeq (RClass "0" "5") rdigit; rdigit]).

Definition second_group : regex :=
  RGroup "S" (ralts [RSeq (RChar "6") (RClass "0" "1");
                     RSeq (RClass "0" "5") rdigit;
                     rdigit]).

Definition fraction_group : regex :=
  RGroup "f" (rupto 6 rdigit).

Definition directive (c : ascii) : option regex :=
  if Ascii.eqb c "Y" then Some year_group
  else if Ascii.eqb c "m" then Some month_group
  else if Ascii.eqb c "d" then Some day_group
  else if Ascii.eqb c "H" then Some hour_group
  else if Ascii.eqb c "M" then Some minute_group
  else if Ascii.eqb c "S" then Some second_group
  else if Ascii.eqb c "f" then Some fraction_group
  else None.

(** [TimeRE.pattern]: a run of white space in the format stands for [\s+],
    [%x] for the group of directive [x], any other character for itself. *)
Fixpoint pattern (in_space : bool) (fmt : string) : option regex :=
  match fmt with
  | EmptyString => Some REps
  | String c fmt' =>
      if is_space c then
        if in_space then pattern true fmt'
        else RSeq RSpaces <$> pattern true fmt'
      else if Ascii.eqb c "%" then
        match fmt' with
        | String x fmt'' =>
            d ← directive x;
            RSeq d <$> pattern false fmt''
        | EmptyString => None
        end
      else RSeq (RChar c) <$> pattern false fmt'
  end.

Record datetime := Datetime {
  year : Z; month : Z; day : Z;
  hour : Z; minute : Z; second : Z; microsecond : Z }.

Definition is_leap (y : Z) : bool :=
  ((y mod 4 =? 0) && negb (y mod 100 =? 0)) || (y mod 400 =? 0).

Definition days_in_month (y m : Z) : Z :=
  if m =? 2 then (if is_leap y then 29 else 28)
  else if (m =? 4) || (m =? 6) || (m =? 9) || (m =? 11) then 30
  else 31.

(** What the [date] and [datetime] constructors accept. *)
Definition valid_datetime (d : datetime) : bool :=
  (1 <=? year d) && (year d <=? 9999) &&
  (1 <=? month d) && (month d <=? 12) &&
  (1 <=? day d) && (day d <=? days_in_month (year d) (month d)) &&
  (0 <=? hour d) && (hour d <=? 23) &&
  (0 <=? minute d) && (minute d <=? 59) &&
  (0 <=? second d) && (second d <=? 59) &&
  (0 <=? microsecond d) && (microsecond d <=? 999999).

Fixpoint lookup_group (name : ascii) (g : groups) : option string :=
  match g with
  | [] => None
  | (n, t) :: g' => if Ascii.eqb n name then Some t else lookup_group name g'
  end.

Definition group_int (g : groups) (name : ascii) (default : Z) : Z :=
  match lookup_group name g with
  | Some t => default_int (int_of_string t) default
  | None => default
  end.

Fixpoint zeros (n : nat) : string :=
  match n with
  | O => EmptyString
  | S n' => String "0" (zeros n')
  end.

(** The fraction group, padded with zeros on the right to six digits. *)
Definition fraction_of (g : groups) : Z :=
  match lookup_group "f" g with
  | Some t => default_int (int_of_string (t +:+ zeros (6 - String.length t))) 0
  | None => 0
  end.

(** The [datetime] of the groups found; the constructor refuses a date that
    does not exist. *)
Definition datetime_of_groups (g : groups) : option datetime :=
  let d := Datetime (group_int g "Y" 1900) (group_int g "m" 1)
             (group_int g "d" 1) (group_int g "H" 0) (group_int g "M" 0)
             (group_int g "S" 0) (fraction_of g) in
  if valid_datetime d then Some d else None.

Definition strptime_text (s fmt : string) : option datetime :=
  r ← pattern false fmt;
  '(rest, g) ← rmatch r s [] (fun rest g => Some (rest, g));
  match rest with
  | EmptyString => datetime_of_groups g
  | String _ _ => None
  end.

(** [datetime.strptime(v, fmt)]: [TypeError] unless [v] is a [str]. *)
Definition strptime (v : value) (fmt : string) : result datetime :=
  match v with
  | VStr s =>
      match strptime_text s fmt with
      | Some d => Ok d
      | None => Raise ValueError
      end
  | _ => Raise TypeError
  end.

Definition digit_char (x : Z) : ascii := ascii_of_N (Z.to_N (48 + x)).

(** The decimal digits of [z], [w] of them, zero-filled. *)
Fixpoint fixed_digits (w : nat) (z : Z) : string :=
  match w with
  | O => EmptyString
  | S w' => fixed_digits w' (z / 10) +:+ String (digit_char (z mod 10)) EmptyString
  end.

(** [d.isoformat()] *)
Definition isoformat (d : datetime) : string :=
  fixed_digits 4 (year d) +:+ "-" +:+ fixed_digits 2 (month d) +:+ "-" +:+
  fixed_digits 2 (day d) +:+ "T" +:+ fixed_digits 2 (hour d) +:+ ":" +:+
  fixed_digits 2 (minute d) +:+ ":" +:+ fixed_digits 2 (second d) +:+
  (if microsecond d =? 0 then "" else "." +:+ fixed_digits 6 (microsecond d)).

(** ** [parse_date] *)

Definition formats : list string :=
  ["%Y-%m-%dT%H:%M:%S.%fZ"; "%Y-%m-%dT%H:%M:%SZ"; "%Y-%m-%d %H:%M:%S"; "%Y-%m-%d"].

(** The [for fmt in formats] loop: a [ValueError] moves on to the next
    format, any other exception leaves the function. *)
Fixpoint try_formats (date_str : value) (fmts : list string) : result (option datetime) :=
  match fmts with
  | [] => Ok None
  | fmt :: fmts' =>
      match strptime date_str fmt with
      | Ok d => Ok (Some d)
      | Raise ValueError => try_formats date_str fmts'
      | Raise e => Raise e
      end
  end.

Definition parse_date (date_str : value) : result (option datetime) :=
  if negb (truthy date_str) then Ok None
  else try_formats date_str formats.

(** [d.isoformat() if d else None]; a [datetime] is always true. *)
Definition iso_or_none (d : option datetime) : value :=
  match d with
  | Some d => VStr (isoformat d)
  | None => VNone
  end.

(** ** The graph store

    Nodes carry one label and a property map; a relationship joins two nodes
    by their positions in the node list.  Nodes are only ever appended, or
    all deleted at once, so positions are stable identities. *)

Inductive label := Market | Category | Series.
Inductive rel_type := BELONGS_TO | IN_SERIES.

Record node := Node { n_label : label; n_props : gmap string value }.
Record rel := Rel { r_src : nat; r_type : rel_type; r_dst : nat }.
Record graph := Graph { g_nodes : list node; g_rels : list rel }.

Definition empty_graph : graph := Graph [] [].

#[global] Instance label_eq_dec : EqDecision label.
Proof. solve_decision. Defined.

#[global] Instance rel_type_eq_dec : EqDecision rel_type.
Proof. solve_decision. Defined.

#[global] Instance rel_eq_dec : EqDecision rel.
Proof. solve_decision. Defined.

(** The property that identifies a node of each label. *)
Definition key_name (l : label) : string :=
  match l with
  | Market => "id"
  | Category => "name"
  | Series => "slug"
  end.

(** The pattern [(n:l {key: v})]: the label and the key property agree.
    A null never matches; other values are compared structurally. *)
Definition node_matches (l : label) (v : value) (n : node) : bool :=
  bool_decide (n_label n = l) &&
  match v, n_props n !! key_name l with
  | VNone, _ => false
  | _, Some w => value_eqb w v
  | _, None => false
  end.

Fixpoint positions_from (i : nat) (p : node -> bool) (ns : list node) : list nat :=
  match ns with
  | [] => []
  | n :: ns' =>
      if p n then i :: positions_from (S i) p ns' else positions_from (S i) p ns'
  end.

(** [MATCH (n:l {key: v})]: the positions of the matching nodes. *)
Definition match_nodes (l : label) (v : value) (g : graph) : list nat :=
  positions_from 0 (node_matches l v) (g_nodes g).

(** [MERGE (n:l {key: v})]: the matching nodes, or one new node if none. *)
Definition merge_node (l : label) (v : value) (g : graph) : graph * list nat :=
  match match_nodes l v g with
  | [] =>
      (Graph (g_nodes g ++ [Node l {[ key_name l := v ]}]) (g_rels g),
       [length (g_nodes g)])
  | ms => (g, ms)
  end.

(** What a node holds for a property last set to [v]. *)
Definition stored (v : value) : option value :=
  match v with
  | VNone => None
  | _ => Some v
  end.

(** [SET n.k = v]; setting a property to null removes it. *)
Definition set_prop (props : gmap string value) (kv : string * value) : gmap string value :=
  match kv.2 with
  | VNone => delete kv.1 props
  | v => <[ kv.1 := v ]> props
  end.

Definition set_props (kvs : list (string * value)) (n : node) : node :=
  Node (n_label n) (foldl set_prop (n_props n) kvs).

(** [f] applied to the nodes at the positions [ms]. *)
Definition update_nodes (f : node -> node) (ms : list nat) (g : graph) : graph :=
  Graph (imap (fun i n => if bool_decide (i ∈ ms) then f n else n) (g_nodes g))
        (g_rels g).

(** [MERGE (a)-[:t]->(b)] for bound [a] and [b]. *)
Definition merge_rel (t : rel_type) (a b : nat) (g : graph) : graph :=
  if bool_decide (Rel a t b ∈ g_rels g) then g
  else Graph (g_nodes g) (g_rels g ++ [Rel a t b]).

Definition merge_rels (t : rel_type) (ms cs : list nat) (g : graph) : graph :=
  foldl (fun g a => foldl (fun g b => merge_rel t a b g) g cs) g ms.

(** [MERGE (m:Market {id: $id}) SET m.k = v, ... RETURN m].  The store
    refuses to merge on a null key. *)
Definition cypher_upsert_market (id : value) (kvs : list (string * value)) (g : graph) : result graph :=
  match id with
  | VNone => Raise CypherError
  | _ =>
      let '(g1, ms) := merge_node Market id g in
      Ok (update_nodes (set_props kvs) ms g1)
  end.

(** [MATCH (m:Market {id: $marketId}) MERGE (c:l {key: $v}) MERGE (m)-[:t]->(c)].
    The two [MERGE] clauses run once for each row the [MATCH] produces, so
    not at all when no Market node matches. *)
Definition cypher_link (l : label) (t : rel_type) (market_id v : value) (g : graph) : graph :=
  match match_nodes Market market_id g with
  | [] => g
  | ms =>
      let '(g1, cs) := merge_node l v g in
      merge_rels t ms cs g1
  end.

Definition count_label (l : label) (g : graph) : nat :=
  length (filter (fun n => n_label n = l) (g_nodes g)).

Definition count_rels (g : graph) : nat := length (g_rels g).

(** ** The script *)

Section Script.

(** [repr] of a float, a list or a dict, as the runtime prints it; the script
    reaches it only through [str(_id)]. *)
Variable repr_compound : value -> string.

(** [str(v)] *)
Definition py_str (v : value) : string :=
  match v with
  | VNone => "None"
  | VBool b => if b then "True" else "False"
  | VInt z => pretty z
  | VStr s => s
  | VObjectId hex => hex
  | VFloat _ | VList _ | VDict _ => repr_compound v
  end.

(** The key of the Market node ([create_market_node], "Handle different ID
    formats"). *)
Definition market_id_of (market_data : document) : value :=
  let market_id := dict_get market_data "id" (VStr "") in
  if truthy market_id then market_id
  else
    let _id := dict_get market_data "_id" (VStr "") in
    let coerced := if truthy _id then VStr (py_str _id) else VStr "" in
    match _id with
    | VDict d =>
        match lookup_item "$oid" d with
        | Some oid => oid
        | None => coerced
        end
    | VStr _ => _id
    | _ => coerced
    end.

(** The [volume] variable after the [$numberDouble] branch. *)
Definition volume_of (market_data : document) : result value :=
  let volume := dict_get market_data "volume" (VInt 0) in
  match volume with
  | VDict d =>
      match lookup_item "$numberDouble" d with
      | Some volume_str =>
          if value_eqb volume_str (VStr "Infinity") then Ok (VFloat float_inf)
          else if value_eqb volume_str (VStr "-Infinity") then Ok (VFloat float_neg_inf)
          else if value_eqb volume_str (VStr "NaN") then Ok (VFloat float_nan)
          else
            match py_float volume_str with
            | Ok f => Ok (VFloat f)
            | Raise ValueError | Raise TypeError => Ok (VInt 0)
            | Raise e => Raise e
            end
      | None => Ok volume
      end
  | _ => Ok volume
  end.

(** [float(volume) if volume else 0.0] *)
Definition volume_param (volume : value) : result spec_float :=
  if truthy volume then py_float volume else Ok float_zero.

(** [int(comment_count) if comment_count else 0] *)
Definition comment_count_param (comment_count : value) : result Z :=
  if truthy comment_count then py_int comment_count else Ok 0.

(** The [createdAt] date: [parse_date(get('createdAt') or get('creationDate'))]. *)
Definition created_at_of (market_data : document) : result (option datetime) :=
  parse_date (py_or (dict_get_none market_data "createdAt")
                    (dict_get_none market_data "creationDate")).

(** The parameters of the upsert statement, in the order of its [SET]. *)
Definition market_properties (market_data : document) : result (list (string * value)) :=
  volume ← volume_of market_data;
  start_date ← parse_date (dict_get_none market_data "startDate");
  end_date ← parse_date (dict_get_none market_data "endDate");
  created_at ← created_at_of market_data;
  closed_time ← parse_date (dict_get_none market_data "closedTime");
  volume_f ← volume_param volume;
  comment_count ← comment_count_param (dict_get market_data "commentCount" (VInt 0));
  Ok [("title", dict_get market_data "title" (VStr ""));
      ("description", dict_get market_data "description" (VStr ""));
      ("slug", dict_get market_data "slug" (VStr ""));
      ("ticker", dict_get market_data "ticker" (VStr ""));
      ("volume", VFloat volume_f);
      ("commentCount", VInt comment_count);
      ("image", dict_get market_data "image" (VStr ""));
      ("icon", dict_get market_data "icon" (VStr ""));
      ("resolutionSource", dict_get market_data "resolutionSource" (VStr ""));
      ("publishedAt", dict_get market_data "published_at" (VStr ""));
      ("updatedAt", dict_get market_data "updatedAt" (VStr ""));
      ("startDate", iso_or_none start_date);
      ("endDate", iso_or_none end_date);
      ("createdAt", iso_or_none created_at);
      ("closedTime", iso_or_none closed_time)].

(** [create_market_node(driver, market_data)]: the graph after the upsert and
    the key it returns. *)
Definition create_market_node (g : graph) (market_data : document) : result (graph * value) :=
  let market_id := market_id_of market_data in
  kvs ← market_properties market_data;
  g' ← cypher_upsert_market market_id kvs g;
  Ok (g', market_id).

Definition create_category_relationship (g : graph) (market_id category_name : value) : graph :=
  if negb (truthy category_name) then g
  else cypher_link Category BELONGS_TO market_id category_name g.

Definition create_series_relationship (g : graph) (market_id series_slug : value) : graph :=
  if negb (truthy series_slug) then g
  else cypher_link Series IN_SERIES market_id series_slug g.

(** ** [import_markets_to_neo4j] *)

Record stats := Stats {
  processed : nat;
  markets_created : nat;
  categories_created : nat;
  series_created : nat }.

Definition no_stats : stats := Stats 0 0 0 0.

(** The body of the [for market_data in batch] loop with its [try]: an
    exception is printed and the document left.  Here a statement that
    reaches the store succeeds; [try_document] is the body when the driver or
    the store may refuse one. *)
Definition process_document (st : graph * stats) (market_data : document) : graph * stats :=
  let '(g, c) := st in
  match create_market_node g market_data with
  | Raise _ => (g, c)
  | Ok (g1, market_id) =>
      let category := dict_get_none market_data "category" in
      let g2 := if truthy category
                then create_category_relationship g1 market_id category else g1 in
      let series_slug := dict_get_none market_data "seriesSlug" in
      let g3 := if truthy series_slug
                then create_series_relationship g2 market_id series_slug else g2 in
      (g3, Stats (S (processed c)) (S (markets_created c))
             (if truthy category then S (categories_created c) else categories_created c)
             (if truthy series_slug then S (series_created c) else series_created c))
  end.

Inductive event :=
  | Slept (seconds : Z)
  | ConstraintsCreated
  | GraphCleared
  | NoDocuments
  | Progress (done total : nat)
  | Summary (market_count category_count series_count relationship_count : nat)
            (counters : stats) (total : nat).

(** The [for doc in cursor] loop: documents gather in [batch] and a full
    batch is processed and reported. *)
Fixpoint batch_loop (batch_size : Z) (total_docs : nat) (cursor batch : list document)
    (st : graph * stats) (out : list event) : list document * (graph * stats) * list event :=
  match cursor with
  | [] => (batch, st, out)
  | doc :: cursor' =>
      let batch' := batch ++ [doc] in
      if batch_size <=? Z.of_nat (length batch') then
        let st' := foldl process_document st batch' in
        batch_loop batch_size total_docs cursor' [] st'
          (out ++ [Progress (processed st'.2) total_docs])
      else batch_loop batch_size total_docs cursor' batch' st out
  end.

Definition import_markets_to_neo4j (source : list document) (g : graph) (batch_size : Z)
    : graph * list event :=
  let total_docs := length source in
  if Nat.eqb total_docs 0 then (g, [NoDocuments])
  else
    let '(batch, st, out) :=
      batch_loop batch_size total_docs source [] (g, no_stats) [ConstraintsCreated] in
    let '(g', c) := foldl process_document st batch in
    (g', out ++ [Summary (count_label Market g') (count_label Category g')
                   (count_label Series g') (count_rels g') c total_docs]).

(** ** Connections and [main] *)

(** What the run meets outside the script: the environment, whether the
    document store answers its one ping, which of the graph store's probes
    succeed, what the operator types at the prompt ([None]: end of input),
    and the documents of the [cleaned] collection. *)
Record world := World {
  env : list (string * string);
  mongo_answers : bool;
  neo4j_answers : Z -> bool;
  operator : option string;
  source : list document }.

Fixpoint getenv (e : list (string * string)) (var : string) : option string :=
  match e with
  | [] => None
  | (k, v) :: e' => if String.eqb k var then Some v else getenv e' var
  end.

Definition required_vars : list string :=
  ["MONGO_URI"; "DB2"; "NEO4J_URI"; "NEO4J_USER"; "NEO4J_PASSWORD"].

Definition is_set (e : list (string * string)) (var : string) : bool :=
  match getenv e var with
  | Some v => negb (String.eqb v "")
  | None => false
  end.

Definition check_environment_variables (e : list (string * string)) : bool :=
  forallb (is_set e) required_vars.

(** One attempt, no retry: the client or [None]. *)
Definition connect_mongodb (w : world) : bool :=
  is_set (env w) "MONGO_URI" && mongo_answers w.

(** [time.sleep(seconds)] for a whole number of seconds.  The length is
    first turned into nanoseconds held in 64 bits, an [OverflowError] when it
    does not fit; a negative length is then a [ValueError]. *)
Definition sleep (seconds : Z) : result event :=
  if (seconds <? -9223372036) || (9223372036 <? seconds) then Raise OverflowError
  else if seconds <? 0 then Raise ValueError
  else Ok (Slept seconds).

(** The [for attempt in range(1, max_retries + 1)] loop from [attempt] on,
    with [left] iterations to go.  The sleep stands in the [except] branch:
    what it raises leaves the function. *)
Fixpoint connect_neo4j_loop (answers : Z -> bool) (max_retries retry_delay : Z)
    (attempt : Z) (left : nat) : result (bool * list event) :=
  match left with
  | O => Ok (false, [])
  | S left' =>
      if answers attempt then Ok (true, [])
      else if attempt <? max_retries then
        e ← sleep retry_delay;
        '(ok, out) ← connect_neo4j_loop answers max_retries retry_delay (attempt + 1) left';
        Ok (ok, e :: out)
      else Ok (false, [])
  end.

Definition connect_neo4j (answers : Z -> bool) (max_retries retry_delay : Z)
    : result (bool * list event) :=
  connect_neo4j_loop answers max_retries retry_delay 1 (Z.to_nat max_retries).

Definition clear_neo4j_graph (g : graph) (auto_clear : bool) (typed : option string)
    : graph * list event :=
  if Nat.ltb 0 (length (g_nodes g)) then
    if auto_clear then (empty_graph, [GraphCleared])
    else
      match typed with
      | Some line =>
          if String.eqb (lower_string line) "y" then (empty_graph, [GraphCleared])
          else (g, [])
      | None => (g, [])
      end
  else (g, []).

(** [main]: the exit status, the graph it leaves and what it did.  An
    exception that leaves [main] ends the process with status 1. *)
Definition main (w : world) (g : graph) : Z * graph * list event :=
  if negb (check_environment_variables (env w)) then (1, g, [])
  else if negb (connect_mongodb w) then (1, g, [])
  else
    match connect_neo4j (neo4j_answers w) 30 2 with
    | Raise _ => (1, g, [])
    | Ok (connected, out1) =>
        if negb connected then (1, g, out1)
        else
          let is_docker :=
            String.prefix "bolt://neo4j:" (default "" (getenv (env w) "NEO4J_URI")) in
          let '(g1, out2) := clear_neo4j_graph g is_docker (operator w) in
          let '(g2, out3) := import_markets_to_neo4j (source w) g1 100 in
          (0, g2, out1 ++ out2 ++ out3)
    end.


(** The graph part of [process_document]. *)
Definition document_step (g : graph) (market_data : document) : graph :=
  (process_document (g, no_stats) market_data).1.

(** [g'] is [g] with nodes and relationships added by [MERGE]: a pattern
    that matched in [g] matches the same nodes, and no relationship is lost. *)
Definition extends (g g' : graph) : Prop :=
  (forall l v, match_nodes l v g <> [] -> match_nodes l v g' = match_nodes l v g) /\
  (forall r, r ∈ g_rels g -> r ∈ g_rels g').

(** Same labels in the same positions, same verdict of every pattern, same
    relationships: the graphs differ at most in properties other than keys. *)
Definition same_shape (g g' : graph) : Prop :=
  n_label <$> g_nodes g = n_label <$> g_nodes g' /\
  (forall l v, match_nodes l v g = match_nodes l v g') /\
  g_rels g = g_rels g'.

(** Every Market node keyed [k] has its relationship [t] to every node
    [(l {key: v})], and there is such a node. *)
Definition linked (l : label) (t : rel_type) (k v : value) (g : graph) : Prop :=
  match_nodes l v g <> [] /\
  forall a b, a ∈ match_nodes Market k g -> b ∈ match_nodes l v g ->
    Rel a t b ∈ g_rels g.

(** The graph already holds all that importing [market_data] would write,
    properties apart. *)
Definition covered (market_data : document) (g : graph) : Prop :=
  is_ok (market_properties market_data) = true ->
  market_id_of market_data <> VNone ->
  match_nodes Market (market_id_of market_data) g <> [] /\
  (truthy (dict_get_none market_data "category") = true ->
   linked Category BELONGS_TO (market_id_of market_data)
     (dict_get_none market_data "category") g) /\
  (truthy (dict_get_none market_data "seriesSlug") = true ->
   linked Series IN_SERIES (market_id_of market_data)
     (dict_get_none market_data "seriesSlug") g).

(** Relationships join nodes that exist. *)
Definition well_formed (g : graph) : Prop :=
  forall r, r ∈ g_rels g ->
    (r_src r < length (g_nodes g))%nat /\ (r_dst r < length (g_nodes g))%nat.

(** No two nodes share a label and a key: what the uniqueness constraints of
    [create_constraints] ask, and what [MERGE] maintains on its own. *)
Definition unique_keys (g : graph) : Prop :=
  forall l v, (length (match_nodes l v g) <= 1)%nat.

Definition count_type (t : rel_type) (g : graph) : nat :=
  length (filter (fun r => r_type r = t) (g_rels g)).

(** The document reaches the store: its fields normalise and its key is not
    null. *)
Definition importable (market_data : document) : bool :=
  is_ok (market_properties market_data) &&
  negb (value_eqb (market_id_of market_data) VNone).


Definition is_progress (e : event) : bool :=
  match e with Progress _ _ => true | _ => false end.

Definition is_sleep (e : event) : bool :=
  match e with Slept _ => true | _ => false end.

(** The summary a run printed, if it printed one. *)
Definition summary_of (out : list event) : option event :=
  match last out with
  | Some (Summary m c s r counters total) => Some (Summary m c s r counters total)
  | _ => None
  end.

(** The graph store answers one of the first [n] probes. *)
Definition answers_within (answers : Z -> bool) (n : Z) : Prop :=
  exists a, 1 <= a <= n /\ answers a = true.


(** [main]'s [is_docker]. *)
Definition is_docker (w : world) : bool :=
  String.prefix "bolt://neo4j:" (default "" (getenv (env w) "NEO4J_URI")).

(** The graph [main] hands to the import. *)
Definition cleared (w : world) (g : graph) : graph :=
  (clear_neo4j_graph g (is_docker w) (operator w)).1.

(** Both stores are reachable and the settings are there. *)
Definition ready (w : world) : Prop :=
  check_environment_variables (env w) = true /\ mongo_answers w = true /\
  answers_within (neo4j_answers w) 30.




(** The first format, in the order of [formats], that accepts [s]. *)
Definition first_format (s : string) : option datetime :=
  match strptime_text s "%Y-%m-%dT%H:%M:%S.%fZ" with
  | Some d => Some d
  | None =>
      match strptime_text s "%Y-%m-%dT%H:%M:%SZ" with
      | Some d => Some d
      | None =>
          match strptime_text s "%Y-%m-%d %H:%M:%S" with
          | Some d => Some d
          | None => strptime_text s "%Y-%m-%d"
          end
      end
  end.

(** *** Texts of the four formats *)

(** A continuation that refuses to start at a digit. *)
Definition refuses_digits {R} (k : string -> groups -> option R) : Prop :=
  forall c s e, is_digit c = true -> k (String c s) e = None.

(** How a group for a two-digit field treats the two digits of [v]: it hands
    them to the continuation, and falls back, at most, on continuations
    that start at a digit. *)
Definition two_digit_field (r : regex) (name : ascii) (v : Z) : Prop :=
  forall R rest g (k : string -> groups -> option R),
  exists fb,
    rmatch r (fixed_digits 2 v +:+ rest) g k =
      match k rest ((name, fixed_digits 2 v) :: g) with
      | Some x => Some x
      | None => fb
      end /\
    (refuses_digits k -> fb = None).

(** The regular expressions of the four formats: each is the date part,
    or the date and the time parts, with literals between and after them. *)
Definition date_regex (r : regex) : regex :=
  RSeq year_group (RSeq (RChar "-") (RSeq month_group (RSeq (RChar "-")
    (RSeq day_group r)))).

Definition time_regex (r : regex) : regex :=
  RSeq hour_group (RSeq (RChar ":") (RSeq minute_group (RSeq (RChar ":")
    (RSeq second_group r)))).

(** The digits of a [datetime] as [%Y-%m-%d] and [%H:%M:%S] write them. *)
Definition date_text (d : datetime) : string :=
  fixed_digits 4 (year d) +:+ "-" +:+ fixed_digits 2 (month d) +:+ "-" +:+
  fixed_digits 2 (day d).

Definition time_text (d : datetime) : string :=
  fixed_digits 2 (hour d) +:+ ":" +:+ fixed_digits 2 (minute d) +:+ ":" +:+
  fixed_digits 2 (second d).

(** The groups a match of the date and of the time part binds, the last
    bound first. *)
Definition date_groups (d : datetime) (g : groups) : groups :=
  ("d"%char, fixed_digits 2 (day d)) :: ("m"%char, fixed_digits 2 (month d)) ::
  ("Y"%char, fixed_digits 4 (year d)) :: g.

Definition time_groups (d : datetime) (g : groups) : groups :=
  ("S"%char, fixed_digits 2 (second d)) :: ("M"%char, fixed_digits 2 (minute d)) ::
  ("H"%char, fixed_digits 2 (hour d)) :: g.

(** A [datetime] without its microseconds, and without its time. *)
Definition at_second (d : datetime) : datetime :=
  Datetime (year d) (month d) (day d) (hour d) (minute d) (second d) 0.

Definition at_midnight (d : datetime) : datetime :=
  Datetime (year d) (month d) (day d) 0 0 0 0.

(** A text of each of the first three formats; the fourth is [date_text]. *)
Definition fraction_text (d : datetime) : string :=
  date_text d +:+ "T" +:+ time_text d +:+ "." +:+ fixed_digits 6 (microsecond d) +:+ "Z".

Definition zulu_text (d : datetime) : string :=
  date_text d +:+ "T" +:+ time_text d +:+ "Z".

Definition space_text (d : datetime) : string :=
  date_text d +:+ " " +:+ time_text d.


(** ** The structure of the graph

    What the header of the script says of the graph it builds: Market,
    Category and Series nodes, [Market -[:BELONGS_TO]-> Category] and
    [Market -[:IN_SERIES]-> Series]. *)

Definition target_label (t : rel_type) : label :=
  match t with
  | BELONGS_TO => Category
  | IN_SERIES => Series
  end.

(** Every relationship leaves a Market node and reaches a node of the label
    its type asks. *)
Definition typed_rels (g : graph) : Prop :=
  forall r, r ∈ g_rels g ->
    exists a b, g_nodes g !! r_src r = Some a /\ g_nodes g !! r_dst r = Some b /\
                n_label a = Market /\ n_label b = target_label (r_type r).

(** Every node has the property that identifies its label. *)
Definition keyed (g : graph) : Prop :=
  forall n, n ∈ g_nodes g -> is_Some (n_props n !! key_name (n_label n)).

(** [g'] holds all of [g]: every node at its position, with its label and
    its key, a Category or Series node with all its properties, and every
    relationship in its place. *)
Definition grows (g g' : graph) : Prop :=
  (forall i n, g_nodes g !! i = Some n ->
     exists n', g_nodes g' !! i = Some n' /\ n_label n' = n_label n /\
                n_props n' !! key_name (n_label n) = n_props n !! key_name (n_label n) /\
                (n_label n <> Market -> n' = n)) /\
  g_rels g `prefix_of` g_rels g'.

(** ** What a run adds

    The nodes a run creates are counted by the keys its documents bring. *)

(** The elements of a list, each once. *)
Fixpoint distinct {A} (eqb : A -> A -> bool) (l : list A) : list A :=
  match l with
  | [] => []
  | x :: l' => if existsb (eqb x) l' then distinct eqb l' else x :: distinct eqb l'
  end.

(** The key of the [l] node that importing [md] matches or creates: its own
    key for Market, its category for Category and its series slug for Series,
    when it has one and the document reaches the store. *)
Definition node_key (l : label) (md : document) : option value :=
  if importable md then
    match l with
    | Market => Some (market_id_of md)
    | Category =>
        let category := dict_get_none md "category" in
        if truthy category then Some category else None
    | Series =>
        let series_slug := dict_get_none md "seriesSlug" in
        if truthy series_slug then Some series_slug else None
    end
  else None.

(** No [l] node of [g] carries the key [v]. *)
Definition unseen (l : label) (g : graph) (v : value) : bool :=
  match match_nodes l v g with
  | [] => true
  | _ => false
  end.

(** The keys among [vs], each once, that no [l] node of [g] carries. *)
Definition new_keys (l : label) (g : graph) (vs : list value) : list value :=
  List.filter (unseen l g) (distinct value_eqb vs).

(** The keys of the two nodes that importing [md] joins by a relationship
    of type [t]: the document's own key and its category or series slug. *)
Definition link_key (t : rel_type) (md : document) : option (value * value) :=
  match node_key (target_label t) md with
  | Some v => Some (market_id_of md, v)
  | None => None
  end.

Definition pair_eqb (p q : value * value) : bool :=
  value_eqb p.1 q.1 && value_eqb p.2 q.2.

(** A Market node keyed [k] has a [t] relationship to a node keyed [v]. *)
Definition pair_linked (t : rel_type) (g : graph) (k v : value) : Prop :=
  exists a b, a ∈ match_nodes Market k g /\ b ∈ match_nodes (target_label t) v g /\
              Rel a t b ∈ g_rels g.

(** The same, computed; [kv] is the pair of keys. *)
Definition unlinked (t : rel_type) (g : graph) (kv : value * value) : bool :=
  negb (existsb (fun a =>
          existsb (fun b => bool_decide (Rel a t b ∈ g_rels g))
                  (match_nodes (target_label t) kv.2 g))
        (match_nodes Market kv.1 g)).

(** The pairs among [kvs], each once, that [g] does not link by [t]. *)
Definition new_links (t : rel_type) (g : graph) (kvs : list (value * value))
    : list (value * value) :=
  List.filter (unlinked t g) (distinct pair_eqb kvs).

(** The end of [isoformat]: nothing, or the microseconds. *)
Definition iso_tail (d : datetime) : string :=
  if microsecond d =? 0 then "" else "." +:+ fixed_digits 6 (microsecond d).

(** A string of decimal digits, possibly empty. *)
Fixpoint digits_only (s : string) : bool :=
  match s with
  | EmptyString => true
  | String c s' => is_digit c && digits_only s'
  end.

(** ** What [check_environment_variables] prints *)

(** [needle in hay] *)
Fixpoint contains (needle hay : string) : bool :=
  String.prefix needle hay ||
  match hay with
  | String _ hay' => contains needle hay'
  | EmptyString => false
  end.

(** ['*' * n] *)
Fixpoint stars (n : nat) : string :=
  match n with
  | O => EmptyString
  | S n' => String "*" (stars n')
  end.

(** What is shown for a variable that is set: stars for a password, the
    first thirty characters for a URI, the value otherwise. *)
Definition display_value (var value : string) : string :=
  if contains "PASSWORD" var || contains "URI" var then
    if contains "PASSWORD" var then stars (String.length value)
    else if Nat.ltb 30 (String.length value)
         then String.substring 0 30 value +:+ "..."
         else value
  else value.

Definition required_descriptions : list (string * string) :=
  [("MONGO_URI", "MongoDB connection string"); ("DB2", "MongoDB database name");
   ("NEO4J_URI", "Neo4j connection URI"); ("NEO4J_USER", "Neo4j username");
   ("NEO4J_PASSWORD", "Neo4j password")].

Inductive env_line :=
  | Shown (var text : string)
  | MissingHeader
  | MissingVar (var description : string)
  | AllSet.

(** The lines for the variables that are set, printed as the loop goes. *)
Definition shown_lines (e : list (string * string)) : list env_line :=
  omap (fun vd : string * string =>
          match getenv e vd.1 with
          | Some value =>
              if String.eqb value "" then None
              else Some (Shown vd.1 (display_value vd.1 value))
          | None => None
          end) required_descriptions.

(** The [missing] list. *)
Definition missing_lines (e : list (string * string)) : list env_line :=
  omap (fun vd : string * string =>
          if is_set e vd.1 then None else Some (MissingVar vd.1 vd.2))
       required_descriptions.

(** The lines of [check_environment_variables], in the order they are
    printed: one for each variable that is set, then the list of the missing
    ones or the word that all are there. *)
Definition check_environment_variables_lines (e : list (string * string)) : list env_line :=
  shown_lines e ++ match missing_lines e with
                   | [] => [AllSet]
                   | missing => MissingHeader :: missing
                   end.

(** ** A run, node by node *)

(** The properties the upsert of [md] sets, when its fields normalise. *)
Definition doc_props (md : document) : list (string * value) :=
  match market_properties md with
  | Ok kvs => kvs
  | Raise _ => []
  end.

(** The upsert of [md] reaches the node [n]: the document gets to the store
    and [n] is a Market node of its key. *)
Definition touches (md : document) (n : node) : bool :=
  importable md && node_matches Market (market_id_of md) n.

(** What importing [md] does to a node that is there already. *)
Definition node_step (n : node) (md : document) : node :=
  if touches md n then set_props (doc_props md) n else n.

Definition node_run (ds : list document) (n : node) : node := foldl node_step n ds.

(** The properties the upsert sets. *)
Definition upsert_names : list string :=
  ["title"; "description"; "slug"; "ticker"; "volume"; "commentCount";
   "image"; "icon"; "resolutionSource"; "publishedAt"; "updatedAt";
   "startDate"; "endDate"; "createdAt"; "closedTime"].

(** All that a run writes on a node, in the order it writes it. *)
Definition written (ds : list document) (n : node) : list (string * value) :=
  flat_map (fun md => if touches md n then doc_props md else []) ds.

(** ** Statements that fail

    [session.run] raises when the driver cannot send a parameter or the store
    refuses the statement.  Nothing in [create_market_node] or in the two
    link functions catches that, so the exception reaches the [try] of the
    loop in [import_markets_to_neo4j].  [raises] tells which statements
    fail; a statement that fails writes nothing.  [process_document] is the
    loop body when no statement fails. *)

Inductive statement :=
  | Upsert (id : value) (kvs : list (string * value))
  | Link (l : label) (t : rel_type) (market_id v : value).

Section Refusals.

Variable raises : statement -> bool.

Definition try_create_market_node (g : graph) (market_data : document)
    : result (graph * value) :=
  kvs ← market_properties market_data;
  if raises (Upsert (market_id_of market_data) kvs) then Raise CypherError
  else create_market_node g market_data.

Definition try_create_category_relationship (g : graph) (market_id category_name : value)
    : result graph :=
  if negb (truthy category_name) then Ok g
  else if raises (Link Category BELONGS_TO market_id category_name) then Raise CypherError
  else Ok (cypher_link Category BELONGS_TO market_id category_name g).

Definition try_create_series_relationship (g : graph) (market_id series_slug : value)
    : result graph :=
  if negb (truthy series_slug) then Ok g
  else if raises (Link Series IN_SERIES market_id series_slug) then Raise CypherError
  else Ok (cypher_link Series IN_SERIES market_id series_slug g).

Definition count_market (c : stats) : stats :=
  Stats (processed c) (S (markets_created c)) (categories_created c) (series_created c).

Definition count_category (c : stats) : stats :=
  Stats (processed c) (markets_created c) (S (categories_created c)) (series_created c).

Definition count_series (c : stats) : stats :=
  Stats (processed c) (markets_created c) (categories_created c) (S (series_created c)).

Definition count_processed (c : stats) : stats :=
  Stats (S (processed c)) (markets_created c) (categories_created c) (series_created c).

(** The body of the [for market_data in batch] loop, statement by statement:
    a counter moves when the call before it has returned, and an exception
    leaves the rest of the body undone. *)
Definition try_document (st : graph * stats) (market_data : document) : graph * stats :=
  let '(g, c) := st in
  match try_create_market_node g market_data with
  | Raise _ => (g, c)
  | Ok (g1, market_id) =>
      let c1 := count_market c in
      let category := dict_get_none market_data "category" in
      match (if truthy category
             then try_create_category_relationship g1 market_id category
             else Ok g1) with
      | Raise _ => (g1, c1)
      | Ok g2 =>
          let c2 := if truthy category then count_category c1 else c1 in
          let series_slug := dict_get_none market_data "seriesSlug" in
          match (if truthy series_slug
                 then try_create_series_relationship g2 market_id series_slug
                 else Ok g2) with
          | Raise _ => (g2, c2)
          | Ok g3 =>
              let c3 := if truthy series_slug then count_series c2 else c2 in
              (g3, count_processed c3)
          end
      end
  end.

(** How far the body gets on a document: its upsert runs; its category link,
    if it has a category, does not fail; nor does its series link. *)
Definition upsert_runs (md : document) : bool :=
  match market_properties md with
  | Ok kvs =>
      negb (value_eqb (market_id_of md) VNone) &&
      negb (raises (Upsert (market_id_of md) kvs))
  | Raise _ => false
  end.

Definition category_fails (md : document) : bool :=
  truthy (dict_get_none md "category") &&
  raises (Link Category BELONGS_TO (market_id_of md) (dict_get_none md "category")).

Definition series_fails (md : document) : bool :=
  truthy (dict_get_none md "seriesSlug") &&
  raises (Link Series IN_SERIES (market_id_of md) (dict_get_none md "seriesSlug")).

Definition category_linked (md : document) : bool :=
  upsert_runs md && truthy (dict_get_none md "category") && negb (category_fails md).

Definition series_linked (md : document) : bool :=
  upsert_runs md && negb (category_fails md) &&
  truthy (dict_get_none md "seriesSlug") && negb (series_fails md).

Definition completed (md : document) : bool :=
  upsert_runs md && negb (category_fails md) && negb (series_fails md).

End Refusals.

(** The documents of [ds] that satisfy [p]. *)
Definition count_docs (p : document -> bool) (ds : list document) : nat :=
  length (List.filter p ds).

(** ** Sample documents and worlds *)

(** [repr] for the closed examples, none of which has a float, a list or a
    dict for [_id]. *)
Definition no_repr : value -> string := fun _ => "".

Definition doc_plain : document :=
  [("id", VStr "m1"); ("title", VStr "Lakers win"); ("category", VStr "Sports");
   ("volume", VDict [("$numberDouble", VStr "42.5")]);
   ("commentCount", VInt 12); ("startDate", VStr "2026-01-01T00:00:00.000000Z")].

Definition doc_oid : document :=
  [("_id", VDict [("$oid", VStr "65ab12cd")]); ("title", VStr "Celtics win");
   ("category", VStr "Sports"); ("seriesSlug", VStr "nba");
   ("volume", VFloat (S754_finite false 5981343255101440 (-47)))].

Definition doc_object_id : document :=
  [("_id", VObjectId "65ab12ce"); ("title", VStr "Rain tomorrow")].

Definition doc_string_id : document :=
  [("id", VStr ""); ("_id", VStr "legacy-7")].

Definition doc_no_id : document :=
  [("title", VStr "No identifier at all")].

Definition doc_bad_volume : document :=
  [("id", VStr "m2"); ("volume", VStr "abc")].

Definition doc_bad_comment_count : document :=
  [("id", VStr "m3"); ("commentCount", VStr "many")].

Definition doc_bad_box : document :=
  [("id", VStr "m4"); ("volume", VDict [("$numberDouble", VStr "abc")])].

Definition doc_two_dates : document :=
  [("id", VStr "m5"); ("createdAt", VStr "garbage"); ("creationDate", VStr "2026-01-01")].

Definition doc_creation_date : document :=
  [("id", VStr "m6"); ("creationDate", VStr "2026-01-01")].

(** [doc_plain] again, later, with another category and no start date. *)
Definition doc_plain_moved : document :=
  [("id", VStr "m1"); ("title", VStr "Lakers win"); ("category", VStr "Basketball")].

Definition doc_numbered (n : Z) : document :=
  [("id", VInt n); ("title", VStr "numbered")].

(** Ten documents, the fourth without identifier. *)
Definition batch_of_ten : list document :=
  [doc_numbered 1; doc_numbered 2; doc_numbered 3; doc_no_id; doc_numbered 5;
   doc_numbered 6; doc_numbered 7; doc_numbered 8; doc_numbered 9; doc_numbered 10].

Definition full_env : list (string * string) :=
  [("MONGO_URI", "mongodb+srv://cluster0"); ("DB2", "polymarket");
   ("NEO4J_URI", "bolt://neo4j:7687"); ("NEO4J_USER", "neo4j");
   ("NEO4J_PASSWORD", "secret")].

(** Both stores up, the graph store from its third probe on. *)
Definition world_up (docs : list document) : world :=
  World full_env true (fun attempt => 3 <=? attempt) None docs.

(** A run on a workstation: the graph store is not the [neo4j] host of the
    containers, and the operator declines to clear the graph. *)
Definition world_local (docs : list document) : world :=
  World [("MONGO_URI", "mongodb://localhost:27017"); ("DB2", "polymarket");
         ("NEO4J_URI", "bolt://localhost:7687"); ("NEO4J_USER", "neo4j");
         ("NEO4J_PASSWORD", "secret")]
        true (fun _ => true) (Some "n") docs.

(** The document store down, the graph store up. *)
Definition world_mongo_down : world :=
  World full_env false (fun _ => true) None [doc_plain].

(** A document whose category is a map, and a store that holds no map as a
    property. *)
Definition doc_map_category : document :=
  [("id", VStr "m8"); ("category", VDict [("name", VStr "Sports")]);
   ("seriesSlug", VStr "nba")].

Definition refuses_maps (s : statement) : bool :=
  match s with
  | Link _ _ _ (VDict _) => true
  | _ => false
  end.

(** A graph with one Market node keyed ["m1"]. *)
Definition graph_m1 : graph :=
  Graph [Node Market {[ "id" := VStr "m1" ]}] [].


(** * Properties *)

(** ** Values *)

Section ValueInduction.
Variable P : value -> Prop.
Hypothesis HNone : P VNone.
Hypothesis HBool : forall b, P (VBool b).
Hypothesis HInt : forall z, P (VInt z).
Hypothesis HFloat : forall f, P (VFloat f).
Hypothesis HStr : forall s, P (VStr s).
Hypothesis HOid : forall h, P (VObjectId h).
Hypothesis HList : forall l, Forall P l -> P (VList l).
Hypothesis HDict : forall d, Forall (fun kv => P kv.2) d -> P (VDict d).

Fixpoint value_nested_ind (v : value) : P v :=
  match v with
  | VNone => HNone
  | VBool b => HBool b
  | VInt z => HInt z
  | VFloat f => HFloat f
  | VStr s => HStr s
  | VObjectId h => HOid h
  | VList l =>
      HList l ((fix go (l : list value) : Forall P l :=
                  match l with
                  | [] => @List.Forall_nil _ P
                  | x :: l' => @List.Forall_cons _ P x l' (value_nested_ind x) (go l')
                  end) l)
  | VDict d =>
      HDict d ((fix go (d : list (string * value)) : Forall (fun kv => P kv.2) d :=
                  match d with
                  | [] => @List.Forall_nil _ _
                  | kv :: d' =>
                      @List.Forall_cons _ (fun kv => P kv.2) kv d' (value_nested_ind kv.2) (go d')
                  end) d)
  end.
End ValueInduction.

Lemma spec_float_eqb_eq f g : spec_float_eqb f g = true <-> f = g.
Proof.
  destruct f, g; simpl; try (split; [discriminate | congruence]);
    try tauto.
  - rewrite Bool.eqb_true_iff. split; congruence.
  - rewrite Bool.eqb_true_iff. split; congruence.
  - rewrite !andb_true_iff, Bool.eqb_true_iff, Pos.eqb_eq, Z.eqb_eq.
    split; [intros [[-> ->] ->]; reflexivity | intros [= -> -> ->]; auto].
Qed.

Lemma value_eqb_eq v : forall w, value_eqb v w = true <-> v = w.
Proof.
  induction v using value_nested_ind; intros w; destruct w; simpl;
    try (split; [discriminate | congruence]); try tauto.
  - rewrite Bool.eqb_true_iff. split; congruence.
  - rewrite Z.eqb_eq. split; congruence.
  - rewrite spec_float_eqb_eq. split; congruence.
  - rewrite String.eqb_eq. split; congruence.
  - rewrite String.eqb_eq. split; congruence.
  - revert l0. induction H as [|x l Hx Hl IH]; intros [|y m]; simpl;
      try (split; [discriminate | congruence]); try tauto.
    rewrite andb_true_iff, Hx, IH. split.
    + intros [-> [= ->]]. reflexivity.
    + intros [= -> ->]. auto.
  - revert d0. induction H as [|[k x] l Hx Hl IH]; intros [|[j y] m]; simpl;
      try (split; [discriminate | congruence]); try tauto.
    simpl in Hx. rewrite !andb_true_iff, String.eqb_eq, Hx, IH. split.
    + intros [[-> ->] [= ->]]. reflexivity.
    + intros [= -> -> ->]. auto.
Qed.

Lemma value_eqb_refl v : value_eqb v v = true.
Proof. apply value_eqb_eq. reflexivity. Qed.

Lemma value_eqb_neq v w : v <> w -> value_eqb v w = false.
Proof.
  intros H. destruct (value_eqb v w) eqn:E; [|reflexivity].
  apply value_eqb_eq in E. contradiction.
Qed.

#[global] Instance value_eq_dec : EqDecision value.
Proof.
  intros v w. destruct (value_eqb v w) eqn:E.
  - left. apply value_eqb_eq. exact E.
  - right. intros ->. rewrite value_eqb_refl in E. discriminate.
Defined.

(** ** Matching *)

Lemma positions_from_elem p ns : forall i j,
  j ∈ positions_from i p ns <->
  (i <= j)%nat /\ exists n, ns !! (j - i)%nat = Some n /\ p n = true.
Proof.
  induction ns as [|n ns IH]; intros i j; simpl.
  - split; [intros H; inversion H | intros [_ (n & H & _)]; discriminate].
  - assert (Hrec : j ∈ positions_from (S i) p ns <->
      (i < j)%nat /\ exists m, (n :: ns) !! (j - i)%nat = Some m /\ p m = true).
    { rewrite IH. split.
      - intros [Hle (m & Hm & Hp)]. split; [lia|]. exists m. split; [|done].
        replace (j - i)%nat with (S (j - S i)) by lia. done.
      - intros [Hlt (m & Hm & Hp)]. split; [lia|]. exists m. split; [|done].
        replace (j - i)%nat with (S (j - S i)) in Hm by lia. done. }
    destruct (p n) eqn:Hp.
    + rewrite elem_of_cons, Hrec. split.
      * intros [-> | [Hlt Hex]]; [|split; [lia | done]].
        split; [lia|]. exists n. rewrite Nat.sub_diag. done.
      * intros [Hle (m & Hm & Hpm)].
        destruct (decide (j = i)) as [->|Hne]; [by left | right].
        split; [lia | eauto].
    + rewrite Hrec. split.
      * intros [Hlt Hex]. split; [lia | done].
      * intros [Hle (m & Hm & Hpm)].
        destruct (decide (j = i)) as [->|Hne]; [|split; [lia | eauto]].
        rewrite Nat.sub_diag in Hm. simpl in Hm. congruence.
Qed.

Lemma positions_from_app p xs ys : forall i,
  positions_from i p (xs ++ ys) =
  positions_from i p xs ++ positions_from (i + length xs) p ys.
Proof.
  induction xs as [|x xs IH]; intros i; simpl.
  - by rewrite Nat.add_0_r.
  - rewrite IH. replace (S i + length xs)%nat with (i + S (length xs))%nat by lia.
    by destruct (p x).
Qed.

Lemma positions_from_same p q xs ys : forall i,
  map p xs = map q ys -> positions_from i p xs = positions_from i q ys.
Proof.
  revert ys. induction xs as [|x xs IH]; intros [|y ys] i H; simpl in *; try done.
  injection H as Hxy H. rewrite Hxy. by rewrite (IH ys (S i) H).
Qed.

Lemma positions_from_nil p xs i :
  positions_from i p xs = [] <-> forall x, x ∈ xs -> p x = false.
Proof.
  revert i. induction xs as [|x xs IH]; intros i; simpl.
  - split; [intros _ y Hy; inversion Hy | done].
  - destruct (p x) eqn:Hp.
    + split; [done|]. intros H. specialize (H x (list_elem_of_here _ _)). congruence.
    + rewrite IH. split.
      * intros H y Hy. apply elem_of_cons in Hy as [->|Hy]; auto.
      * intros H y Hy. apply H. by right.
Qed.

Lemma match_nodes_lt l v g i : i ∈ match_nodes l v g -> (i < length (g_nodes g))%nat.
Proof.
  unfold match_nodes. rewrite positions_from_elem. intros [_ (n & Hn & _)].
  apply lookup_lt_Some in Hn. lia.
Qed.

Lemma match_nodes_label l v g i n :
  i ∈ match_nodes l v g -> g_nodes g !! i = Some n -> n_label n = l.
Proof.
  unfold match_nodes. rewrite positions_from_elem, Nat.sub_0_r.
  intros [_ (m & Hm & Hp)] Hn. assert (m = n) as -> by congruence.
  unfold node_matches in Hp. apply andb_true_iff in Hp as [Hl _].
  by apply bool_decide_eq_true in Hl.
Qed.

(** A node built by [MERGE] matches exactly its own label and key. *)
Lemma node_matches_fresh l v l' v' :
  v <> VNone ->
  node_matches l' v' (Node l {[ key_name l := v ]}) = bool_decide (l = l' /\ v = v').
Proof.
  intros Hv. unfold node_matches. simpl.
  destruct (decide (l = l')) as [<-|Hne].
  - rewrite bool_decide_eq_true_2 by done. rewrite lookup_singleton_eq. simpl.
    destruct (decide (v = v')) as [<-|Hvv].
    + rewrite bool_decide_eq_true_2 by done. rewrite value_eqb_refl. by destruct v.
    + rewrite bool_decide_eq_false_2 by (intros [_ ?]; done).
      rewrite value_eqb_neq by done. by destruct v'.
  - rewrite bool_decide_eq_false_2 by done.
    rewrite bool_decide_eq_false_2 by (intros [? _]; done). done.
Qed.

Lemma node_matches_none l n : node_matches l VNone n = false.
Proof. unfold node_matches. by rewrite andb_false_r. Qed.

Lemma match_nodes_none l g : match_nodes l VNone g = [].
Proof.
  unfold match_nodes. apply positions_from_nil. intros. apply node_matches_none.
Qed.

(** ** [MERGE] of a node *)

Lemma merge_node_found l v g :
  match_nodes l v g <> [] -> merge_node l v g = (g, match_nodes l v g).
Proof. unfold merge_node. by destruct (match_nodes l v g). Qed.

Lemma merge_node_fresh l v g :
  match_nodes l v g = [] ->
  merge_node l v g =
    (Graph (g_nodes g ++ [Node l {[ key_name l := v ]}]) (g_rels g),
     [length (g_nodes g)]).
Proof. unfold merge_node. by intros ->. Qed.

Lemma merge_node_rels l v g : g_rels (merge_node l v g).1 = g_rels g.
Proof. unfold merge_node. by destruct (match_nodes l v g). Qed.

(** What a pattern matches after a [MERGE]: what it matched before, and the
    new node when the pattern is the merged one and nothing matched it. *)
Lemma match_nodes_merge_node l v l' v' g :
  v <> VNone ->
  match_nodes l' v' (merge_node l v g).1 =
    if bool_decide (l = l' /\ v = v' /\ match_nodes l v g = [])
    then [length (g_nodes g)] else match_nodes l' v' g.
Proof.
  intros Hv. destruct (decide (match_nodes l v g = [])) as [Hnil|Hsome].
  - rewrite merge_node_fresh by done. unfold match_nodes at 1. simpl.
    rewrite positions_from_app. simpl. rewrite node_matches_fresh by done.
    fold (match_nodes l' v' g).
    destruct (decide (l = l' /\ v = v')) as [[<- <-]|Hne].
    + rewrite !bool_decide_eq_true_2 by done. by rewrite Hnil.
    + rewrite bool_decide_eq_false_2 by done.
      rewrite bool_decide_eq_false_2 by (intros (? & ? & _); by apply Hne).
      by rewrite app_nil_r.
  - rewrite merge_node_found by done.
    by rewrite bool_decide_eq_false_2 by (intros (_ & _ & ?); done).
Qed.

Lemma merge_node_matches l v g :
  v <> VNone -> (merge_node l v g).2 = match_nodes l v (merge_node l v g).1.
Proof.
  intros Hv. rewrite match_nodes_merge_node by done.
  destruct (decide (match_nodes l v g = [])) as [Hnil|Hsome].
  - rewrite bool_decide_eq_true_2 by done. by rewrite merge_node_fresh.
  - rewrite bool_decide_eq_false_2 by (intros (_ & _ & ?); done).
    by rewrite merge_node_found.
Qed.

Lemma merge_node_nonempty l v g : (merge_node l v g).2 <> [].
Proof.
  unfold merge_node. destruct (match_nodes l v g) eqn:E; simpl; done.
Qed.

(** A pattern that matched keeps matching the same nodes. *)
Lemma match_nodes_merge_node_keep l v l' v' g :
  v <> VNone -> match_nodes l' v' g <> [] ->
  match_nodes l' v' (merge_node l v g).1 = match_nodes l' v' g.
Proof.
  intros Hv Hsome. rewrite match_nodes_merge_node by done.
  rewrite bool_decide_eq_false_2; [done|]. intros (<- & <- & Hnil). done.
Qed.

(** ** [SET] *)

Lemma set_prop_other m kv j : kv.1 <> j -> set_prop m kv !! j = m !! j.
Proof.
  intros Hne. unfold set_prop.
  destruct (kv.2); first [by apply lookup_delete_ne | by apply lookup_insert_ne].
Qed.

(** The value a key ends with depends on the last assignment to it alone. *)
Lemma set_prop_same m m' kv j : kv.1 = j -> set_prop m kv !! j = set_prop m' kv !! j.
Proof.
  intros <-. unfold set_prop.
  destruct (kv.2); rewrite ?lookup_delete_eq, ?lookup_insert_eq; done.
Qed.

Lemma foldl_set_prop_other kvs : forall m j,
  j ∉ kvs.*1 -> foldl set_prop m kvs !! j = m !! j.
Proof.
  induction kvs as [|kv kvs IH]; intros m j Hj; simpl; [done|].
  rewrite fmap_cons, not_elem_of_cons in Hj. destruct Hj as [Hne Hj].
  rewrite IH by done. apply set_prop_other. congruence.
Qed.

Lemma foldl_set_prop_agree kvs : forall m m' j,
  (j ∈ kvs.*1 \/ m !! j = m' !! j) ->
  foldl set_prop m kvs !! j = foldl set_prop m' kvs !! j.
Proof.
  induction kvs as [|kv kvs IH]; intros m m' j Hj; simpl.
  - destruct Hj as [Hj|Hj]; [inversion Hj | done].
  - apply IH. destruct (decide (kv.1 = j)) as [Heq|Hne].
    + right. by apply set_prop_same.
    + destruct Hj as [Hj|Hj].
      * left. rewrite fmap_cons, elem_of_cons in Hj. destruct Hj; [congruence | done].
      * right. rewrite !set_prop_other by done. done.
Qed.

Lemma foldl_set_prop_twice kvs m :
  foldl set_prop (foldl set_prop m kvs) kvs = foldl set_prop m kvs.
Proof.
  apply map_eq. intros j.
  destruct (decide (j ∈ kvs.*1)) as [Hin|Hout].
  - apply foldl_set_prop_agree. by left.
  - by rewrite !foldl_set_prop_other.
Qed.

Lemma set_props_twice kvs n : set_props kvs (set_props kvs n) = set_props kvs n.
Proof. unfold set_props. simpl. by rewrite foldl_set_prop_twice. Qed.

(** Overwriting properties other than the key leaves every pattern's verdict
    on a Market node as it was. *)
Lemma node_matches_set_props kvs l v n :
  n_label n = Market -> "id" ∉ kvs.*1 ->
  node_matches l v (set_props kvs n) = node_matches l v n.
Proof.
  intros Hl Hid. unfold node_matches, set_props. simpl. rewrite Hl.
  destruct l; simpl; try done.
  by rewrite foldl_set_prop_other.
Qed.

Lemma update_nodes_rels f ms g : g_rels (update_nodes f ms g) = g_rels g.
Proof. done. Qed.

Lemma update_nodes_length f ms g :
  length (g_nodes (update_nodes f ms g)) = length (g_nodes g).
Proof. unfold update_nodes. simpl. by rewrite length_imap. Qed.

Lemma update_nodes_lookup f ms g i :
  g_nodes (update_nodes f ms g) !! i =
  (fun n => if bool_decide (i ∈ ms) then f n else n) <$> g_nodes g !! i.
Proof. unfold update_nodes. simpl. by rewrite list_lookup_imap. Qed.

Lemma update_nodes_labels kvs ms g :
  n_label <$> g_nodes (update_nodes (set_props kvs) ms g) = n_label <$> g_nodes g.
Proof.
  apply list_eq. intros i. rewrite !list_lookup_fmap, update_nodes_lookup.
  destruct (g_nodes g !! i) as [n|]; simpl; [|done].
  by destruct (bool_decide (i ∈ ms)).
Qed.

Lemma match_nodes_update_nodes kvs ms g l v :
  (forall i n, i ∈ ms -> g_nodes g !! i = Some n -> n_label n = Market) ->
  "id" ∉ kvs.*1 ->
  match_nodes l v (update_nodes (set_props kvs) ms g) = match_nodes l v g.
Proof.
  intros Hms Hid. unfold match_nodes. apply positions_from_same.
  apply list_eq. intros i.
  change (map (node_matches l v)) with (fmap (M:=list) (node_matches l v)).
  rewrite !list_lookup_fmap, update_nodes_lookup.
  destruct (g_nodes g !! i) as [n|] eqn:Hn; simpl; [|done].
  destruct (decide (i ∈ ms)) as [Hin|Hout].
  - rewrite bool_decide_eq_true_2 by done.
    by rewrite node_matches_set_props by eauto.
  - by rewrite bool_decide_eq_false_2 by done.
Qed.

Lemma update_nodes_twice kvs ms g :
  update_nodes (set_props kvs) ms (update_nodes (set_props kvs) ms g) =
  update_nodes (set_props kvs) ms g.
Proof.
  unfold update_nodes at 1 3. f_equal. apply list_eq. intros i.
  rewrite !list_lookup_imap, update_nodes_lookup.
  destruct (g_nodes g !! i) as [n|]; simpl; [|done].
  destruct (bool_decide (i ∈ ms)); [|done]. by rewrite set_props_twice.
Qed.

(** ** [MERGE] of a relationship *)

Lemma merge_rel_nodes t a b g : g_nodes (merge_rel t a b g) = g_nodes g.
Proof. unfold merge_rel. by destruct (bool_decide _). Qed.

Lemma merge_rel_elem t a b g r :
  r ∈ g_rels (merge_rel t a b g) <-> r ∈ g_rels g \/ r = Rel a t b.
Proof.
  unfold merge_rel. destruct (decide (Rel a t b ∈ g_rels g)) as [Hin|Hout].
  - rewrite bool_decide_eq_true_2 by done. split; [by left|]. by intros [?| ->].
  - rewrite bool_decide_eq_false_2 by done. simpl. rewrite elem_of_app, list_elem_of_singleton. done.
Qed.

Lemma merge_rel_present t a b g : Rel a t b ∈ g_rels g -> merge_rel t a b g = g.
Proof. intros H. unfold merge_rel. by rewrite bool_decide_eq_true_2. Qed.

Lemma merge_rels_row_nodes t a cs : forall g,
  g_nodes (foldl (fun g b => merge_rel t a b g) g cs) = g_nodes g.
Proof.
  induction cs as [|c cs IH]; intros g; simpl; [done|].
  by rewrite IH, merge_rel_nodes.
Qed.

Lemma merge_rels_nodes t ms cs : forall g, g_nodes (merge_rels t ms cs g) = g_nodes g.
Proof.
  unfold merge_rels. induction ms as [|m ms IH]; intros g; simpl; [done|].
  by rewrite IH, merge_rels_row_nodes.
Qed.

Lemma merge_rels_row_elem t a cs r : forall g,
  r ∈ g_rels (foldl (fun g b => merge_rel t a b g) g cs) <->
  r ∈ g_rels g \/ exists b, b ∈ cs /\ r = Rel a t b.
Proof.
  induction cs as [|c cs IH]; intros g; simpl.
  - split; [by left|]. intros [?|(b & Hb & _)]; [done | inversion Hb].
  - rewrite IH, merge_rel_elem. split.
    + intros [[?| ->]|(b & Hb & ->)]; [by left | right | right].
      * exists c. split; [by left | done].
      * exists b. split; [by right | done].
    + intros [?|(b & Hb & ->)]; [by left; left|].
      apply elem_of_cons in Hb as [->|Hb]; [by left; right | right; eauto].
Qed.

Lemma merge_rels_elem t ms cs r : forall g,
  r ∈ g_rels (merge_rels t ms cs g) <->
  r ∈ g_rels g \/ exists a b, a ∈ ms /\ b ∈ cs /\ r = Rel a t b.
Proof.
  unfold merge_rels. induction ms as [|m ms IH]; intros g; simpl.
  - split; [by left|]. intros [?|(a & b & Ha & _)]; [done | inversion Ha].
  - rewrite IH, merge_rels_row_elem. split.
    + intros [[?|(b & Hb & ->)]|(a & b & Ha & Hb & ->)]; [by left | right | right].
      * exists m, b. split; [by left | done].
      * exists a, b. split; [by right | done].
    + intros [?|(a & b & Ha & Hb & ->)]; [by left; left|].
      apply elem_of_cons in Ha as [->|Ha]; [left; right; eauto | right; eauto 6].
Qed.

Lemma merge_rels_row_present t a cs : forall g,
  (forall b, b ∈ cs -> Rel a t b ∈ g_rels g) ->
  foldl (fun g b => merge_rel t a b g) g cs = g.
Proof.
  induction cs as [|c cs IH]; intros g H; simpl; [done|].
  rewrite merge_rel_present by (apply H; by left). apply IH.
  intros b Hb. apply H. by right.
Qed.

(** When every relationship is there already, nothing is written. *)
Lemma merge_rels_present t ms cs : forall g,
  (forall a b, a ∈ ms -> b ∈ cs -> Rel a t b ∈ g_rels g) ->
  merge_rels t ms cs g = g.
Proof.
  unfold merge_rels. induction ms as [|m ms IH]; intros g H; simpl; [done|].
  rewrite merge_rels_row_present by (intros; apply H; [by left | done]).
  apply IH. intros a b Ha Hb. apply H; [by right | done].
Qed.

Lemma match_nodes_merge_rels t ms cs g l v :
  match_nodes l v (merge_rels t ms cs g) = match_nodes l v g.
Proof. unfold match_nodes. by rewrite merge_rels_nodes. Qed.

(** ** The statements of the script *)

Lemma bind_ok {A B} (r : result A) (k : A -> result B) b :
  r ≫= k = Ok b <-> exists a, r = Ok a /\ k a = Ok b.
Proof.
  destruct r as [a|e]; simpl.
  - split; [eauto | by intros (? & [= <-] & ?)].
  - split; [done | by intros (? & ? & _)].
Qed.

Lemma truthy_not_none v : truthy v = true -> v <> VNone.
Proof. by intros H ->. Qed.

Lemma market_properties_keys md kvs :
  market_properties md = Ok kvs ->
  kvs.*1 = ["title"; "description"; "slug"; "ticker"; "volume"; "commentCount";
            "image"; "icon"; "resolutionSource"; "publishedAt"; "updatedAt";
            "startDate"; "endDate"; "createdAt"; "closedTime"].
Proof.
  unfold market_properties. intros H.
  repeat (apply bind_ok in H as (? & _ & H)).
  injection H as <-. reflexivity.
Qed.

Lemma market_properties_no_id md kvs : market_properties md = Ok kvs -> "id" ∉ kvs.*1.
Proof.
  intros H. rewrite (market_properties_keys _ _ H).
  intros Hin. repeat (apply elem_of_cons in Hin as [Hin|Hin]; [discriminate|]).
  inversion Hin.
Qed.

Lemma cypher_upsert_market_ok k kvs g :
  k <> VNone ->
  cypher_upsert_market k kvs g =
    Ok (update_nodes (set_props kvs) (merge_node Market k g).2 (merge_node Market k g).1).
Proof.
  intros Hk. unfold cypher_upsert_market.
  destruct (merge_node Market k g) as [g1 ms]. by destruct k.
Qed.

Lemma create_market_node_ok g md g' k :
  create_market_node g md = Ok (g', k) <->
  exists kvs, market_properties md = Ok kvs /\ k = market_id_of md /\ k <> VNone /\
    g' = update_nodes (set_props kvs) (merge_node Market k g).2 (merge_node Market k g).1.
Proof.
  unfold create_market_node. rewrite bind_ok. split.
  - intros (kvs & Hkvs & H). apply bind_ok in H as (g1 & Hg1 & [= <- <-]).
    exists kvs. split; [done|]. split; [done|].
    destruct (decide (market_id_of md = VNone)) as [Hn|Hn].
    + rewrite Hn in Hg1. discriminate.
    + split; [done|]. rewrite cypher_upsert_market_ok in Hg1 by done. congruence.
  - intros (kvs & Hkvs & -> & Hk & ->). exists kvs. split; [done|].
    by rewrite cypher_upsert_market_ok.
Qed.

Lemma create_market_node_fails g md :
  is_ok (market_properties md) = false \/ market_id_of md = VNone ->
  exists e, create_market_node g md = Raise e.
Proof.
  unfold create_market_node. intros [H|H].
  - destruct (market_properties md); [discriminate | eauto].
  - destruct (market_properties md); simpl; [|eauto]. rewrite H. simpl. eauto.
Qed.

(** The nodes the upsert's [SET] touches are Market nodes. *)
Lemma merge_node_market_labels k g i n :
  k <> VNone -> i ∈ (merge_node Market k g).2 ->
  g_nodes (merge_node Market k g).1 !! i = Some n -> n_label n = Market.
Proof.
  intros Hk Hi Hn. rewrite merge_node_matches in Hi by done.
  by eapply match_nodes_label.
Qed.

Section Upsert.
Variables (g : graph) (md : document) (g' : graph) (k : value).
Hypothesis Hok : create_market_node g md = Ok (g', k).

Lemma upsert_key : k = market_id_of md /\ k <> VNone.
Proof. apply create_market_node_ok in Hok as (? & ? & ? & ? & ?). done. Qed.

Lemma upsert_rels : g_rels g' = g_rels g.
Proof.
  apply create_market_node_ok in Hok as (kvs & Hkvs & -> & Hk & ->).
  by rewrite update_nodes_rels, merge_node_rels.
Qed.

Lemma upsert_match l v : match_nodes l v g' = match_nodes l v (merge_node Market k g).1.
Proof.
  apply create_market_node_ok in Hok as (kvs & Hkvs & -> & Hk & ->).
  apply match_nodes_update_nodes.
  - intros i n. by apply merge_node_market_labels.
  - by eapply market_properties_no_id.
Qed.

Lemma upsert_labels :
  n_label <$> g_nodes g' = n_label <$> g_nodes (merge_node Market k g).1.
Proof.
  apply create_market_node_ok in Hok as (kvs & Hkvs & -> & Hk & ->).
  apply update_nodes_labels.
Qed.

Lemma upsert_present : match_nodes Market k g' <> [].
Proof.
  rewrite upsert_match. destruct upsert_key as [_ Hk].
  rewrite <- merge_node_matches by done. apply merge_node_nonempty.
Qed.

Lemma upsert_extends : extends g g'.
Proof.
  destruct upsert_key as [_ Hk]. split.
  - intros l v H. rewrite upsert_match. by apply match_nodes_merge_node_keep.
  - intros r. by rewrite upsert_rels.
Qed.

Lemma upsert_same_shape : match_nodes Market k g <> [] -> same_shape g' g.
Proof.
  intros H. split; [|split].
  - rewrite upsert_labels. by rewrite merge_node_found.
  - intros l v. rewrite upsert_match. by rewrite merge_node_found.
  - apply upsert_rels.
Qed.
End Upsert.

Lemma extends_refl g : extends g g.
Proof. by split. Qed.

Lemma extends_trans g1 g2 g3 : extends g1 g2 -> extends g2 g3 -> extends g1 g3.
Proof.
  intros [Hm12 Hr12] [Hm23 Hr23]. split.
  - intros l v H. rewrite Hm23; rewrite Hm12; done.
  - auto.
Qed.

Lemma same_shape_refl g : same_shape g g.
Proof. by repeat split. Qed.

Lemma same_shape_trans g1 g2 g3 : same_shape g1 g2 -> same_shape g2 g3 -> same_shape g1 g3.
Proof.
  intros (Hl12 & Hm12 & Hr12) (Hl23 & Hm23 & Hr23).
  split; [congruence|]. split; [|congruence].
  intros l v. by rewrite Hm12.
Qed.

Lemma count_label_labels l g :
  count_label l g = length (filter (fun l' => l' = l) (n_label <$> g_nodes g)).
Proof.
  unfold count_label. induction (g_nodes g) as [|n ns IH]; simpl; [done|].
  rewrite !filter_cons. destruct (decide (n_label n = l)); simpl; by rewrite IH.
Qed.

Lemma same_shape_counts g g' :
  same_shape g g' ->
  (forall l, count_label l g = count_label l g') /\ count_rels g = count_rels g'.
Proof.
  intros (Hl & _ & Hr). split.
  - intros l. by rewrite !count_label_labels, Hl.
  - unfold count_rels. by rewrite Hr.
Qed.

(** ** The link statement *)

Section Link.
Variables (l : label) (t : rel_type) (k v : value).
Hypothesis Hv : v <> VNone.

Lemma cypher_link_absent g : match_nodes Market k g = [] -> cypher_link l t k v g = g.
Proof. unfold cypher_link. by intros ->. Qed.

Lemma cypher_link_eq g :
  match_nodes Market k g <> [] ->
  cypher_link l t k v g =
    merge_rels t (match_nodes Market k g) (merge_node l v g).2 (merge_node l v g).1.
Proof.
  unfold cypher_link. intros H.
  destruct (match_nodes Market k g) eqn:E; [done|].
  by destruct (merge_node l v g).
Qed.

Lemma cypher_link_extends g : extends g (cypher_link l t k v g).
Proof.
  destruct (decide (match_nodes Market k g = [])) as [Hnil|Hsome].
  - rewrite cypher_link_absent by done. apply extends_refl.
  - rewrite cypher_link_eq by done. split.
    + intros l' v' H. rewrite match_nodes_merge_rels.
      by apply match_nodes_merge_node_keep.
    + intros r Hr. apply merge_rels_elem. left. by rewrite merge_node_rels.
Qed.

Lemma cypher_link_linked g :
  match_nodes Market k g <> [] -> linked l t k v (cypher_link l t k v g).
Proof.
  intros Hsome. rewrite cypher_link_eq by done. split.
  - rewrite match_nodes_merge_rels, <- merge_node_matches by done.
    apply merge_node_nonempty.
  - intros a b. rewrite !match_nodes_merge_rels.
    rewrite (match_nodes_merge_node_keep l v Market k) by done.
    rewrite <- merge_node_matches by done. intros Ha Hb.
    apply merge_rels_elem. right. eauto.
Qed.

Lemma cypher_link_covered g : linked l t k v g -> cypher_link l t k v g = g.
Proof.
  intros [Hsome Hall].
  destruct (decide (match_nodes Market k g = [])) as [Hnil|Hm].
  - by apply cypher_link_absent.
  - rewrite cypher_link_eq by done. rewrite merge_node_found by done. simpl.
    by apply merge_rels_present.
Qed.

Lemma cypher_link_twice g :
  cypher_link l t k v (cypher_link l t k v g) = cypher_link l t k v g.
Proof.
  destruct (decide (match_nodes Market k g = [])) as [Hnil|Hm].
  - rewrite (cypher_link_absent g) by done. by apply cypher_link_absent.
  - apply cypher_link_covered. by apply cypher_link_linked.
Qed.
End Link.

Lemma linked_extends l t k v g g' :
  match_nodes Market k g <> [] -> extends g g' -> linked l t k v g -> linked l t k v g'.
Proof.
  intros Hk [Hm Hr] [Hsome Hall]. split.
  - by rewrite Hm.
  - intros a b. rewrite !Hm by done. auto.
Qed.

(** ** One document *)

Lemma create_category_relationship_eq g k c :
  truthy c = true ->
  create_category_relationship g k c = cypher_link Category BELONGS_TO k c g.
Proof. unfold create_category_relationship. by intros ->. Qed.

Lemma create_series_relationship_eq g k c :
  truthy c = true ->
  create_series_relationship g k c = cypher_link Series IN_SERIES k c g.
Proof. unfold create_series_relationship. by intros ->. Qed.

Lemma create_category_relationship_extends g k c :
  extends g (create_category_relationship g k c).
Proof.
  unfold create_category_relationship. destruct (truthy c) eqn:Hc; simpl.
  - apply cypher_link_extends. by apply truthy_not_none.
  - apply extends_refl.
Qed.

Lemma create_series_relationship_extends g k c :
  extends g (create_series_relationship g k c).
Proof.
  unfold create_series_relationship. destruct (truthy c) eqn:Hc; simpl.
  - apply cypher_link_extends. by apply truthy_not_none.
  - apply extends_refl.
Qed.

(** The graph after a document whose upsert succeeds. *)
Definition linked_graph (g1 : graph) (k : value) (md : document) : graph :=
  let category := dict_get_none md "category" in
  let g2 := if truthy category then create_category_relationship g1 k category else g1 in
  let series_slug := dict_get_none md "seriesSlug" in
  if truthy series_slug then create_series_relationship g2 k series_slug else g2.

Lemma document_step_ok g md g1 k :
  create_market_node g md = Ok (g1, k) -> document_step g md = linked_graph g1 k md.
Proof. unfold document_step, process_document. by intros ->. Qed.

Lemma document_step_raise g md e :
  create_market_node g md = Raise e -> document_step g md = g.
Proof. unfold document_step, process_document. by intros ->. Qed.

Lemma process_document_graph g c md :
  (process_document (g, c) md).1 = document_step g md.
Proof.
  unfold document_step, process_document.
  by destruct (create_market_node g md) as [[g1 k]|e].
Qed.

Lemma foldl_process_document_graph ds : forall g c,
  (foldl process_document (g, c) ds).1 = foldl document_step g ds.
Proof.
  induction ds as [|d ds IH]; intros g c; cbn [foldl]; [done|].
  destruct (process_document (g, c) d) as [g' c'] eqn:E.
  rewrite IH. f_equal. by rewrite <- (process_document_graph g c), E.
Qed.

Lemma linked_graph_extends g1 k md : extends g1 (linked_graph g1 k md).
Proof.
  unfold linked_graph.
  destruct (truthy (dict_get_none md "category"));
    destruct (truthy (dict_get_none md "seriesSlug"));
    eauto using extends_trans, extends_refl,
      create_category_relationship_extends, create_series_relationship_extends.
Qed.

Lemma document_step_extends g md : extends g (document_step g md).
Proof.
  destruct (create_market_node g md) as [[g1 k]|e] eqn:E.
  - rewrite (document_step_ok _ _ _ _ E).
    eapply extends_trans; [by eapply upsert_extends | apply linked_graph_extends].
  - rewrite (document_step_raise _ _ _ E). apply extends_refl.
Qed.

Lemma foldl_document_step_extends ds : forall g, extends g (foldl document_step g ds).
Proof.
  induction ds as [|d ds IH]; intros g; simpl; [apply extends_refl|].
  eapply extends_trans; [apply document_step_extends | apply IH].
Qed.

Lemma covered_extends md g g' : extends g g' -> covered md g -> covered md g'.
Proof.
  intros Hext Hcov Hok Hk. destruct (Hcov Hok Hk) as (Hm & Hc & Hs).
  split; [|split].
  - destruct Hext as [He _]. by rewrite He.
  - intros Ht. eapply linked_extends; eauto.
  - intros Ht. eapply linked_extends; eauto.
Qed.

(** Importing a document leaves the graph holding all the document asks. *)
Lemma document_step_covers g md : covered md (document_step g md).
Proof.
  intros Hok Hk.
  destruct (create_market_node g md) as [[g1 k]|e] eqn:E.
  2:{ destruct (market_properties md) as [kvs|] eqn:Hkvs; [|done].
      unfold create_market_node in E. rewrite Hkvs in E. simpl in E.
      rewrite cypher_upsert_market_ok in E by done. done. }
  rewrite (document_step_ok _ _ _ _ E).
  destruct (upsert_key _ _ _ _ E) as [Hkey Hnn]. rewrite <- Hkey.
  pose proof (upsert_present _ _ _ _ E) as Hpres.
  unfold linked_graph.
  set (c := dict_get_none md "category"). set (s := dict_get_none md "seriesSlug").
  assert (Hg2 : extends g1 (if truthy c then create_category_relationship g1 k c else g1)).
  { destruct (truthy c); [apply create_category_relationship_extends | apply extends_refl]. }
  assert (Hpres2 : match_nodes Market k
            (if truthy c then create_category_relationship g1 k c else g1) <> []).
  { destruct Hg2 as [He _]. by rewrite He. }
  set (g2 := if truthy c then create_category_relationship g1 k c else g1) in *.
  assert (Hg3 : extends g2 (if truthy s then create_series_relationship g2 k s else g2)).
  { destruct (truthy s); [apply create_series_relationship_extends | apply extends_refl]. }
  split; [|split].
  - destruct Hg3 as [He _]. by rewrite He.
  - intros Hc. eapply linked_extends; [exact Hpres2 | exact Hg3 |].
    subst g2. rewrite Hc. rewrite create_category_relationship_eq by done.
    apply cypher_link_linked; [by apply truthy_not_none | done].
  - intros Hs. rewrite Hs. rewrite create_series_relationship_eq by done.
    apply cypher_link_linked; [by apply truthy_not_none | done].
Qed.

(** Importing a document the graph covers changes no count. *)
Lemma document_step_covered g md : covered md g -> same_shape (document_step g md) g.
Proof.
  intros Hcov.
  destruct (create_market_node g md) as [[g1 k]|e] eqn:E.
  2:{ rewrite (document_step_raise _ _ _ E). apply same_shape_refl. }
  rewrite (document_step_ok _ _ _ _ E).
  destruct (upsert_key _ _ _ _ E) as [Hkey Hnn].
  pose proof E as E'. apply create_market_node_ok in E' as (kvs & Hkvs & _).
  destruct Hcov as (Hm & Hc & Hs); [by rewrite Hkvs | by rewrite <- Hkey |].
  rewrite <- Hkey in *.
  pose proof (upsert_same_shape _ _ _ _ E Hm) as Hshape.
  pose proof (upsert_extends _ _ _ _ E) as Hext.
  assert (Hm1 : match_nodes Market k g1 <> []) by (by eapply upsert_present).
  unfold linked_graph.
  set (c := dict_get_none md "category") in *.
  set (s := dict_get_none md "seriesSlug") in *.
  assert (H2 : (if truthy c then create_category_relationship g1 k c else g1) = g1).
  { destruct (truthy c) eqn:Ht; [|done].
    rewrite create_category_relationship_eq by done.
    apply cypher_link_covered.
    eapply linked_extends; [exact Hm | exact Hext | by apply Hc]. }
  rewrite H2.
  assert (H3 : (if truthy s then create_series_relationship g1 k s else g1) = g1).
  { destruct (truthy s) eqn:Ht; [|done].
    rewrite create_series_relationship_eq by done.
    apply cypher_link_covered.
    eapply linked_extends; [exact Hm | exact Hext | by apply Hs]. }
  by rewrite H3.
Qed.

(** ** A whole run *)

Lemma foldl_document_step_covers ds : forall g,
  Forall (fun md => covered md (foldl document_step g ds)) ds.
Proof.
  induction ds as [|d ds IH]; intros g; simpl; constructor.
  - eapply covered_extends; [apply foldl_document_step_extends|].
    apply document_step_covers.
  - apply IH.
Qed.

Lemma foldl_document_step_covered ds : forall g,
  Forall (fun md => covered md g) ds -> same_shape (foldl document_step g ds) g.
Proof.
  induction ds as [|d ds IH]; intros g H; simpl; [apply same_shape_refl|].
  inversion H as [|? ? Hd Hds]; subst.
  eapply same_shape_trans; [apply IH | by apply document_step_covered].
  eapply Forall_impl; [exact Hds|]. intros md Hmd.
  eapply covered_extends; [apply document_step_extends | done].
Qed.

Lemma foldl_document_step_twice ds g :
  same_shape (foldl document_step (foldl document_step g ds) ds)
             (foldl document_step g ds).
Proof. apply foldl_document_step_covered, foldl_document_step_covers. Qed.

(** ** Batches *)

(** Batching changes the progress lines, not the order of the work. *)
Lemma batch_loop_foldl bs total cursor : forall batch st out,
  let '(rest, st', _) := batch_loop bs total cursor batch st out in
  foldl process_document st' rest = foldl process_document st (batch ++ cursor).
Proof.
  induction cursor as [|doc cursor IH]; intros batch st out; simpl.
  - by rewrite app_nil_r.
  - destruct (bs <=? Z.of_nat (length (batch ++ [doc]))).
    + specialize (IH [] (foldl process_document st (batch ++ [doc]))
                     (out ++ [Progress (processed (foldl process_document st (batch ++ [doc])).2) total])).
      destruct (batch_loop bs total cursor [] _ _) as [[rest st'] out'].
      rewrite IH. simpl. by rewrite <- foldl_app, <- app_assoc.
    + specialize (IH (batch ++ [doc]) st out).
      destruct (batch_loop bs total cursor (batch ++ [doc]) st out) as [[rest st'] out'].
      rewrite IH. by rewrite <- app_assoc.
Qed.

Lemma import_markets_to_neo4j_graph docs g bs :
  (import_markets_to_neo4j docs g bs).1 = foldl document_step g docs.
Proof.
  unfold import_markets_to_neo4j. destruct docs as [|d docs]; [done|].
  cbn [length Nat.eqb].
  pose proof (batch_loop_foldl bs (S (length docs)) (d :: docs) [] (g, no_stats)
                [ConstraintsCreated]) as H.
  destruct (batch_loop _ _ _ _ _ _) as [[rest st] out].
  rewrite app_nil_l in H.
  destruct (foldl process_document st rest) as [g' c] eqn:E.
  change (g' = foldl document_step g (d :: docs)).
  by rewrite <- (foldl_process_document_graph (d :: docs) g no_stats), <- H.
Qed.

(** ** Counting *)

Lemma count_label_app l ns ns' rs rs' :
  count_label l (Graph (ns ++ ns') rs) =
  (count_label l (Graph ns rs') + count_label l (Graph ns' rs'))%nat.
Proof. unfold count_label. simpl. by rewrite filter_app, length_app. Qed.

Lemma count_label_merge_node l l0 v g :
  count_label l (merge_node l0 v g).1 =
  (count_label l g +
   if bool_decide (l0 = l /\ match_nodes l0 v g = []) then 1 else 0)%nat.
Proof.
  destruct (decide (match_nodes l0 v g = [])) as [Hnil|Hsome].
  - rewrite merge_node_fresh by done. simpl.
    rewrite (count_label_app l _ _ _ (g_rels g)). destruct g as [ns rs]. simpl.
    f_equal. unfold count_label. simpl. rewrite filter_cons, filter_nil. simpl.
    destruct (decide (l0 = l)) as [->|Hne].
    + by rewrite bool_decide_eq_true_2.
    + by rewrite bool_decide_eq_false_2 by (intros [? _]; done).
  - rewrite merge_node_found by done. simpl.
    rewrite bool_decide_eq_false_2 by (intros [_ ?]; done). lia.
Qed.

Lemma count_label_merge_rels l t ms cs g :
  count_label l (merge_rels t ms cs g) = count_label l g.
Proof. unfold count_label. by rewrite merge_rels_nodes. Qed.

Lemma count_label_upsert l g md g' k :
  create_market_node g md = Ok (g', k) ->
  count_label l g' =
  (count_label l g + if bool_decide (Market = l /\ match_nodes Market k g = []) then 1 else 0)%nat.
Proof.
  intros E. rewrite <- count_label_merge_node.
  rewrite !count_label_labels. by rewrite (upsert_labels _ _ _ _ E).
Qed.

Lemma count_label_link l l0 t k v g :
  v <> VNone ->
  count_label l (cypher_link l0 t k v g) =
  (count_label l g +
   if bool_decide (l0 = l /\ match_nodes Market k g <> [] /\ match_nodes l0 v g = [])
   then 1 else 0)%nat.
Proof.
  intros Hv. destruct (decide (match_nodes Market k g = [])) as [Hnil|Hsome].
  - rewrite cypher_link_absent by done.
    rewrite bool_decide_eq_false_2 by (intros (_ & ? & _); done). lia.
  - rewrite cypher_link_eq by done.
    rewrite count_label_merge_rels, count_label_merge_node. f_equal.
    erewrite bool_decide_ext; [done|]. tauto.
Qed.

Lemma count_type_merge_rel t t' a b g :
  count_type t' (merge_rel t a b g) =
  (count_type t' g + if bool_decide (t = t' /\ Rel a t b ∉ g_rels g) then 1 else 0)%nat.
Proof.
  unfold merge_rel, count_type.
  destruct (decide (Rel a t b ∈ g_rels g)) as [Hin|Hout].
  - rewrite bool_decide_eq_true_2 by done.
    rewrite bool_decide_eq_false_2 by (intros [_ ?]; done). lia.
  - rewrite bool_decide_eq_false_2 by done. simpl.
    rewrite filter_app, length_app, filter_cons, filter_nil. simpl.
    destruct (decide (t = t')) as [->|Hne].
    + by rewrite bool_decide_eq_true_2.
    + by rewrite bool_decide_eq_false_2 by (intros [? _]; done).
Qed.

Lemma count_type_merge_rels_other t t' ms cs : forall g,
  t <> t' -> count_type t' (merge_rels t ms cs g) = count_type t' g.
Proof.
  intros g Hne. unfold merge_rels. revert g.
  induction ms as [|m ms IH]; intros g; simpl; [done|].
  rewrite IH. clear IH. revert g.
  induction cs as [|c cs IH]; intros g; simpl; [done|].
  rewrite IH, count_type_merge_rel.
  rewrite bool_decide_eq_false_2 by (intros [? _]; done). lia.
Qed.

Lemma count_type_link_other l t t' k v g :
  t <> t' -> count_type t' (cypher_link l t k v g) = count_type t' g.
Proof.
  intros Hne. unfold cypher_link. destruct (match_nodes Market k g); [done|].
  destruct (merge_node l v g) as [g1 cs] eqn:E.
  rewrite count_type_merge_rels_other by done.
  unfold count_type. by rewrite <- (merge_node_rels l v g), E.
Qed.

(** ** Invariants of the store *)

Lemma well_formed_empty : well_formed empty_graph.
Proof. intros r Hr. inversion Hr. Qed.

Lemma unique_keys_empty : unique_keys empty_graph.
Proof. intros l v. unfold match_nodes. simpl. lia. Qed.

Lemma well_formed_no_nodes g : well_formed g -> g_nodes g = [] -> g = empty_graph.
Proof.
  intros Hwf Hn. destruct g as [ns rs]. simpl in *. subst ns.
  destruct rs as [|r rs]; [done|].
  destruct (Hwf r (list_elem_of_here _ _)) as [H _]. simpl in H. lia.
Qed.

Lemma well_formed_merge_node l v g : well_formed g -> well_formed (merge_node l v g).1.
Proof.
  intros Hwf r. rewrite merge_node_rels. intros Hr. destruct (Hwf r Hr) as [Hs Hd].
  unfold merge_node. destruct (match_nodes l v g); simpl; [|done].
  rewrite length_app. lia.
Qed.

Lemma well_formed_update_nodes f ms g : well_formed g -> well_formed (update_nodes f ms g).
Proof. intros Hwf r Hr. rewrite update_nodes_length. by apply Hwf. Qed.

Lemma well_formed_merge_rels t ms cs g :
  well_formed g ->
  (forall a, a ∈ ms -> (a < length (g_nodes g))%nat) ->
  (forall b, b ∈ cs -> (b < length (g_nodes g))%nat) ->
  well_formed (merge_rels t ms cs g).
Proof.
  intros Hwf Hms Hcs r. rewrite merge_rels_nodes, merge_rels_elem.
  intros [Hr|(a & b & Ha & Hb & ->)]; [by apply Hwf|]. simpl. auto.
Qed.

Lemma well_formed_link l t k v g :
  v <> VNone -> well_formed g -> well_formed (cypher_link l t k v g).
Proof.
  intros Hv Hwf. destruct (decide (match_nodes Market k g = [])) as [Hnil|Hsome].
  - by rewrite cypher_link_absent.
  - rewrite cypher_link_eq by done.
    apply well_formed_merge_rels; [by apply well_formed_merge_node | |].
    + intros a Ha. apply (match_nodes_lt Market k).
      by rewrite match_nodes_merge_node_keep.
    + intros b Hb. rewrite merge_node_matches in Hb by done.
      by eapply match_nodes_lt.
Qed.

Lemma unique_keys_merge_node l v g :
  v <> VNone -> unique_keys g -> unique_keys (merge_node l v g).1.
Proof.
  intros Hv Hu l' v'. rewrite match_nodes_merge_node by done.
  destruct (bool_decide _); [simpl; lia | apply Hu].
Qed.

Lemma unique_keys_link l t k v g :
  v <> VNone -> unique_keys g -> unique_keys (cypher_link l t k v g).
Proof.
  intros Hv Hu. destruct (decide (match_nodes Market k g = [])) as [Hnil|Hsome].
  - by rewrite cypher_link_absent.
  - rewrite cypher_link_eq by done. intros l' v'.
    rewrite match_nodes_merge_rels. by apply unique_keys_merge_node.
Qed.

Lemma well_formed_upsert g md g' k :
  create_market_node g md = Ok (g', k) -> well_formed g -> well_formed g'.
Proof.
  intros E Hwf. apply create_market_node_ok in E as (kvs & _ & _ & _ & ->).
  by apply well_formed_update_nodes, well_formed_merge_node.
Qed.

Lemma unique_keys_upsert g md g' k :
  create_market_node g md = Ok (g', k) -> unique_keys g -> unique_keys g'.
Proof.
  intros E Hu l v. rewrite (upsert_match _ _ _ _ E).
  apply unique_keys_merge_node; [|done]. by destruct (upsert_key _ _ _ _ E).
Qed.

Lemma linked_graph_invariants g1 k md :
  well_formed g1 /\ unique_keys g1 ->
  well_formed (linked_graph g1 k md) /\ unique_keys (linked_graph g1 k md).
Proof.
  intros [Hwf Hu]. unfold linked_graph.
  set (c := dict_get_none md "category"). set (s := dict_get_none md "seriesSlug").
  assert (H2 : well_formed (if truthy c then create_category_relationship g1 k c else g1)
            /\ unique_keys (if truthy c then create_category_relationship g1 k c else g1)).
  { destruct (truthy c) eqn:Hc; [|done].
    rewrite create_category_relationship_eq by done.
    split; [apply well_formed_link | apply unique_keys_link];
      auto using truthy_not_none. }
  destruct H2 as [Hwf2 Hu2].
  destruct (truthy s) eqn:Hs; [|done].
  rewrite create_series_relationship_eq by done.
  split; [apply well_formed_link | apply unique_keys_link]; auto using truthy_not_none.
Qed.

Lemma document_step_invariants g md :
  well_formed g /\ unique_keys g ->
  well_formed (document_step g md) /\ unique_keys (document_step g md).
Proof.
  intros [Hwf Hu]. destruct (create_market_node g md) as [[g1 k]|e] eqn:E.
  - rewrite (document_step_ok _ _ _ _ E). apply linked_graph_invariants.
    split; [by eapply well_formed_upsert | by eapply unique_keys_upsert].
  - by rewrite (document_step_raise _ _ _ E).
Qed.

Lemma foldl_document_step_invariants ds : forall g,
  well_formed g /\ unique_keys g ->
  well_formed (foldl document_step g ds) /\ unique_keys (foldl document_step g ds).
Proof.
  induction ds as [|d ds IH]; intros g H; simpl; [done|].
  by apply IH, document_step_invariants.
Qed.

(** ** Counting after one document *)

Lemma importable_true md :
  importable md = true <->
  is_ok (market_properties md) = true /\ market_id_of md <> VNone.
Proof.
  unfold importable. rewrite andb_true_iff, negb_true_iff. split.
  - intros [H1 H2]. split; [done|]. intros Hk. rewrite Hk in H2. done.
  - intros [H1 H2]. split; [done|]. by apply value_eqb_neq.
Qed.

Lemma create_market_node_importable g md :
  importable md = true -> exists g1, create_market_node g md = Ok (g1, market_id_of md).
Proof.
  rewrite importable_true. intros [Hok Hk].
  destruct (market_properties md) as [kvs|] eqn:Hkvs; [|done].
  eexists. apply create_market_node_ok. eauto.
Qed.

Lemma create_market_node_not_importable g md :
  importable md = false -> exists e, create_market_node g md = Raise e.
Proof.
  intros H. apply create_market_node_fails.
  unfold importable in H. apply andb_false_iff in H as [H|H]; [by left | right].
  apply negb_false_iff in H. by apply value_eqb_eq.
Qed.

Lemma create_market_node_is_ok g md : is_ok (create_market_node g md) = importable md.
Proof.
  destruct (importable md) eqn:H.
  - destruct (create_market_node_importable g md H) as [g1 ->]. done.
  - destruct (create_market_node_not_importable g md H) as [e ->]. done.
Qed.

Lemma match_nodes_link_other l t k v l' v' g :
  v <> VNone -> l <> l' ->
  match_nodes l' v' (cypher_link l t k v g) = match_nodes l' v' g.
Proof.
  intros Hv Hne. destruct (decide (match_nodes Market k g = [])) as [Hnil|Hsome].
  - by rewrite cypher_link_absent.
  - rewrite cypher_link_eq, match_nodes_merge_rels, match_nodes_merge_node by done.
    by rewrite bool_decide_eq_false_2 by (intros (? & _); done).
Qed.

Lemma match_nodes_linked_graph_market g1 k md k' :
  match_nodes Market k' (linked_graph g1 k md) = match_nodes Market k' g1.
Proof.
  unfold linked_graph.
  destruct (truthy (dict_get_none md "category")) eqn:Hc;
    destruct (truthy (dict_get_none md "seriesSlug")) eqn:Hs;
    rewrite ?create_series_relationship_eq, ?create_category_relationship_eq by done;
    rewrite ?match_nodes_link_other by (auto using truthy_not_none); done.
Qed.

Lemma match_nodes_market_step g md k' :
  importable md = true ->
  match_nodes Market k' (document_step g md) =
    if bool_decide (market_id_of md = k' /\ match_nodes Market k' g = [])
    then [length (g_nodes g)] else match_nodes Market k' g.
Proof.
  intros Himp. destruct (create_market_node_importable g md Himp) as [g1 E].
  rewrite (document_step_ok _ _ _ _ E), match_nodes_linked_graph_market.
  rewrite (upsert_match _ _ _ _ E).
  destruct (upsert_key _ _ _ _ E) as [_ Hk].
  rewrite match_nodes_merge_node by done.
  destruct (decide (market_id_of md = k')) as [<-|Hne].
  - erewrite bool_decide_ext; [done|]. tauto.
  - rewrite !bool_decide_eq_false_2; [done | tauto | tauto].
Qed.

Lemma document_step_not_importable g md : importable md = false -> document_step g md = g.
Proof.
  intros H. destruct (create_market_node_not_importable g md H) as [e E].
  by eapply document_step_raise.
Qed.

Lemma count_label_linked_graph_market g1 k md :
  count_label Market (linked_graph g1 k md) = count_label Market g1.
Proof.
  unfold linked_graph.
  destruct (truthy (dict_get_none md "category")) eqn:Hc;
    destruct (truthy (dict_get_none md "seriesSlug")) eqn:Hs;
    rewrite ?create_series_relationship_eq, ?create_category_relationship_eq by done;
    rewrite ?count_label_link by (auto using truthy_not_none);
    rewrite ?bool_decide_eq_false_2 by (intros (? & _); done); lia.
Qed.

(** A document adds a Market node exactly when none carries its key. *)
Lemma count_market_step g md :
  importable md = true ->
  count_label Market (document_step g md) =
  (count_label Market g +
   if bool_decide (match_nodes Market (market_id_of md) g = []) then 1 else 0)%nat.
Proof.
  intros Himp. destruct (create_market_node_importable g md Himp) as [g1 E].
  rewrite (document_step_ok _ _ _ _ E), count_label_linked_graph_market.
  rewrite (count_label_upsert _ _ _ _ _ E). f_equal.
  erewrite bool_decide_ext; [done|]. tauto.
Qed.

(** A document adds a Category node exactly when it names a category no
    node carries. *)
Lemma count_category_step g md :
  importable md = true ->
  count_label Category (document_step g md) =
  (count_label Category g +
   if truthy (dict_get_none md "category") &&
      bool_decide (match_nodes Category (dict_get_none md "category") g = [])
   then 1 else 0)%nat.
Proof.
  intros Himp. destruct (create_market_node_importable g md Himp) as [g1 E].
  rewrite (document_step_ok _ _ _ _ E).
  pose proof (upsert_present _ _ _ _ E) as Hpres.
  pose proof (upsert_key _ _ _ _ E) as [_ Hk].
  assert (Hcat : forall v, match_nodes Category v g1 = match_nodes Category v g).
  { intros v. rewrite (upsert_match _ _ _ _ E), match_nodes_merge_node by done.
    by rewrite bool_decide_eq_false_2 by (intros (? & _); done). }
  assert (Hcount : count_label Category g1 = count_label Category g).
  { rewrite (count_label_upsert _ _ _ _ _ E).
    rewrite bool_decide_eq_false_2 by (intros (? & _); done). lia. }
  unfold linked_graph.
  set (c := dict_get_none md "category"). set (s := dict_get_none md "seriesSlug").
  assert (H2 : count_label Category
                 (if truthy c
                  then create_category_relationship g1 (market_id_of md) c else g1) =
               (count_label Category g +
                if truthy c && bool_decide (match_nodes Category c g = []) then 1 else 0)%nat).
  { destruct (truthy c) eqn:Hc; simpl; [|lia].
    rewrite create_category_relationship_eq, count_label_link
      by auto using truthy_not_none.
    rewrite Hcount, Hcat. f_equal. erewrite bool_decide_ext; [done|]. tauto. }
  destruct (truthy s) eqn:Hs; [|done].
  rewrite create_series_relationship_eq, count_label_link by auto using truthy_not_none.
  rewrite bool_decide_eq_false_2 by (intros (? & _); done). rewrite H2. lia.
Qed.

Lemma singleton_of_unique (ms : list nat) :
  ms <> [] -> (length ms <= 1)%nat -> exists a, ms = [a].
Proof.
  destruct ms as [|a [|b ms]]; simpl; intros Hne Hlen; [done | eauto | lia].
Qed.

(** A document whose Market node is new adds one [BELONGS_TO] relationship
    when it names a category, and none otherwise. *)
Lemma count_belongs_to_step_new g md :
  well_formed g -> unique_keys g -> importable md = true ->
  match_nodes Market (market_id_of md) g = [] ->
  count_type BELONGS_TO (document_step g md) =
  (count_type BELONGS_TO g +
   if truthy (dict_get_none md "category") then 1 else 0)%nat.
Proof.
  intros Hwf Hu Himp Hnew.
  destruct (create_market_node_importable g md Himp) as [g1 E].
  rewrite (document_step_ok _ _ _ _ E).
  pose proof (upsert_key _ _ _ _ E) as [_ Hk].
  pose proof (upsert_rels _ _ _ _ E) as Hrels.
  pose proof (unique_keys_upsert _ _ _ _ E Hu) as Hu1.
  assert (Hm : match_nodes Market (market_id_of md) g1 = [length (g_nodes g)]).
  { rewrite (upsert_match _ _ _ _ E), match_nodes_merge_node by done.
    by rewrite bool_decide_eq_true_2. }
  unfold linked_graph.
  set (c := dict_get_none md "category"). set (s := dict_get_none md "seriesSlug").
  assert (H2 : count_type BELONGS_TO
                 (if truthy c
                  then create_category_relationship g1 (market_id_of md) c else g1) =
               (count_type BELONGS_TO g + if truthy c then 1 else 0)%nat).
  { destruct (truthy c) eqn:Hc.
    2:{ unfold count_type. rewrite Hrels. lia. }
    pose proof (truthy_not_none _ Hc) as Hcn.
    rewrite create_category_relationship_eq by done.
    rewrite cypher_link_eq by (by rewrite Hm). rewrite Hm.
    destruct (singleton_of_unique (merge_node Category c g1).2) as [b Hb].
    { apply merge_node_nonempty. }
    { rewrite merge_node_matches by done. by apply unique_keys_merge_node. }
    rewrite Hb. unfold merge_rels. simpl. rewrite count_type_merge_rel.
    rewrite merge_node_rels, Hrels.
    rewrite bool_decide_eq_true_2.
    - unfold count_type. by rewrite merge_node_rels, Hrels.
    - split; [done|]. intros Hin. destruct (Hwf _ Hin) as [Hsrc _]. simpl in Hsrc. lia. }
  destruct (truthy s) eqn:Hs; [|done].
  rewrite create_series_relationship_eq by done.
  by rewrite count_type_link_other.
Qed.

(** ** Counters *)

Lemma process_document_importable g c md :
  importable md = true ->
  process_document (g, c) md =
    (document_step g md,
     Stats (S (processed c)) (S (markets_created c))
       (if truthy (dict_get_none md "category")
        then S (categories_created c) else categories_created c)
       (if truthy (dict_get_none md "seriesSlug")
        then S (series_created c) else series_created c)).
Proof.
  intros Himp. rewrite <- (process_document_graph g c md).
  destruct (create_market_node_importable g md Himp) as [g1 E].
  unfold process_document. by rewrite E.
Qed.

Lemma process_document_not_importable g c md :
  importable md = false -> process_document (g, c) md = (g, c).
Proof.
  intros H. destruct (create_market_node_not_importable g md H) as [e E].
  unfold process_document. by rewrite E.
Qed.

(** The [processed] counter counts the documents that reached the store. *)
Lemma foldl_process_document_processed ds : forall g c,
  processed (foldl process_document (g, c) ds).2 =
  (processed c + length (filter (fun md => importable md = true) ds))%nat.
Proof.
  induction ds as [|d ds IH]; intros g c; cbn [foldl]; [simpl; lia|].
  rewrite filter_cons. destruct (importable d) eqn:Himp.
  - rewrite process_document_importable by done. rewrite IH.
    rewrite decide_True by done. simpl. lia.
  - rewrite process_document_not_importable by done. rewrite IH.
    by rewrite decide_False by done.
Qed.

Lemma foldl_process_document_markets_created ds : forall g c,
  markets_created (foldl process_document (g, c) ds).2 =
  (markets_created c + length (filter (fun md => importable md = true) ds))%nat.
Proof.
  induction ds as [|d ds IH]; intros g c; cbn [foldl]; [simpl; lia|].
  rewrite filter_cons. destruct (importable d) eqn:Himp.
  - rewrite process_document_importable by done. rewrite IH.
    rewrite decide_True by done. simpl. lia.
  - rewrite process_document_not_importable by done. rewrite IH.
    by rewrite decide_False by done.
Qed.

(** ** The output of a run *)

Lemma batch_loop_out bs total cursor : forall batch st out,
  exists ps, (batch_loop bs total cursor batch st out).2 = out ++ ps /\
             forallb is_progress ps = true.
Proof.
  induction cursor as [|doc cursor IH]; intros batch st out; simpl.
  - exists []. by rewrite app_nil_r.
  - destruct (bs <=? Z.of_nat (length (batch ++ [doc]))).
    + destruct (IH [] (foldl process_document st (batch ++ [doc]))
                  (out ++ [Progress (processed (foldl process_document st (batch ++ [doc])).2) total]))
        as (ps & Hps & Hall).
      eexists (_ :: ps). rewrite Hps, <- app_assoc. split; [done|]. done.
    + apply IH.
Qed.

Lemma import_markets_to_neo4j_empty g bs :
  import_markets_to_neo4j [] g bs = (g, [NoDocuments]).
Proof. done. Qed.

(** A run over a non-empty source ends with the summary: the counts the
    store reports and the counters of the loop. *)
Lemma import_markets_to_neo4j_out docs g bs :
  docs <> [] ->
  exists ps,
    forallb is_progress ps = true /\
    import_markets_to_neo4j docs g bs =
      let '(g', c) := foldl process_document (g, no_stats) docs in
      (g', ConstraintsCreated :: ps ++
           [Summary (count_label Market g') (count_label Category g')
              (count_label Series g') (count_rels g') c (length docs)]).
Proof.
  intros Hne. unfold import_markets_to_neo4j.
  destruct docs as [|d docs]; [done|]. cbn [length Nat.eqb].
  pose proof (batch_loop_foldl bs (S (length docs)) (d :: docs) [] (g, no_stats)
                [ConstraintsCreated]) as H.
  destruct (batch_loop_out bs (S (length docs)) (d :: docs) [] (g, no_stats)
              [ConstraintsCreated]) as (ps & Hps & Hall).
  destruct (batch_loop _ _ _ _ _ _) as [[rest st] out]. simpl in Hps. subst out.
  rewrite app_nil_l in H. rewrite H.
  exists ps. split; [done|].
  by destruct (foldl process_document (g, no_stats) (d :: docs)) as [g' c].
Qed.

Lemma summary_of_snoc out m c s r counters total :
  summary_of (out ++ [Summary m c s r counters total]) =
  Some (Summary m c s r counters total).
Proof. unfold summary_of. by rewrite last_snoc. Qed.

(** ** Connecting *)

Lemma sleep_ok d : 0 <= d <= 9223372036 -> sleep d = Ok (Slept d).
Proof.
  intros Hd. unfold sleep.
  replace (d <? -9223372036) with false by lia.
  replace (9223372036 <? d) with false by lia.
  by replace (d <? 0) with false by lia.
Qed.

Lemma sleep_slept d e : sleep d = Ok e -> e = Slept d /\ 0 <= d <= 9223372036.
Proof.
  unfold sleep. destruct (d <? -9223372036) eqn:H1; [done|].
  destruct (9223372036 <? d) eqn:H2; [done|]. simpl.
  destruct (d <? 0) eqn:H3; [done|]. intros [= <-]. split; [done|]. lia.
Qed.



Lemma connect_neo4j_loop_spec answers max_retries retry_delay : forall left attempt ok out,
  attempt + Z.of_nat left = max_retries + 1 ->
  connect_neo4j_loop answers max_retries retry_delay attempt left = Ok (ok, out) ->
  out = replicate (length out) (Slept retry_delay) /\
  (length out < left \/ left = 0)%nat /\
  (forall i, attempt <= i < attempt + Z.of_nat (length out) -> answers i = false) /\
  (ok = true -> answers (attempt + Z.of_nat (length out)) = true) /\
  (ok = false -> forall i, attempt <= i <= max_retries -> answers i = false) /\
  (ok = false -> (0 < left)%nat -> Z.of_nat (length out) = Z.of_nat left - 1).
Proof.
  induction left as [|left IH]; intros attempt ok out Hsum E; simpl in E.
  - injection E as <- <-. simpl.
    split_and!; [done | by right | intros; lia | done | intros; lia | intros; lia].
  - destruct (answers attempt) eqn:Ha.
    + injection E as <- <-. simpl.
      split_and!; [done | left; lia | intros; lia | | done | done].
      intros _. by rewrite Z.add_0_r.
    + destruct (attempt <? max_retries) eqn:Hlt.
      * apply Z.ltb_lt in Hlt.
        destruct (sleep retry_delay) as [e|] eqn:Hs; [|done]. simpl in E.
        apply sleep_slept in Hs as [-> _].
        destruct (connect_neo4j_loop answers max_retries retry_delay (attempt + 1) left)
          as [[ok' out']|] eqn:E'; [|done].
        simpl in E. injection E as <- <-.
        destruct (IH (attempt + 1) ok' out') as (Hrep & Hlen & Hfalse & Htrue & Hnone & Hall);
          [lia | done |].
        simpl. split_and!.
        -- by rewrite <- Hrep.
        -- left. lia.
        -- intros i Hi. destruct (decide (i = attempt)) as [->|Hne]; [done|].
           apply Hfalse. lia.
        -- intros Hok. replace (attempt + Z.of_nat (S (length out')))
             with (attempt + 1 + Z.of_nat (length out')) by lia. auto.
        -- intros Hok i Hi. destruct (decide (i = attempt)) as [->|Hne]; [done|].
           apply Hnone; [done | lia].
        -- intros Hok _. rewrite Nat2Z.inj_succ, Hall by (done || lia). lia.
      * apply Z.ltb_ge in Hlt. injection E as <- <-. simpl.
        split_and!; [done | left; lia | intros; lia | done | | intros; lia].
        intros _ i Hi. assert (i = attempt) as -> by lia. done.
Qed.

(** [connect_neo4j] probes until an attempt succeeds or [max_retries]
    attempts have failed, sleeping [retry_delay] after every failure but the
    last. *)
Lemma connect_neo4j_spec answers max_retries retry_delay ok out :
  connect_neo4j answers max_retries retry_delay = Ok (ok, out) ->
  out = replicate (length out) (Slept retry_delay) /\
  (Z.of_nat (length out) < Z.max 1 max_retries) /\
  (forall i, 1 <= i <= Z.of_nat (length out) -> answers i = false) /\
  (ok = true <-> answers_within answers max_retries) /\
  (ok = true -> answers (1 + Z.of_nat (length out)) = true) /\
  (ok = false -> 1 <= max_retries -> Z.of_nat (length out) = max_retries - 1).
Proof.
  unfold connect_neo4j. intros E.
  destruct (Z.le_gt_cases max_retries 0) as [Hneg|Hpos].
  - (* no attempt at all *)
    replace (Z.to_nat max_retries) with O in E by lia. simpl in E.
    injection E as <- <-. simpl. repeat split; try done; try lia.
    intros [a [Ha _]]. lia.
  - destruct (connect_neo4j_loop_spec answers max_retries retry_delay
                (Z.to_nat max_retries) 1 ok out)
      as (Hrep & Hlen & Hfalse & Htrue & Hnone & Hall); [lia | done |].
    repeat split; try done.
    + lia.
    + intros i Hi. apply Hfalse. lia.
    + intros Hok. exists (1 + Z.of_nat (length out)). split; [lia | auto].
    + intros [a [Ha Hans]]. destruct ok; [done|].
      rewrite Hnone in Hans by (done || lia). done.
    + intros Hok _. rewrite Hall by (done || lia). lia.
Qed.

(** With a delay that [time.sleep] accepts the loop raises nothing. *)
Lemma connect_neo4j_loop_ok answers max_retries retry_delay :
  0 <= retry_delay <= 9223372036 ->
  forall left attempt,
    exists ok out,
      connect_neo4j_loop answers max_retries retry_delay attempt left = Ok (ok, out).
Proof.
  intros Hd. induction left as [|left IH]; intros attempt; simpl; [by eexists _, _|].
  destruct (answers attempt); [by eexists _, _|].
  destruct (attempt <? max_retries); [|by eexists _, _].
  rewrite sleep_ok by done. simpl.
  destruct (IH (attempt + 1)) as (ok & out & ->). simpl. by eexists _, _.
Qed.

Lemma connect_neo4j_default answers :
  exists ok out, connect_neo4j answers 30 2 = Ok (ok, out).
Proof. apply connect_neo4j_loop_ok. lia. Qed.

(** ** [main] *)

Lemma check_environment_variables_mongo e :
  check_environment_variables e = true -> is_set e "MONGO_URI" = true.
Proof.
  unfold check_environment_variables, required_vars. simpl.
  by intros [H _]%andb_true_iff.
Qed.

Lemma clear_neo4j_graph_sleepless g a t :
  forallb is_sleep (clear_neo4j_graph g a t).2 = false \/ (clear_neo4j_graph g a t).2 = [].
Proof.
  unfold clear_neo4j_graph.
  destruct (Nat.ltb 0 (length (g_nodes g))); [|by right].
  destruct a; [by left|]. destruct t as [line|]; [|by right].
  destruct (String.eqb (lower_string line) "y"); [by left | by right].
Qed.

Lemma clear_neo4j_graph_cases g a t :
  (clear_neo4j_graph g a t).1 = g \/
  (g_nodes g <> [] /\ (clear_neo4j_graph g a t).1 = empty_graph /\
   forall g', g_nodes g' <> [] -> (clear_neo4j_graph g' a t).1 = empty_graph).
Proof.
  unfold clear_neo4j_graph.
  destruct (g_nodes g) as [|n ns] eqn:Hn; simpl; [by left|].
  destruct a.
  { right. split; [done|]. split; [done|]. intros g' Hg'. by destruct (g_nodes g'). }
  destruct t as [line|]; [|by left].
  destruct (String.eqb (lower_string line) "y") eqn:Hy; [|by left].
  right. split; [done|]. split; [done|]. intros g' Hg'. by destruct (g_nodes g').
Qed.

(** A run that cannot start exits with status 1 and writes nothing. *)
Lemma main_aborts w g :
  ~ ready w -> exists out, main w g = (1, g, out) /\ forallb is_sleep out = true.
Proof.
  intros Hnot. unfold main.
  destruct (check_environment_variables (env w)) eqn:Henv; simpl; [|by exists []].
  unfold connect_mongodb. rewrite (check_environment_variables_mongo _ Henv). simpl.
  destruct (mongo_answers w) eqn:Hmongo; simpl; [|by exists []].
  destruct (connect_neo4j_default (neo4j_answers w)) as (ok & out & E). rewrite E.
  destruct (connect_neo4j_spec _ _ _ _ _ E) as (Hrep & _ & _ & Hok & _).
  destruct ok; simpl.
  - exfalso. apply Hnot. split; [done|]. split; [done|]. by apply Hok.
  - exists out. split; [done|]. rewrite Hrep.
    clear. induction (length out); simpl; auto.
Qed.

(** A run that can start exits with status 0 and leaves the graph of the
    import. *)
Lemma main_runs w g :
  ready w ->
  exists sleeps,
    forallb is_sleep sleeps = true /\
    main w g =
      (0, (import_markets_to_neo4j (source w) (cleared w g) 100).1,
       sleeps ++ (clear_neo4j_graph g (is_docker w) (operator w)).2 ++
       (import_markets_to_neo4j (source w) (cleared w g) 100).2).
Proof.
  intros (Henv & Hmongo & Hneo). unfold main. rewrite Henv. simpl.
  unfold connect_mongodb. rewrite (check_environment_variables_mongo _ Henv), Hmongo. simpl.
  destruct (connect_neo4j_default (neo4j_answers w)) as (ok & out & E). rewrite E.
  destruct (connect_neo4j_spec _ _ _ _ _ E) as (Hrep & _ & _ & Hok & _).
  apply Hok in Hneo. subst ok. simpl.
  unfold cleared, is_docker.
  destruct (clear_neo4j_graph g _ (operator w)) as [g1 out2]. cbn [fst snd].
  destruct (import_markets_to_neo4j (source w) g1 100) as [g2 out3]. simpl.
  exists out. split; [|done]. rewrite Hrep. clear. induction (length out); simpl; auto.
Qed.

Lemma main_status w g code g' out :
  main w g = (code, g', out) -> code = 0 \/ code = 1.
Proof.
  unfold main. intros H.
  destruct (negb (check_environment_variables (env w))); [injection H; auto|].
  destruct (negb (connect_mongodb w)); [injection H; auto|].
  destruct (connect_neo4j_default (neo4j_answers w)) as (ok & out1 & E). rewrite E in H.
  destruct (negb ok); [injection H; auto|].
  destruct (clear_neo4j_graph g _ (operator w)) as [g1 out2].
  destruct (import_markets_to_neo4j (source w) g1 100) as [g2 out3].
  injection H; auto.
Qed.

Lemma main_ok_ready w g g' out : main w g = (0, g', out) -> ready w.
Proof.
  intros H. unfold main in H.
  destruct (check_environment_variables (env w)) eqn:Henv; simpl in H; [|done].
  unfold connect_mongodb in H.
  rewrite (check_environment_variables_mongo _ Henv) in H. simpl in H.
  destruct (mongo_answers w) eqn:Hmongo; simpl in H; [|done].
  destruct (connect_neo4j_default (neo4j_answers w)) as (ok & out1 & E). rewrite E in H.
  destruct (connect_neo4j_spec _ _ _ _ _ E) as (_ & _ & _ & Hok & _).
  destruct ok; simpl in H; [|done].
  split; [done|]. split; [done|]. by apply Hok.
Qed.

(** ** Idempotence *)

Lemma set_prop_stored m kv : set_prop m kv !! kv.1 = stored kv.2.
Proof.
  unfold set_prop, stored.
  destruct (kv.2); rewrite ?lookup_delete_eq, ?lookup_insert_eq; done.
Qed.

Lemma foldl_set_prop_stored kvs : forall m name v,
  NoDup kvs.*1 -> (name, v) ∈ kvs -> foldl set_prop m kvs !! name = stored v.
Proof.
  induction kvs as [|kv kvs IH]; intros m name v Hnd Hin; [inversion Hin|].
  rewrite fmap_cons in Hnd. apply NoDup_cons in Hnd as [Hnotin Hnd].
  simpl. apply elem_of_cons in Hin as [<-|Hin].
  - rewrite foldl_set_prop_other by done. apply (set_prop_stored m (name, v)).
  - by apply IH.
Qed.

(** After the upsert every matched node holds the document's values: the
    last writer wins. *)
Lemma upsert_properties g md g1 k kvs i n name v :
  create_market_node g md = Ok (g1, k) -> market_properties md = Ok kvs ->
  i ∈ match_nodes Market k g1 -> g_nodes g1 !! i = Some n -> (name, v) ∈ kvs ->
  n_props n !! name = stored v.
Proof.
  intros E Hkvs Hi Hn Hin.
  pose proof (market_properties_keys _ _ Hkvs) as Hkeys.
  rewrite (upsert_match _ _ _ _ E) in Hi.
  apply create_market_node_ok in E as (kvs' & Hkvs' & -> & Hk & ->).
  assert (kvs' = kvs) as -> by congruence.
  rewrite <- merge_node_matches in Hi by done.
  rewrite update_nodes_lookup in Hn.
  destruct (g_nodes (merge_node Market (market_id_of md) g).1 !! i) as [n0|]; [|done].
  simpl in Hn. rewrite bool_decide_eq_true_2 in Hn by done.
  injection Hn as <-. simpl. apply foldl_set_prop_stored; [|done].
  rewrite Hkeys. apply (bool_decide_unpack _). by vm_compute.
Qed.

Lemma create_market_node_twice g md g1 k :
  create_market_node g md = Ok (g1, k) -> create_market_node g1 md = Ok (g1, k).
Proof.
  intros E. pose proof (upsert_match _ _ _ _ E Market k) as Hm.
  apply create_market_node_ok in E as (kvs & Hkvs & -> & Hk & ->).
  apply create_market_node_ok. exists kvs. split; [done|]. split; [done|]. split; [done|].
  rewrite <- merge_node_matches in Hm by done.
  pose proof (merge_node_nonempty Market (market_id_of md) g) as Hne.
  destruct (merge_node Market (market_id_of md) g) as [g0 ms0]. simpl in *.
  rewrite (merge_node_found Market (market_id_of md) (update_nodes _ ms0 g0))
    by (by rewrite Hm).
  simpl. rewrite Hm. by rewrite update_nodes_twice.
Qed.

Lemma create_category_relationship_twice g k c :
  create_category_relationship (create_category_relationship g k c) k c =
  create_category_relationship g k c.
Proof.
  unfold create_category_relationship. destruct (truthy c) eqn:Hc; simpl; [|done].
  by apply cypher_link_twice, truthy_not_none.
Qed.

Lemma create_series_relationship_twice g k c :
  create_series_relationship (create_series_relationship g k c) k c =
  create_series_relationship g k c.
Proof.
  unfold create_series_relationship. destruct (truthy c) eqn:Hc; simpl; [|done].
  by apply cypher_link_twice, truthy_not_none.
Qed.

Lemma import_twice docs g bs :
  same_shape (import_markets_to_neo4j docs (import_markets_to_neo4j docs g bs).1 bs).1
             (import_markets_to_neo4j docs g bs).1.
Proof. rewrite !import_markets_to_neo4j_graph. apply foldl_document_step_twice. Qed.

Lemma main_twice w g g1 g2 out1 out2 :
  well_formed g -> main w g = (0, g1, out1) -> main w g1 = (0, g2, out2) ->
  same_shape g2 g1.
Proof.
  intros Hwf H1 H2.
  pose proof (main_ok_ready _ _ _ _ H1) as Hready.
  destruct (main_runs w g Hready) as (s1 & _ & E1).
  destruct (main_runs w g1 Hready) as (s2 & _ & E2).
  rewrite E1 in H1. rewrite E2 in H2.
  injection H1 as Hg1 _. injection H2 as Hg2 _.
  rewrite import_markets_to_neo4j_graph in Hg1, Hg2.
  unfold cleared in *.
  destruct (clear_neo4j_graph_cases g (is_docker w) (operator w))
    as [Hkeep|(Hnodes & Hclear & Hall)].
  - (* the graph is kept: the second run starts from what the first left *)
    rewrite Hkeep in Hg1.
    destruct (clear_neo4j_graph_cases g1 (is_docker w) (operator w))
      as [Hkeep1|(Hnodes1 & Hclear1 & _)].
    + rewrite Hkeep1 in Hg2. subst g1 g2. apply foldl_document_step_twice.
    + rewrite Hclear1 in Hg2.
      (* [g] had no node, or it would have been cleared as well *)
      destruct (g_nodes g) as [|n ns] eqn:Hn.
      * rewrite (well_formed_no_nodes g Hwf Hn) in Hg1. subst g1 g2.
        apply same_shape_refl.
      * unfold clear_neo4j_graph in Hkeep, Hclear1. rewrite Hn in Hkeep.
        destruct (g_nodes g1) as [|n1 ns1] eqn:Hn1; [done|]. simpl in Hkeep, Hclear1.
        destruct (is_docker w); [by subst g; simpl in Hn|].
        destruct (operator w) as [line|];
          [|simpl in Hclear1; rewrite Hclear1 in Hn1; by simpl in Hn1].
        destruct (String.eqb (lower_string line) "y"); simpl in Hkeep, Hclear1.
        -- rewrite <- Hkeep in Hn. by simpl in Hn.
        -- rewrite Hclear1 in Hn1. by simpl in Hn1.
  - (* the graph is cleared: both runs import into an empty graph, unless
       the first left no node at all *)
    rewrite Hclear in Hg1.
    destruct (g_nodes g1) as [|n1 ns1] eqn:Hn1.
    + assert (Hid : (clear_neo4j_graph g1 (is_docker w) (operator w)).1 = g1).
      { unfold clear_neo4j_graph. by rewrite Hn1. }
      rewrite Hid in Hg2. subst g1 g2. apply foldl_document_step_twice.
    + rewrite Hall in Hg2 by (by rewrite Hn1). subst g1 g2. apply same_shape_refl.
Qed.

(** C1.  Repeating the import changes no count.  [create_market_node]
    leaves the document's values in the properties of the Market node of its
    key; a second call with the same document finds that node and leaves the
    graph as it is, so the number of Market nodes grows by one on the first
    call if no node had the key and never after; a
    second [create_category_relationship] or [create_series_relationship]
    with the same arguments leaves the graph as it is; a second
    [import_markets_to_neo4j] over the same documents, and a second [main] in
    the same world, leave every node count and the relationship count as the
    first run left them. *)
Theorem import_idempotent :
  (forall g md g1 k kvs i n name v,
     create_market_node g md = Ok (g1, k) -> market_properties md = Ok kvs ->
     i ∈ match_nodes Market k g1 -> g_nodes g1 !! i = Some n -> (name, v) ∈ kvs ->
     n_props n !! name = stored v) /\
  (forall g md g1 k,
     create_market_node g md = Ok (g1, k) ->
     create_market_node g1 md = Ok (g1, k) /\
     count_label Market g1 =
       (count_label Market g +
        if bool_decide (match_nodes Market k g = []) then 1 else 0)%nat) /\
  (forall g k c,
     create_category_relationship (create_category_relationship g k c) k c =
     create_category_relationship g k c) /\
  (forall g k c,
     create_series_relationship (create_series_relationship g k c) k c =
     create_series_relationship g k c) /\
  (forall docs g bs,
     let g1 := (import_markets_to_neo4j docs g bs).1 in
     let g2 := (import_markets_to_neo4j docs g1 bs).1 in
     (forall l, count_label l g2 = count_label l g1) /\ count_rels g2 = count_rels g1) /\
  (forall w g g1 g2 out1 out2,
     well_formed g -> main w g = (0, g1, out1) -> main w g1 = (0, g2, out2) ->
     (forall l, count_label l g2 = count_label l g1) /\ count_rels g2 = count_rels g1).
Proof.
  split_and!.
  - apply upsert_properties.
  - intros g md g1 k E. split; [by apply (create_market_node_twice g)|].
    rewrite (count_label_upsert _ _ _ _ _ E). f_equal.
    erewrite bool_decide_ext; [done|]. tauto.
  - apply create_category_relationship_twice.
  - apply create_series_relationship_twice.
  - intros docs g bs g1 g2. apply same_shape_counts, import_twice.
  - intros w g g1 g2 out1 out2 Hwf H1 H2.
    eapply same_shape_counts, main_twice; eauto.
Qed.

(** ** Keys *)

Lemma match_nodes_elem l v g i :
  i ∈ match_nodes l v g <->
  exists n, g_nodes g !! i = Some n /\ n_label n = l /\ v <> VNone /\
            n_props n !! key_name l = Some v.
Proof.
  unfold match_nodes. rewrite positions_from_elem, Nat.sub_0_r. split.
  - intros [_ (n & Hn & Hp)]. exists n. split; [done|].
    unfold node_matches in Hp. apply andb_true_iff in Hp as [Hl Hv].
    apply bool_decide_eq_true in Hl. split; [done|].
    destruct (n_props n !! key_name l) as [w|] eqn:Hw.
    + assert (v <> VNone) by (intros ->; done). split; [done|].
      assert (value_eqb w v = true) as Heq by (by destruct v).
      apply value_eqb_eq in Heq. by subst.
    + by destruct v.
  - intros (n & Hn & Hl & Hv & Hp). split; [lia|]. exists n. split; [done|].
    unfold node_matches. rewrite Hp, value_eqb_refl, bool_decide_eq_true_2 by done.
    by destruct v.
Qed.

Lemma match_nodes_nil l v g :
  match_nodes l v g = [] <->
  forall n, n ∈ g_nodes g -> n_label n = l -> v <> VNone ->
            n_props n !! key_name l <> Some v.
Proof.
  split.
  - intros Hnil n Hn Hl Hv Hp. apply list_elem_of_lookup in Hn as [i Hi].
    assert (i ∈ match_nodes l v g) as Hin by (apply match_nodes_elem; eauto 6).
    rewrite Hnil in Hin. inversion Hin.
  - intros H. destruct (match_nodes l v g) as [|i ms] eqn:E; [done|].
    assert (i ∈ match_nodes l v g) as Hin by (rewrite E; by left).
    apply match_nodes_elem in Hin as (n & Hn & Hl & Hv & Hp).
    exfalso. eapply H; eauto. eapply list_elem_of_lookup_2; eauto.
Qed.

(** C4.  The key of a document is its [id] when that is non-empty;
    otherwise the [$oid] payload of a structured [_id], a string [_id] as it
    is, and the string form of any other non-empty [_id]; with nothing to go
    by it is the empty string.  It is the key [create_market_node] returns
    and the [id] property of the Market node it leaves. *)
Theorem key_resolution (md : document) :
  let id := dict_get md "id" (VStr "") in
  let _id := dict_get md "_id" (VStr "") in
  (truthy id = true -> market_id_of md = id) /\
  (truthy id = false ->
     (forall d oid, _id = VDict d -> lookup_item "$oid" d = Some oid ->
        market_id_of md = oid) /\
     (forall s, _id = VStr s -> market_id_of md = VStr s) /\
     ((forall d, _id = VDict d -> lookup_item "$oid" d = None) ->
      (forall s, _id <> VStr s) ->
      market_id_of md = if truthy _id then VStr (py_str _id) else VStr "")) /\
  (forall g g' k,
     create_market_node g md = Ok (g', k) ->
     k = market_id_of md /\
     exists i n, g_nodes g' !! i = Some n /\ n_label n = Market /\
                 n_props n !! "id" = Some k).
Proof.
  intros id _id. split_and!.
  - intros Hid. unfold market_id_of. fold id. by rewrite Hid.
  - intros Hid. unfold market_id_of. fold id. rewrite Hid. fold _id. split_and!.
    + intros d oid -> Hoid. by rewrite Hoid.
    + by intros s' ->.
    + intros Hd Hs. destruct _id as [| | | | s' | | |d] eqn:E; try done.
      * by destruct (Hs s').
      * by rewrite (Hd d eq_refl).
  - intros g g' k E. destruct (upsert_key _ _ _ _ E) as [Hk _]. split; [done|].
    pose proof (upsert_present _ _ _ _ E) as Hpres.
    destruct (match_nodes Market k g') as [|i ms] eqn:Hm; [done|].
    assert (i ∈ match_nodes Market k g') as Hin by (rewrite Hm; by left).
    apply match_nodes_elem in Hin as (n & Hn & Hl & _ & Hp). eauto.
Qed.

(** ** Volumes *)




Lemma int_of_string_separator c s :
  (28 <= code c <= 31)%N -> int_of_string (String c s) = None.
Proof.
  intros Hc.
  assert (c = ascii_of_N 28 \/ c = ascii_of_N 29 \/ c = ascii_of_N 30 \/ c = ascii_of_N 31)
    as Hcases.
  { rewrite <- (ascii_N_embedding c). unfold code in Hc.
    assert (N_of_ascii c = 28 \/ N_of_ascii c = 29 \/ N_of_ascii c = 30 \/
            N_of_ascii c = 31)%N as H by lia.
    decompose [or] H; rewrite H0 || rewrite H1; tauto. }
  unfold int_of_string. decompose [or] Hcases; subst c; done.
Qed.


(** ** Dates *)

Lemma try_formats_text s :
  try_formats (VStr s) formats = Ok (first_format s).
Proof.
  unfold formats, first_format, try_formats, strptime.
  repeat match goal with
         | |- context [strptime_text s ?f] => destruct (strptime_text s f); [done|]
         end.
  done.
Qed.

Lemma parse_date_text s : parse_date (VStr s) = Ok (first_format s).
Proof.
  unfold parse_date. destruct (truthy (VStr s)) eqn:Ht; simpl.
  - apply try_formats_text.
  - simpl in Ht. apply negb_false_iff, String.eqb_eq in Ht. by subst.
Qed.

Lemma parse_date_falsy v : truthy v = false -> parse_date v = Ok None.
Proof. unfold parse_date. by intros ->. Qed.

(** *** Reading the digits of a field *)

Lemma digit_cases a : is_digit a = true ->
  a = "0"%char \/ a = "1"%char \/ a = "2"%char \/ a = "3"%char \/ a = "4"%char \/
  a = "5"%char \/ a = "6"%char \/ a = "7"%char \/ a = "8"%char \/ a = "9"%char.
Proof.
  destruct a as [[] [] [] [] [] [] [] []]; vm_compute; intros H; try discriminate; tauto.
Qed.

Lemma digit_char_cases x : 0 <= x <= 9 ->
  digit_char x = "0"%char /\ x = 0 \/ digit_char x = "1"%char /\ x = 1 \/
  digit_char x = "2"%char /\ x = 2 \/ digit_char x = "3"%char /\ x = 3 \/
  digit_char x = "4"%char /\ x = 4 \/ digit_char x = "5"%char /\ x = 5 \/
  digit_char x = "6"%char /\ x = 6 \/ digit_char x = "7"%char /\ x = 7 \/
  digit_char x = "8"%char /\ x = 8 \/ digit_char x = "9"%char /\ x = 9.
Proof.
  intros H.
  assert (x = 0 \/ x = 1 \/ x = 2 \/ x = 3 \/ x = 4 \/ x = 5 \/ x = 6 \/ x = 7 \/ x = 8 \/ x = 9)
    as Hx by lia.
  decompose [or] Hx; subst; vm_compute; tauto.
Qed.

Lemma is_digit_digit_char x : 0 <= x <= 9 -> is_digit (digit_char x) = true.
Proof.
  intros H. pose proof (digit_char_cases x H) as Hc.
  decompose [or and] Hc; match goal with E : digit_char x = _ |- _ => rewrite E end; reflexivity.
Qed.

Lemma append_cons c (a b : string) : String c a +:+ b = String c (a +:+ b).
Proof. reflexivity. Qed.

Lemma append_nil_l (b : string) : "" +:+ b = b.
Proof. reflexivity. Qed.

Lemma append_assoc (a b c : string) : (a +:+ b) +:+ c = a +:+ (b +:+ c).
Proof. induction a as [|ch a IH]; [done|]. rewrite !append_cons. by f_equal. Qed.

Lemma append_nil_r (a : string) : a +:+ "" = a.
Proof. induction a as [|ch a IH]; [done|]. rewrite append_cons. by f_equal. Qed.

Lemma length_append (a b : string) :
  String.length (a +:+ b) = (String.length a + String.length b)%nat.
Proof.
  induction a as [|ch a IH]; [done|]. rewrite append_cons. simpl. by rewrite IH.
Qed.

Lemma length_fixed_digits w : forall z, String.length (fixed_digits w z) = w.
Proof.
  induction w as [|w IH]; intros z; simpl; [done|].
  rewrite length_append, IH. simpl. lia.
Qed.

(** [int_digits] reads a zero-filled number back. *)
Lemma int_digits_fixed w : forall z acc p rest,
  0 <= z < 10 ^ Z.of_nat w ->
  int_digits acc p (fixed_digits w z +:+ rest) =
  int_digits (acc * 10 ^ Z.of_nat w + z) (p || negb (Nat.eqb w 0)) rest.
Proof.
  induction w as [|w IH]; intros z acc p rest Hz.
  - simpl in *. assert (z = 0) as -> by lia. rewrite Z.mul_1_r, Z.add_0_r.
    by rewrite orb_false_r.
  - cbn [fixed_digits]. rewrite append_assoc, append_cons, append_nil_l.
    rewrite Nat2Z.inj_succ, Z.pow_succ_r in * by lia.
    rewrite IH by (split; [apply Z.div_pos; lia | apply Z.div_lt_upper_bound; lia]).
    cbn [int_digits].
    rewrite is_digit_digit_char by (pose proof (Z.mod_pos_bound z 10); lia).
    f_equal.
    + unfold digit_val, digit_char, code.
      rewrite N_ascii_embedding.
      2:{ pose proof (Z.mod_pos_bound z 10). lia. }
      rewrite Z2N.id by (pose proof (Z.mod_pos_bound z 10); lia).
      pose proof (Z.div_mod z 10). lia.
    + simpl. by rewrite orb_true_r.
Qed.

Lemma take_sign_digit c s : is_digit c = true -> take_sign (String c s) = (false, String c s).
Proof.
  intros H. pose proof (digit_cases c H) as Hc.
  decompose [or] Hc; subst; reflexivity.
Qed.

Lemma consumed_app pre rest : consumed (pre +:+ rest) rest = pre.
Proof.
  unfold consumed. rewrite length_append.
  replace (String.length pre + String.length rest - String.length rest)%nat
    with (String.length pre) by lia.
  induction pre as [|c pre IH]; [by destruct rest|].
  rewrite append_cons. simpl. by rewrite IH.
Qed.

Lemma consumed_1 a r : consumed (String a r) r = String a "".
Proof. apply (consumed_app (String a "") r). Qed.

Lemma consumed_2 a b r : consumed (String a (String b r)) r = String a (String b "").
Proof. apply (consumed_app (String a (String b "")) r). Qed.

Lemma fixed_digits_head w : forall v, 0 <= v ->
  exists c s, fixed_digits (S w) v = String c s /\ is_digit c = true.
Proof.
  induction w as [|w IH]; intros v Hv.
  - exists (digit_char (v mod 10)), "". split; [done|].
    apply is_digit_digit_char. pose proof (Z.mod_pos_bound v 10). lia.
  - destruct (IH (v / 10)) as (c & s & Hs & Hc); [apply Z.div_pos; lia|].
    exists c, (s +:+ String (digit_char (v mod 10)) "").
    split; [|done]. change (fixed_digits (S (S w)) v)
      with (fixed_digits (S w) (v / 10) +:+ String (digit_char (v mod 10)) "").
    by rewrite Hs.
Qed.

Lemma lstrip_digit c s : is_digit c = true -> lstrip (String c s) = String c s.
Proof.
  intros H. pose proof (digit_cases c H) as Hc.
  decompose [or] Hc; subst; reflexivity.
Qed.

(** [int] reads a zero-filled number back. *)
Lemma int_of_string_fixed_digits w v :
  0 <= v < 10 ^ Z.of_nat (S w) -> int_of_string (fixed_digits (S w) v) = Some v.
Proof.
  intros Hv. unfold int_of_string.
  destruct (fixed_digits_head w v) as (c & s & Hs & Hc); [lia|].
  rewrite Hs, lstrip_digit, take_sign_digit by done. rewrite <- Hs.
  rewrite <- (append_nil_r (fixed_digits (S w) v)).
  rewrite int_digits_fixed by done. simpl. done.
Qed.

Lemma rmatch_seq {R} r1 r2 s g (k : string -> groups -> option R) :
  rmatch (RSeq r1 r2) s g k = rmatch r1 s g (fun s1 g1 => rmatch r2 s1 g1 k).
Proof. reflexivity. Qed.

Lemma rmatch_group {R} name r s g (k : string -> groups -> option R) :
  rmatch (RGroup name r) s g k =
  rmatch r s g (fun s1 g1 => k s1 ((name, consumed s s1) :: g1)).
Proof. reflexivity. Qed.

Lemma rmatch_digit {R} c s g (k : string -> groups -> option R) :
  is_digit c = true -> rmatch rdigit (String c s) g k = k s g.
Proof. intros H. simpl. unfold in_class. change (code "0") with 48%N. change (code "9") with 57%N. unfold is_digit in H. by rewrite H. Qed.

(** A literal of the format against the same character of the text. *)
Lemma rmatch_literal {R} c r s g (k : string -> groups -> option R) :
  rmatch (RSeq (RChar c) r) (String c s) g k = rmatch r s g k.
Proof. simpl. by rewrite Ascii.eqb_refl. Qed.

Ltac two_digit_case :=
  unfold two_digit_field;
  match goal with
  | |- context [fixed_digits 2 ?x] =>
      let t := eval vm_compute in (fixed_digits 2 x) in
      change (fixed_digits 2 x) with t
  end;
  intros R rest g k; eexists;
  rewrite !append_cons, append_nil_l;
  split;
  [ cbn -[consumed]; rewrite ?consumed_2, ?consumed_1; reflexivity
  | let Hk := fresh "Hk" in
    intros Hk; rewrite ?Hk by reflexivity; reflexivity ].

Tactic Notation "two_digit_cases" constr(v) constr(lo) integer(n) :=
  let m := fresh "m" in
  let Hm := fresh "Hm" in
  remember (Z.to_nat (v - lo)) as m eqn:Hm;
  assert (v = lo + Z.of_nat m) by lia; subst v; clear Hm;
  do n (destruct m as [|m]; [two_digit_case|]);
  exfalso; lia.

Lemma month_field v : 1 <= v <= 12 -> two_digit_field month_group "m" v.
Proof. intros Hv. unfold month_group. two_digit_cases v 1 12. Qed.

Lemma day_field v : 1 <= v <= 31 -> two_digit_field day_group "d" v.
Proof. intros Hv. unfold day_group. two_digit_cases v 1 31. Qed.

Lemma hour_field v : 0 <= v <= 23 -> two_digit_field hour_group "H" v.
Proof. intros Hv. unfold hour_group. two_digit_cases v 0 24. Qed.

Lemma minute_field v : 0 <= v <= 59 -> two_digit_field minute_group "M" v.
Proof. intros Hv. unfold minute_group. two_digit_cases v 0 60. Qed.

Lemma second_field v : 0 <= v <= 59 -> two_digit_field second_group "S" v.
Proof. intros Hv. unfold second_group. two_digit_cases v 0 60. Qed.

Lemma two_digit_field_commit r name v R rest g (k : string -> groups -> option R) :
  two_digit_field r name v -> refuses_digits k ->
  rmatch r (fixed_digits 2 v +:+ rest) g k = k rest ((name, fixed_digits 2 v) :: g).
Proof.
  intros Hf Hk. destruct (Hf R rest g k) as (fb & -> & Hfb).
  destruct (k rest _); [done|]. by apply Hfb.
Qed.

Lemma two_digit_field_success r name v R rest g (k : string -> groups -> option R) x :
  two_digit_field r name v ->
  k rest ((name, fixed_digits 2 v) :: g) = Some x ->
  rmatch r (fixed_digits 2 v +:+ rest) g k = Some x.
Proof. intros Hf Hk. destruct (Hf R rest g k) as (fb & -> & _). by rewrite Hk. Qed.

Lemma lower_digit c : is_digit (lower c) = true -> is_digit c = true.
Proof.
  unfold lower. destruct ((65 <=? code c) && (code c <=? 90))%N eqn:E; [|done].
  apply andb_true_iff in E as [E1 E2]. apply N.leb_le in E1, E2.
  unfold is_digit, code. rewrite N_ascii_embedding by (unfold code in *; lia).
  intros H. apply andb_true_iff in H as [_ H]. apply N.leb_le in H.
  unfold code in *. lia.
Qed.

Lemma refuses_digits_literal {R} c r (k : string -> groups -> option R) :
  is_digit c = false ->
  refuses_digits (fun s g => rmatch (RSeq (RChar c) r) s g k).
Proof.
  intros Hc d s e Hd. simpl.
  destruct (Ascii.eqb (lower d) (lower c)) eqn:E; [|done].
  apply Ascii.eqb_eq in E.
  assert (lower d = d) as Hl.
  { pose proof (digit_cases d Hd) as Hcases. decompose [or] Hcases; subst; reflexivity. }
  rewrite Hl in E. rewrite E in Hd. apply lower_digit in Hd. congruence.
Qed.

Lemma refuses_digits_spaces {R} r (k : string -> groups -> option R) :
  refuses_digits (fun s g => rmatch (RSeq RSpaces r) s g k).
Proof.
  intros d s e Hd. simpl.
  pose proof (digit_cases d Hd) as Hcases.
  decompose [or] Hcases; subst; reflexivity.
Qed.

Lemma rmatch_digit_seq {R} c r s g (k : string -> groups -> option R) :
  is_digit c = true -> rmatch (RSeq rdigit r) (String c s) g k = rmatch r s g k.
Proof. intros H. rewrite rmatch_seq. by rewrite rmatch_digit. Qed.

Lemma four_digits_match {R} c3 c2 c1 c0 rest g (k : string -> groups -> option R) :
  is_digit c3 = true -> is_digit c2 = true -> is_digit c1 = true -> is_digit c0 = true ->
  rmatch year_group (String c3 (String c2 (String c1 (String c0 rest)))) g k =
  k rest (("Y"%char, String c3 (String c2 (String c1 (String c0 "")))) :: g).
Proof.
  intros H3 H2 H1 H0. unfold year_group. rewrite rmatch_group. cbn [rseqs].
  rewrite !rmatch_digit_seq, rmatch_digit by done.
  pose proof (consumed_app (String c3 (String c2 (String c1 (String c0 "")))) rest) as Hc.
  rewrite !append_cons, append_nil_l in Hc. by rewrite Hc.
Qed.

Lemma fixed_digits_4 y :
  fixed_digits 4 y =
  String (digit_char (y / 10 / 10 / 10 mod 10))
    (String (digit_char (y / 10 / 10 mod 10))
       (String (digit_char (y / 10 mod 10)) (String (digit_char (y mod 10)) ""))).
Proof. cbn [fixed_digits]. by rewrite !append_nil_l, !append_cons, !append_nil_l. Qed.

Lemma digit_mod a : is_digit (digit_char (a mod 10)) = true.
Proof. apply is_digit_digit_char. pose proof (Z.mod_pos_bound a 10). lia. Qed.

Lemma year_match {R} y rest g (k : string -> groups -> option R) :
  rmatch year_group (fixed_digits 4 y +:+ rest) g k =
  k rest (("Y"%char, fixed_digits 4 y) :: g).
Proof.
  rewrite fixed_digits_4, !append_cons, append_nil_l.
  apply four_digits_match; apply digit_mod.
Qed.

Lemma rmatch_alt_success {R} r1 r2 s g (k : string -> groups -> option R) x :
  rmatch r1 s g k = Some x -> rmatch (RAlt r1 r2) s g k = Some x.
Proof. intros H. simpl. by rewrite H. Qed.

Lemma six_digits_match {R} c5 c4 c3 c2 c1 c0 rest g (k : string -> groups -> option R) x :
  is_digit c5 = true -> is_digit c4 = true -> is_digit c3 = true ->
  is_digit c2 = true -> is_digit c1 = true -> is_digit c0 = true ->
  k rest (("f"%char, String c5 (String c4 (String c3 (String c2 (String c1 (String c0 "")))))) :: g)
    = Some x ->
  rmatch fraction_group
    (String c5 (String c4 (String c3 (String c2 (String c1 (String c0 rest)))))) g k = Some x.
Proof.
  intros H5 H4 H3 H2 H1 H0 Hk. unfold fraction_group. rewrite rmatch_group. cbn [rupto].
  do 5 (rewrite rmatch_digit_seq by done; apply rmatch_alt_success).
  rewrite rmatch_digit by done.
  pose proof (consumed_app
    (String c5 (String c4 (String c3 (String c2 (String c1 (String c0 "")))))) rest) as Hc.
  rewrite !append_cons, append_nil_l in Hc. by rewrite Hc.
Qed.

Lemma fixed_digits_6 y :
  fixed_digits 6 y =
  String (digit_char (y / 10 / 10 / 10 / 10 / 10 mod 10))
    (String (digit_char (y / 10 / 10 / 10 / 10 mod 10))
       (String (digit_char (y / 10 / 10 / 10 mod 10))
          (String (digit_char (y / 10 / 10 mod 10))
             (String (digit_char (y / 10 mod 10)) (String (digit_char (y mod 10)) ""))))).
Proof. cbn [fixed_digits]. by rewrite !append_nil_l, !append_cons, !append_nil_l. Qed.

Lemma fraction_match {R} f rest g (k : string -> groups -> option R) x :
  k rest (("f"%char, fixed_digits 6 f) :: g) = Some x ->
  rmatch fraction_group (fixed_digits 6 f +:+ rest) g k = Some x.
Proof.
  rewrite fixed_digits_6, !append_cons, append_nil_l.
  apply six_digits_match; apply digit_mod.
Qed.

Lemma pattern_fraction_format :
  pattern false "%Y-%m-%dT%H:%M:%S.%fZ" =
  Some (date_regex (RSeq (RChar "T") (time_regex
          (RSeq (RChar ".") (RSeq fraction_group (RSeq (RChar "Z") REps)))))).
Proof. reflexivity. Qed.

Lemma pattern_zulu_format :
  pattern false "%Y-%m-%dT%H:%M:%SZ" =
  Some (date_regex (RSeq (RChar "T") (time_regex (RSeq (RChar "Z") REps)))).
Proof. reflexivity. Qed.

Lemma pattern_space_format :
  pattern false "%Y-%m-%d %H:%M:%S" =
  Some (date_regex (RSeq RSpaces (time_regex REps))).
Proof. reflexivity. Qed.

Lemma pattern_date_format :
  pattern false "%Y-%m-%d" = Some (date_regex REps).
Proof. reflexivity. Qed.

Lemma valid_datetime_ranges d :
  valid_datetime d = true ->
  1 <= year d <= 9999 /\ 1 <= month d <= 12 /\ 1 <= day d <= 31 /\
  0 <= hour d <= 23 /\ 0 <= minute d <= 59 /\ 0 <= second d <= 59 /\
  0 <= microsecond d <= 999999.
Proof.
  unfold valid_datetime. rewrite !andb_true_iff, !Z.leb_le.
  intros H. decompose [and] H. clear H.
  assert (days_in_month (year d) (month d) <= 31).
  { unfold days_in_month. repeat case_match; lia. }
  lia.
Qed.

Lemma rmatch_text_literal {R} c r rest g (k : string -> groups -> option R) :
  rmatch (RSeq (RChar c) r) (String c "" +:+ rest) g k = rmatch r rest g k.
Proof. rewrite append_cons, append_nil_l. apply rmatch_literal. Qed.

(** The date part of a format reads the date part of a text. *)
Lemma date_regex_match {R} d r rest g (k : string -> groups -> option R) :
  1 <= month d <= 12 -> 1 <= day d <= 31 ->
  refuses_digits (fun s g => rmatch r s g k) ->
  rmatch (date_regex r) (date_text d +:+ rest) g k =
  rmatch r rest (date_groups d g) k.
Proof.
  intros Hm Hd Hk. unfold date_regex, date_text, date_groups.
  rewrite !append_assoc.
  rewrite rmatch_seq, year_match, rmatch_text_literal.
  rewrite rmatch_seq,
    (two_digit_field_commit _ _ _ _ _ _ _ (month_field _ Hm))
    by (by apply refuses_digits_literal).
  rewrite rmatch_text_literal.
  rewrite rmatch_seq. by rewrite (two_digit_field_commit _ _ _ _ _ _ _ (day_field _ Hd)).
Qed.

Lemma date_regex_match_success {R} d r rest g (k : string -> groups -> option R) x :
  1 <= month d <= 12 -> 1 <= day d <= 31 ->
  rmatch r rest (date_groups d g) k = Some x ->
  rmatch (date_regex r) (date_text d +:+ rest) g k = Some x.
Proof.
  intros Hm Hd Hk. unfold date_regex, date_text, date_groups in *.
  rewrite !append_assoc.
  rewrite rmatch_seq, year_match, rmatch_text_literal.
  rewrite rmatch_seq,
    (two_digit_field_commit _ _ _ _ _ _ _ (month_field _ Hm))
    by (by apply refuses_digits_literal).
  rewrite rmatch_text_literal.
  rewrite rmatch_seq. by apply (two_digit_field_success _ _ _ _ _ _ _ _ (day_field _ Hd)).
Qed.

(** The time part of a format reads the time part of a text. *)
Lemma time_regex_match {R} d r rest g (k : string -> groups -> option R) :
  0 <= hour d <= 23 -> 0 <= minute d <= 59 -> 0 <= second d <= 59 ->
  refuses_digits (fun s g => rmatch r s g k) ->
  rmatch (time_regex r) (time_text d +:+ rest) g k =
  rmatch r rest (time_groups d g) k.
Proof.
  intros HH HM HS Hk. unfold time_regex, time_text, time_groups.
  rewrite !append_assoc.
  rewrite rmatch_seq,
    (two_digit_field_commit _ _ _ _ _ _ _ (hour_field _ HH))
    by (by apply refuses_digits_literal).
  rewrite rmatch_text_literal.
  rewrite rmatch_seq,
    (two_digit_field_commit _ _ _ _ _ _ _ (minute_field _ HM))
    by (by apply refuses_digits_literal).
  rewrite rmatch_text_literal.
  rewrite rmatch_seq. by rewrite (two_digit_field_commit _ _ _ _ _ _ _ (second_field _ HS)).
Qed.

Lemma time_regex_match_success {R} d r rest g (k : string -> groups -> option R) x :
  0 <= hour d <= 23 -> 0 <= minute d <= 59 -> 0 <= second d <= 59 ->
  rmatch r rest (time_groups d g) k = Some x ->
  rmatch (time_regex r) (time_text d +:+ rest) g k = Some x.
Proof.
  intros HH HM HS Hk. unfold time_regex, time_text, time_groups in *.
  rewrite !append_assoc.
  rewrite rmatch_seq,
    (two_digit_field_commit _ _ _ _ _ _ _ (hour_field _ HH))
    by (by apply refuses_digits_literal).
  rewrite rmatch_text_literal.
  rewrite rmatch_seq,
    (two_digit_field_commit _ _ _ _ _ _ _ (minute_field _ HM))
    by (by apply refuses_digits_literal).
  rewrite rmatch_text_literal.
  rewrite rmatch_seq. by apply (two_digit_field_success _ _ _ _ _ _ _ _ (second_field _ HS)).
Qed.

(** The numbers of the groups. *)
Lemma group_int_fixed g name w v dflt :
  0 <= v < 10 ^ Z.of_nat (S w) ->
  lookup_group name g = Some (fixed_digits (S w) v) ->
  group_int g name dflt = v.
Proof.
  intros Hv Hl. unfold group_int. rewrite Hl.
  by rewrite int_of_string_fixed_digits.
Qed.

Lemma valid_at_second d : valid_datetime d = true -> valid_datetime (at_second d) = true.
Proof.
  unfold valid_datetime. simpl. rewrite !andb_true_iff. intros H.
  decompose [and] H. repeat split; done.
Qed.

Lemma valid_at_midnight d : valid_datetime d = true -> valid_datetime (at_midnight d) = true.
Proof.
  unfold valid_datetime. simpl. rewrite !andb_true_iff. intros H.
  decompose [and] H. repeat split; done.
Qed.

Lemma group_int_two g name v dflt :
  0 <= v <= 99 -> lookup_group name g = Some (fixed_digits 2 v) ->
  group_int g name dflt = v.
Proof. intros Hv. apply group_int_fixed. simpl. lia. Qed.

Lemma group_int_four g name v dflt :
  0 <= v <= 9999 -> lookup_group name g = Some (fixed_digits 4 v) ->
  group_int g name dflt = v.
Proof. intros Hv. apply group_int_fixed. simpl. lia. Qed.

Lemma date_numbers d g :
  1 <= year d <= 9999 -> 1 <= month d <= 12 -> 1 <= day d <= 31 ->
  group_int (date_groups d g) "Y" 1900 = year d /\
  group_int (date_groups d g) "m" 1 = month d /\
  group_int (date_groups d g) "d" 1 = day d.
Proof.
  intros HY Hm Hd. unfold date_groups. split_and!.
  - apply group_int_four; [lia | reflexivity].
  - apply group_int_two; [lia | reflexivity].
  - apply group_int_two; [lia | reflexivity].
Qed.

Lemma time_numbers d g :
  0 <= hour d <= 23 -> 0 <= minute d <= 59 -> 0 <= second d <= 59 ->
  group_int (time_groups d g) "H" 0 = hour d /\
  group_int (time_groups d g) "M" 0 = minute d /\
  group_int (time_groups d g) "S" 0 = second d.
Proof.
  intros HH HM HS. unfold time_groups. split_and!.
  - apply group_int_two; [lia | reflexivity].
  - apply group_int_two; [lia | reflexivity].
  - apply group_int_two; [lia | reflexivity].
Qed.

Lemma lookup_group_here name t g : lookup_group name ((name, t) :: g) = Some t.
Proof. simpl. by rewrite Ascii.eqb_refl. Qed.

Lemma group_int_skip a t g name dflt :
  Ascii.eqb a name = false -> group_int ((a, t) :: g) name dflt = group_int g name dflt.
Proof. intros H. unfold group_int. simpl. by rewrite H. Qed.

Lemma strptime_text_eq s fmt r :
  pattern false fmt = Some r ->
  strptime_text s fmt =
    match rmatch r s [] (fun rest g => Some (rest, g)) with
    | Some (EmptyString, g) => datetime_of_groups g
    | _ => None
    end.
Proof.
  intros H. unfold strptime_text. rewrite H.
  change (Some r ≫= ?f) with (f r). cbv beta.
  destruct (rmatch r s [] _) as [[rest g]|]; [|done]. done.
Qed.

Lemma datetime_of_time_groups d :
  valid_datetime d = true ->
  datetime_of_groups (time_groups d (date_groups d [])) = Some (at_second d).
Proof.
  intros Hvalid.
  destruct (valid_datetime_ranges d Hvalid) as (HY & Hm & Hd & HH & HM & HS & Hf).
  destruct (date_numbers d [] HY Hm Hd) as (EY & Em & Ed).
  destruct (time_numbers d (date_groups d []) HH HM HS) as (EH & EM & ES).
  unfold datetime_of_groups. rewrite EH, EM, ES.
  unfold time_groups. rewrite !group_int_skip by reflexivity.
  rewrite EY, Em, Ed.
  change (fraction_of _) with 0. fold (at_second d). by rewrite valid_at_second.
Qed.

Lemma datetime_of_date_groups d :
  valid_datetime d = true ->
  datetime_of_groups (date_groups d []) = Some (at_midnight d).
Proof.
  intros Hvalid.
  destruct (valid_datetime_ranges d Hvalid) as (HY & Hm & Hd & HH & HM & HS & Hf).
  destruct (date_numbers d [] HY Hm Hd) as (EY & Em & Ed).
  unfold datetime_of_groups. rewrite EY, Em, Ed.
  change (group_int _ "H" 0) with 0. change (group_int _ "M" 0) with 0.
  change (group_int _ "S" 0) with 0.
  change (fraction_of _) with 0. fold (at_midnight d). by rewrite valid_at_midnight.
Qed.

Lemma datetime_of_fraction_groups d :
  valid_datetime d = true ->
  datetime_of_groups (("f"%char, fixed_digits 6 (microsecond d)) ::
                      time_groups d (date_groups d [])) = Some d.
Proof.
  intros Hvalid.
  destruct (valid_datetime_ranges d Hvalid) as (HY & Hm & Hd & HH & HM & HS & Hf).
  destruct (date_numbers d [] HY Hm Hd) as (EY & Em & Ed).
  destruct (time_numbers d (date_groups d []) HH HM HS) as (EH & EM & ES).
  assert (Efrac : fraction_of (("f"%char, fixed_digits 6 (microsecond d)) ::
                               time_groups d (date_groups d [])) = microsecond d).
  { unfold fraction_of. rewrite lookup_group_here, length_fixed_digits.
    simpl zeros. rewrite append_nil_r.
    rewrite int_of_string_fixed_digits; [done|]. simpl. lia. }
  unfold datetime_of_groups. rewrite Efrac, !group_int_skip by reflexivity.
  rewrite EH, EM, ES.
  unfold time_groups. rewrite !group_int_skip by reflexivity.
  rewrite EY, Em, Ed. destruct d. simpl in *. by rewrite Hvalid.
Qed.

Lemma rmatch_literal_mismatch {R} c r a s g (k : string -> groups -> option R) :
  Ascii.eqb (lower a) (lower c) = false ->
  rmatch (RSeq (RChar c) r) (String a s) g k = None.
Proof. intros H. simpl. by rewrite H. Qed.

Lemma spaces_plus_digit {R} c s (k : string -> option R) :
  is_digit c = true -> spaces_plus (String c s) k = None.
Proof.
  intros H. pose proof (digit_cases c H) as Hc.
  decompose [or] Hc; subst; reflexivity.
Qed.

Lemma time_text_head d : 0 <= hour d ->
  exists c s, time_text d = String c s /\ is_digit c = true.
Proof.
  intros H. destruct (fixed_digits_head 1 (hour d) H) as (c & s & Hs & Hc).
  exists c. eexists. unfold time_text. rewrite Hs, append_cons. by split.
Qed.

(** ** The four shapes *)

Section Shapes.
Variable d : datetime.
Hypothesis Hvalid : valid_datetime d = true.

Lemma fraction_text_parses :
  strptime_text (fraction_text d) "%Y-%m-%dT%H:%M:%S.%fZ" = Some d.
Proof.
  destruct (valid_datetime_ranges d Hvalid) as (HY & Hm & Hd & HH & HM & HS & Hf).
  rewrite (strptime_text_eq _ _ _ pattern_fraction_format). unfold fraction_text.
  rewrite date_regex_match by (done || by apply refuses_digits_literal).
  rewrite rmatch_text_literal.
  rewrite time_regex_match by (done || by apply refuses_digits_literal).
  rewrite rmatch_text_literal, rmatch_seq.
  erewrite fraction_match; [|reflexivity].
  by apply datetime_of_fraction_groups.
Qed.

Lemma zulu_text_parses :
  strptime_text (zulu_text d) "%Y-%m-%dT%H:%M:%S.%fZ" = None /\
  strptime_text (zulu_text d) "%Y-%m-%dT%H:%M:%SZ" = Some (at_second d).
Proof.
  destruct (valid_datetime_ranges d Hvalid) as (HY & Hm & Hd & HH & HM & HS & Hf).
  rewrite (strptime_text_eq _ _ _ pattern_fraction_format),
          (strptime_text_eq _ _ _ pattern_zulu_format). unfold zulu_text.
  split.
  - rewrite date_regex_match by (done || by apply refuses_digits_literal).
    rewrite rmatch_text_literal.
    rewrite time_regex_match by (done || by apply refuses_digits_literal).
    reflexivity.
  - rewrite date_regex_match by (done || by apply refuses_digits_literal).
    rewrite rmatch_text_literal.
    rewrite time_regex_match by (done || by apply refuses_digits_literal).
    simpl rmatch. by apply datetime_of_time_groups.
Qed.

Lemma space_text_parses :
  strptime_text (space_text d) "%Y-%m-%dT%H:%M:%S.%fZ" = None /\
  strptime_text (space_text d) "%Y-%m-%dT%H:%M:%SZ" = None /\
  strptime_text (space_text d) "%Y-%m-%d %H:%M:%S" = Some (at_second d).
Proof.
  destruct (valid_datetime_ranges d Hvalid) as (HY & Hm & Hd & HH & HM & HS & Hf).
  rewrite (strptime_text_eq _ _ _ pattern_fraction_format),
          (strptime_text_eq _ _ _ pattern_zulu_format),
          (strptime_text_eq _ _ _ pattern_space_format). unfold space_text.
  split_and!.
  - rewrite date_regex_match by (done || by apply refuses_digits_literal).
    rewrite append_cons, append_nil_l. by rewrite rmatch_literal_mismatch.
  - rewrite date_regex_match by (done || by apply refuses_digits_literal).
    rewrite append_cons, append_nil_l. by rewrite rmatch_literal_mismatch.
  - rewrite date_regex_match by (done || apply refuses_digits_spaces).
    rewrite append_cons, append_nil_l, rmatch_seq.
    destruct (time_text_head d) as (c & s & Hs & Hc); [lia|].
    cbn [rmatch spaces_plus]. change (is_space " ") with true. cbv iota.
    rewrite Hs, spaces_plus_digit by done. rewrite <- Hs.
    rewrite <- (append_nil_r (time_text d)).
    erewrite time_regex_match_success; [| done | done | done | reflexivity].
    by apply datetime_of_time_groups.
Qed.

Lemma date_text_parses :
  strptime_text (date_text d) "%Y-%m-%dT%H:%M:%S.%fZ" = None /\
  strptime_text (date_text d) "%Y-%m-%dT%H:%M:%SZ" = None /\
  strptime_text (date_text d) "%Y-%m-%d %H:%M:%S" = None /\
  strptime_text (date_text d) "%Y-%m-%d" = Some (at_midnight d).
Proof.
  destruct (valid_datetime_ranges d Hvalid) as (HY & Hm & Hd & HH & HM & HS & Hf).
  rewrite (strptime_text_eq _ _ _ pattern_fraction_format),
          (strptime_text_eq _ _ _ pattern_zulu_format),
          (strptime_text_eq _ _ _ pattern_space_format),
          (strptime_text_eq _ _ _ pattern_date_format).
  rewrite <- (append_nil_r (date_text d)).
  split_and!.
  - by rewrite date_regex_match by (done || by apply refuses_digits_literal).
  - by rewrite date_regex_match by (done || by apply refuses_digits_literal).
  - by rewrite date_regex_match by (done || apply refuses_digits_spaces).
  - erewrite date_regex_match_success; [| done | done | reflexivity].
    by apply datetime_of_date_groups.
Qed.

(** The four shapes the formats are written for are parsed, each to the
    [datetime] it shows. *)
Lemma parse_date_shapes :
  parse_date (VStr (fraction_text d)) = Ok (Some d) /\
  parse_date (VStr (zulu_text d)) = Ok (Some (at_second d)) /\
  parse_date (VStr (space_text d)) = Ok (Some (at_second d)) /\
  parse_date (VStr (date_text d)) = Ok (Some (at_midnight d)).
Proof.
  rewrite !parse_date_text. unfold first_format.
  rewrite fraction_text_parses.
  destruct zulu_text_parses as (-> & ->).
  destruct space_text_parses as (-> & -> & ->).
  destruct date_text_parses as (-> & -> & -> & ->).
  done.
Qed.

Lemma isoformat_zulu :
  isoformat d +:+ "Z" = if microsecond d =? 0 then zulu_text d else fraction_text d.
Proof.
  unfold isoformat, zulu_text, fraction_text, date_text, time_text.
  destruct (microsecond d =? 0); by rewrite !append_assoc.
Qed.

(** What the script stores parses back: the ISO form with [Z] appended is
    read as the [datetime] it came from. *)
Lemma parse_date_isoformat : parse_date (VStr (isoformat d +:+ "Z")) = Ok (Some d).
Proof.
  rewrite isoformat_zulu. destruct parse_date_shapes as (Hf & Hz & _).
  destruct (microsecond d =? 0) eqn:E; [|done].
  rewrite Hz. apply Z.eqb_eq in E. destruct d. simpl in E. subst. done.
Qed.
End Shapes.

(** C6.  [parse_date] tries the four formats in their order and returns the
    first parse; a string that no format accepts, the empty string and an
    absent value give [None], and no string raises.  A text written in one
    of the four formats from a valid date is parsed to that date, with the
    parts its format does not show at zero, and the ISO form the script
    stores is read back to the date it came from.  The date of the ISO form
    of ["2026-01-01T00:00:00.000000Z"] is the date the input starts with, and
    ["not-a-date"] gives [None]. *)
Theorem parse_date_formats :
  formats = ["%Y-%m-%dT%H:%M:%S.%fZ"; "%Y-%m-%dT%H:%M:%SZ";
             "%Y-%m-%d %H:%M:%S"; "%Y-%m-%d"] /\
  (forall s, parse_date (VStr s) = Ok (first_format s)) /\
  (forall s, Forall (fun fmt => strptime_text s fmt = None) formats ->
             parse_date (VStr s) = Ok None) /\
  (forall v, truthy v = false -> parse_date v = Ok None) /\
  (forall d, valid_datetime d = true ->
     parse_date (VStr (fraction_text d)) = Ok (Some d) /\
     parse_date (VStr (zulu_text d)) = Ok (Some (at_second d)) /\
     parse_date (VStr (space_text d)) = Ok (Some (at_second d)) /\
     parse_date (VStr (date_text d)) = Ok (Some (at_midnight d))) /\
  (forall d, valid_datetime d = true ->
     parse_date (VStr (isoformat d +:+ "Z")) = Ok (Some d)) /\
  parse_date (VStr "") = Ok None /\
  parse_date VNone = Ok None /\
  parse_date (VStr "not-a-date") = Ok None /\
  (exists d, parse_date (VStr "2026-01-01T00:00:00.000000Z") = Ok (Some d) /\
             isoformat d = "2026-01-01T00:00:00" /\
             String.substring 0 10 (isoformat d) =
             String.substring 0 10 "2026-01-01T00:00:00.000000Z").
Proof.
  split_and!.
  - done.
  - apply parse_date_text.
  - intros s H. rewrite parse_date_text. unfold first_format.
    unfold formats in H. repeat (apply Forall_cons in H as [-> H]). done.
  - apply parse_date_falsy.
  - apply parse_date_shapes.
  - apply parse_date_isoformat.
  - done.
  - done.
  - by vm_compute.
  - eexists. split; [by vm_compute|]. split; by vm_compute.
Qed.

Lemma market_properties_created_at md kvs :
  market_properties md = Ok kvs ->
  exists d, created_at_of md = Ok d /\
            lookup_item "createdAt" kvs = Some (iso_or_none d).
Proof.
  unfold market_properties. intros H.
  do 3 (apply bind_ok in H as (? & _ & H)).
  apply bind_ok in H as (d & Hd & H).
  do 3 (apply bind_ok in H as (? & _ & H)).
  injection H as <-. exists d. by split.
Qed.

(** C10, as the code has it.  The [createdAt] property is the ISO form of
    one field: of [createdAt] when that is non-empty, of [creationDate]
    otherwise.  So a document without [createdAt] takes the date from
    [creationDate], and a document whose non-empty [createdAt] matches no
    format has no [createdAt] property, whatever [creationDate] holds. *)
Theorem created_at_fallback (md : document) :
  let created := dict_get_none md "createdAt" in
  let creation := dict_get_none md "creationDate" in
  created_at_of md = parse_date (if truthy created then created else creation) /\
  (truthy created = false -> created_at_of md = parse_date creation) /\
  (forall s, created = VStr s -> s <> "" -> first_format s = None ->
             created_at_of md = Ok None) /\
  (forall kvs, market_properties md = Ok kvs ->
     exists d, created_at_of md = Ok d /\
               lookup_item "createdAt" kvs = Some (iso_or_none d)).
Proof.
  intros created creation. unfold created_at_of, py_or. fold created creation.
  split_and!.
  - done.
  - by intros ->.
  - intros s Hs Hne Hnone. rewrite Hs. simpl.
    destruct (String.eqb s "") eqn:E; [by apply String.eqb_eq in E|]. simpl.
    by rewrite parse_date_text, Hnone.
  - apply market_properties_created_at.
Qed.

(** ** Linking *)

(** C9.  A link to a key that no Market node carries changes nothing: no
    node, no relationship, and no error (the functions are total). *)
Theorem link_without_market (g : graph) (market_id v : value) :
  truthy v = true ->
  (forall n, n ∈ g_nodes g -> n_label n = Market ->
             n_props n !! "id" <> Some market_id) ->
  create_category_relationship g market_id v = g /\
  create_series_relationship g market_id v = g.
Proof.
  intros Hv Hno.
  assert (Hnil : match_nodes Market market_id g = []).
  { apply match_nodes_nil. intros n Hn Hl _. by apply Hno. }
  rewrite create_category_relationship_eq, create_series_relationship_eq by done.
  split; by apply cypher_link_absent.
Qed.

Section LinkSemantics.
Variables (l : label) (t : rel_type) (g : graph) (k v : value).
Hypothesis Hv : truthy v = true.
Hypothesis Hk : match_nodes Market k g <> [].

(** With a name and a Market node, the link leaves a target node, one more
    than before only if none carried the name, and the relationship from
    every matching Market node to it; done again it writes nothing. *)
Lemma cypher_link_semantics :
  let g' := cypher_link l t k v g in
  match_nodes l v g' <> [] /\
  count_label l g' =
    (count_label l g + if bool_decide (match_nodes l v g = []) then 1 else 0)%nat /\
  (forall a b, a ∈ match_nodes Market k g' -> b ∈ match_nodes l v g' ->
               Rel a t b ∈ g_rels g') /\
  cypher_link l t k v g' = g'.
Proof.
  pose proof (truthy_not_none _ Hv) as Hn.
  destruct (cypher_link_linked l t k v Hn g Hk) as [Hsome Hall].
  split_and!; [done | | done | by apply cypher_link_twice].
  rewrite count_label_link by done. f_equal.
  erewrite bool_decide_ext; [done|]. tauto.
Qed.
End LinkSemantics.

(** Two documents with different keys and one category, imported into an
    empty graph, share one Category node and have a relationship each. *)
Lemma shared_category d1 d2 c :
  importable d1 = true -> importable d2 = true ->
  market_id_of d1 <> market_id_of d2 ->
  dict_get_none d1 "category" = c -> dict_get_none d2 "category" = c ->
  truthy c = true ->
  let g := foldl document_step empty_graph [d1; d2] in
  count_label Category g = 1%nat /\ count_type BELONGS_TO g = 2%nat.
Proof.
  intros H1 H2 Hne Hc1 Hc2 Hc. simpl.
  set (g1 := document_step empty_graph d1).
  destruct (document_step_invariants empty_graph d1) as [Hwf1 Hu1].
  { split; [apply well_formed_empty | apply unique_keys_empty]. }
  fold g1 in Hwf1, Hu1.
  assert (Hcat1 : count_label Category g1 = 1%nat).
  { unfold g1. rewrite count_category_step by done. rewrite Hc1, Hc. done. }
  assert (Hbt1 : count_type BELONGS_TO g1 = 1%nat).
  { unfold g1. rewrite count_belongs_to_step_new;
      [by rewrite Hc1, Hc | apply well_formed_empty | apply unique_keys_empty | done | done]. }
  assert (Hnew : match_nodes Market (market_id_of d2) g1 = []).
  { unfold g1. rewrite match_nodes_market_step by done.
    by rewrite bool_decide_eq_false_2 by (intros [? _]; done). }
  assert (Hshared : match_nodes Category c g1 <> []).
  { destruct (document_step_covers empty_graph d1) as (_ & Hl & _).
    - by apply importable_true in H1 as [? _].
    - by apply importable_true in H1 as [_ ?].
    - rewrite Hc1 in Hl. by destruct (Hl Hc). }
  split.
  - rewrite count_category_step by done. rewrite Hc2, Hc, Hcat1. simpl.
    by rewrite bool_decide_eq_false_2.
  - rewrite count_belongs_to_step_new by done. by rewrite Hc2, Hc, Hbt1.
Qed.

(** C7, as the code has it.  With an empty name a link does nothing.  With a
    name and a Market node of the given key it matches or creates the target
    node and the relationship, and a repeated call writes nothing.  Two
    documents of different keys naming one category, imported into an empty
    graph, leave one Category node and two [BELONGS_TO] relationships. *)
Theorem link_semantics :
  (forall g k v, truthy v = false ->
     create_category_relationship g k v = g /\
     create_series_relationship g k v = g) /\
  (forall g k v, truthy v = true -> match_nodes Market k g <> [] ->
     let g' := create_category_relationship g k v in
     match_nodes Category v g' <> [] /\
     count_label Category g' =
       (count_label Category g +
        if bool_decide (match_nodes Category v g = []) then 1 else 0)%nat /\
     (forall a b, a ∈ match_nodes Market k g' -> b ∈ match_nodes Category v g' ->
                  Rel a BELONGS_TO b ∈ g_rels g') /\
     create_category_relationship g' k v = g') /\
  (forall g k v, truthy v = true -> match_nodes Market k g <> [] ->
     let g' := create_series_relationship g k v in
     match_nodes Series v g' <> [] /\
     count_label Series g' =
       (count_label Series g +
        if bool_decide (match_nodes Series v g = []) then 1 else 0)%nat /\
     (forall a b, a ∈ match_nodes Market k g' -> b ∈ match_nodes Series v g' ->
                  Rel a IN_SERIES b ∈ g_rels g') /\
     create_series_relationship g' k v = g') /\
  (forall d1 d2 c,
     importable d1 = true -> importable d2 = true ->
     market_id_of d1 <> market_id_of d2 ->
     dict_get_none d1 "category" = c -> dict_get_none d2 "category" = c ->
     truthy c = true ->
     let g := foldl document_step empty_graph [d1; d2] in
     count_label Category g = 1%nat /\ count_type BELONGS_TO g = 2%nat).
Proof.
  split_and!.
  - intros g k v Hv. unfold create_category_relationship, create_series_relationship.
    by rewrite Hv.
  - intros g k v Hv Hk. unfold create_category_relationship. rewrite Hv. simpl.
    by apply cypher_link_semantics.
  - intros g k v Hv Hk. unfold create_series_relationship. rewrite Hv. simpl.
    by apply cypher_link_semantics.
  - apply shared_category.
Qed.

(** ** Documents without identifier *)

Lemma market_id_of_nothing md :
  truthy (dict_get md "id" (VStr "")) = false ->
  truthy (dict_get md "_id" (VStr "")) = false ->
  market_id_of md = VStr "".
Proof.
  intros Hid H_id. unfold market_id_of. rewrite Hid, H_id.
  destruct (dict_get md "_id" (VStr "")) as [| | | | s | | |d]; try done.
  - simpl in H_id. apply negb_false_iff, String.eqb_eq in H_id. by subst.
  - by destruct d.
Qed.

(** Documents with distinct keys, none in the graph yet, add a Market node
    each. *)
Lemma count_market_run docs : forall g,
  Forall (fun md => importable md = true) docs ->
  NoDup (market_id_of <$> docs) ->
  (forall md, md ∈ docs -> match_nodes Market (market_id_of md) g = []) ->
  count_label Market (foldl document_step g docs) =
  (count_label Market g + length docs)%nat.
Proof.
  induction docs as [|d docs IH]; intros g Himp Hnd Hnew; simpl; [lia|].
  inversion Himp as [|? ? Hd Hds]; subst.
  rewrite fmap_cons in Hnd. apply NoDup_cons in Hnd as [Hnotin Hnd].
  rewrite IH; [| done | done |].
  - rewrite count_market_step by done.
    rewrite bool_decide_eq_true_2 by (apply Hnew; by left). lia.
  - intros md Hmd. rewrite match_nodes_market_step by done.
    rewrite bool_decide_eq_false_2.
    + apply Hnew. by right.
    + intros [Heq _]. apply Hnotin. rewrite Heq. by apply list_elem_of_fmap_2.
Qed.

(** C2, as the code has it.  A document with nothing to take a key from
    gets the empty string as key, and the caller imports it like any other:
    a Market node with the empty key is matched or created and the document
    is counted as processed.  A batch of importable documents with distinct
    keys, imported into an empty graph, leaves one Market node for each and
    reports all of them processed; a run that could start exits with
    status 0. *)
Theorem no_identifier_is_imported :
  (forall md,
     truthy (dict_get md "id" (VStr "")) = false ->
     truthy (dict_get md "_id" (VStr "")) = false ->
     market_id_of md = VStr "") /\
  (forall g md,
     market_id_of md = VStr "" -> is_ok (market_properties md) = true ->
     exists g1, create_market_node g md = Ok (g1, VStr "") /\
                match_nodes Market (VStr "") g1 <> [] /\
                forall c, processed (process_document (g, c) md).2 = S (processed c)) /\
  (forall docs bs,
     docs <> [] ->
     Forall (fun md => importable md = true) docs ->
     NoDup (market_id_of <$> docs) ->
     exists cc sc rc c,
       summary_of (import_markets_to_neo4j docs empty_graph bs).2 =
         Some (Summary (length docs) cc sc rc c (length docs)) /\
       processed c = length docs /\ markets_created c = length docs /\
       count_label Market (import_markets_to_neo4j docs empty_graph bs).1 = length docs) /\
  (forall w g, ready w -> exists g' out, main w g = (0, g', out)).
Proof.
  split_and!.
  - apply market_id_of_nothing.
  - intros g md Hid Hok.
    assert (Himp : importable md = true).
    { apply importable_true. split; [done|]. by rewrite Hid. }
    destruct (create_market_node_importable g md Himp) as [g1 E].
    rewrite Hid in E. exists g1. split; [done|]. split.
    + by eapply upsert_present.
    + intros c. by rewrite process_document_importable.
  - intros docs bs Hne Himp Hnd.
    assert (Hall : filter (fun md => importable md = true) docs = docs).
    { clear -Himp. induction Himp as [|d ds Hd Hds IH]; [done|].
      rewrite filter_cons, decide_True by done. by rewrite IH. }
    assert (Hcount : count_label Market (foldl document_step empty_graph docs) = length docs).
    { rewrite count_market_run; [done | done | done |]. intros md _. done. }
    destruct (import_markets_to_neo4j_out docs empty_graph bs Hne) as (ps & _ & E).
    pose proof (foldl_process_document_graph docs empty_graph no_stats) as Hg.
    pose proof (foldl_process_document_processed docs empty_graph no_stats) as Hp.
    pose proof (foldl_process_document_markets_created docs empty_graph no_stats) as Hm.
    destruct (foldl process_document (empty_graph, no_stats) docs) as [g' c].
    simpl in Hg, Hp, Hm. subst g'. rewrite E. simpl. rewrite Hall in Hp, Hm.
    rewrite Hcount. eexists _, _, _, c.
    rewrite app_comm_cons, summary_of_snoc. done.
  - intros w g Hr. destruct (main_runs w g Hr) as (sl & _ & E). eauto.
Qed.

(** ** Normalisation *)

Lemma volume_of_unparseable md d x :
  dict_get md "volume" (VInt 0) = VDict d ->
  lookup_item "$numberDouble" d = Some x ->
  py_float x = Raise ValueError \/ py_float x = Raise TypeError ->
  volume_of md ≫= volume_param = Ok float_zero.
Proof.
  intros Hv Hx Hraise. unfold volume_of. rewrite Hv, Hx.
  destruct (value_eqb x (VStr "Infinity")) eqn:E1.
  { apply value_eqb_eq in E1. subst. destruct Hraise; discriminate. }
  destruct (value_eqb x (VStr "-Infinity")) eqn:E2.
  { apply value_eqb_eq in E2. subst. destruct Hraise; discriminate. }
  destruct (value_eqb x (VStr "NaN")) eqn:E3.
  { apply value_eqb_eq in E3. subst. destruct Hraise; discriminate. }
  by destruct Hraise as [-> | ->].
Qed.

(** A document that does not reach the store is as good as absent from the
    source. *)
Lemma skipped_document ds1 md ds2 g :
  importable md = false ->
  foldl document_step g (ds1 ++ md :: ds2) = foldl document_step g (ds1 ++ ds2).
Proof.
  intros H. rewrite !foldl_app. simpl. by rewrite document_step_not_importable.
Qed.

(** A plain string that [float] refuses gets to the conversion in the call
    of the upsert, which no [try] guards; so does a [commentCount] that
    [int] refuses. *)
Lemma market_properties_plain_volume md s :
  dict_get md "volume" (VInt 0) = VStr s -> s <> "" -> float_of_string s = None ->
  is_ok (market_properties md) = false.
Proof.
  intros Hv Hs Hf. unfold market_properties, volume_of. rewrite Hv. simpl.
  destruct (parse_date (dict_get_none md "startDate")); [|done]. simpl.
  destruct (parse_date (dict_get_none md "endDate")); [|done]. simpl.
  destruct (created_at_of md); [|done]. simpl.
  destruct (parse_date (dict_get_none md "closedTime")); [|done]. simpl.
  unfold volume_param. simpl. apply String.eqb_neq in Hs. rewrite Hs. simpl.
  by rewrite Hf.
Qed.

Lemma market_properties_plain_comment_count md s :
  dict_get md "commentCount" (VInt 0) = VStr s -> s <> "" -> int_of_string s = None ->
  is_ok (market_properties md) = false.
Proof.
  intros Hv Hs Hf. unfold market_properties.
  destruct (volume_of md); [|done]. simpl.
  destruct (parse_date (dict_get_none md "startDate")); [|done]. simpl.
  destruct (parse_date (dict_get_none md "endDate")); [|done]. simpl.
  destruct (created_at_of md); [|done]. simpl.
  destruct (parse_date (dict_get_none md "closedTime")); [|done]. simpl.
  destruct (volume_param _); [|done]. simpl.
  rewrite Hv. unfold comment_count_param. simpl.
  apply String.eqb_neq in Hs. rewrite Hs. simpl. by rewrite Hf.
Qed.

Lemma not_ok_not_importable md :
  is_ok (market_properties md) = false -> importable md = false.
Proof. intros H. unfold importable. by rewrite H. Qed.

(** C3.  The two paths of a number that does not parse.  Take a text [s],
    not empty, that [float] refuses.  Boxed as [{"$numberDouble": s}] it is
    caught by the [try] of the unboxing and the volume is [0.0], as the claim
    has it.  As the plain value of [volume] nothing catches it:
    [float(volume)] among the arguments of the upsert raises, and so does
    [int(comment_count)] on a [commentCount] that [int] refuses.  The
    exception leaves [create_market_node]; the loop drops the document,
    graph and counters stay as they were, and the run ends as if the document
    had not been in the source.  So it is for [{"id": "m2", "volume":
    "abc"}]: no node, no counter, where [{"id": "m4", "volume":
    {"$numberDouble": "abc"}}] gets its node with volume [0.0]. *)
Theorem normalization_failures :
  (forall md d s,
     dict_get md "volume" (VInt 0) = VDict d ->
     lookup_item "$numberDouble" d = Some (VStr s) ->
     float_of_string s = None ->
     volume_of md ≫= volume_param = Ok float_zero) /\
  (forall md s,
     dict_get md "volume" (VInt 0) = VStr s -> s <> "" -> float_of_string s = None ->
     is_ok (market_properties md) = false) /\
  (forall md s,
     dict_get md "commentCount" (VInt 0) = VStr s -> s <> "" -> int_of_string s = None ->
     is_ok (market_properties md) = false) /\
  (forall md, is_ok (market_properties md) = false ->
     forall g c,
       (exists e, create_market_node g md = Raise e) /\
       process_document (g, c) md = (g, c) /\
       forall ds1 ds2 bs,
         (import_markets_to_neo4j (ds1 ++ md :: ds2) g bs).1 =
         (import_markets_to_neo4j (ds1 ++ ds2) g bs).1) /\
  (create_market_node empty_graph doc_bad_volume = Raise ValueError /\
   create_market_node empty_graph doc_bad_comment_count = Raise ValueError /\
   summary_of (import_markets_to_neo4j [doc_bad_volume] empty_graph 100).2 =
     Some (Summary 0 0 0 0 (Stats 0 0 0 0) 1) /\
   exists g1 n,
     create_market_node empty_graph doc_bad_box = Ok (g1, VStr "m4") /\
     g_nodes g1 !! 0%nat = Some n /\
     n_props n !! "volume" = Some (VFloat float_zero)).
Proof.
  split_and!.
  - intros md d s Hv Hs Hf. apply (volume_of_unparseable md d (VStr s) Hv Hs).
    left. simpl. by rewrite Hf.
  - apply market_properties_plain_volume.
  - apply market_properties_plain_comment_count.
  - intros md Hno g c. apply not_ok_not_importable in Hno.
    split_and!.
    + apply (create_market_node_not_importable g md Hno).
    + by apply process_document_not_importable.
    + intros ds1 ds2 bs. rewrite !import_markets_to_neo4j_graph.
      by apply skipped_document.
  - by vm_compute.
  - by vm_compute.
  - by vm_compute.
  - eexists _, _. split; [by vm_compute|]. split; by vm_compute.
Qed.

(** ** Starting and ending a run *)

(** C8, as the code has it.  The graph store is probed up to 30 times, with
    2 seconds of sleep after every failed probe but the last, and with these
    settings [connect_neo4j] always returns; the document store is asked
    once.  When a setting is missing or a store does not
    answer, [main] exits with status 1, having written nothing and done no
    more than sleep.  Otherwise it exits with status 0, with the statistics
    summary as its last output when the source holds a document, and with
    the warning of an empty source and no summary when it holds none. *)
Theorem connection_policy :
  (forall answers, exists ok out, connect_neo4j answers 30 2 = Ok (ok, out)) /\
  (forall answers ok out,
     connect_neo4j answers 30 2 = Ok (ok, out) ->
     out = replicate (length out) (Slept 2) /\ (length out <= 29)%nat /\
     (forall i, 1 <= i <= Z.of_nat (length out) -> answers i = false) /\
     (ok = true <-> answers_within answers 30) /\
     (ok = false -> length out = 29%nat)) /\
  (forall w, connect_mongodb w = is_set (env w) "MONGO_URI" && mongo_answers w) /\
  (forall w g, ~ ready w ->
     exists out, main w g = (1, g, out) /\ forallb is_sleep out = true) /\
  (forall w g, ready w -> source w <> [] ->
     exists g' out m c s r counters,
       main w g = (0, g', out) /\
       summary_of out = Some (Summary m c s r counters (length (source w)))) /\
  (forall w g, ready w -> source w = [] ->
     exists out, main w g = (0, cleared w g, out) /\
                 last out = Some NoDocuments /\ summary_of out = None).
Proof.
  split_and!.
  - apply connect_neo4j_default.
  - intros answers ok out E.
    destruct (connect_neo4j_spec _ _ _ _ _ E) as (Hrep & Hlen & Hfalse & Hok & _ & Hfail).
    split_and!; [done | lia | done | done |].
    intros Hno. specialize (Hfail Hno). lia.
  - done.
  - apply main_aborts.
  - intros w g Hr Hsrc. destruct (main_runs w g Hr) as (sl & _ & E).
    destruct (import_markets_to_neo4j_out (source w) (cleared w g) 100 Hsrc)
      as (ps & _ & Himp).
    destruct (foldl process_document (cleared w g, no_stats) (source w)) as [g' c].
    rewrite Himp in E. simpl in E. rewrite E.
    eexists _, _, _, _, _, _, _. split; [done|].
    rewrite !app_assoc, app_comm_cons, !app_assoc. apply summary_of_snoc.
  - intros w g Hr Hsrc. destruct (main_runs w g Hr) as (sl & _ & E).
    rewrite Hsrc, import_markets_to_neo4j_empty in E. simpl in E.
    eexists. split; [exact E|].
    rewrite !app_assoc. unfold summary_of. by rewrite last_snoc.
Qed.

(** * Beyond one call: what a run keeps

    ** Nothing is taken away *)

Lemma grows_refl g : grows g g.
Proof. split; [|done]. intros i n Hn. exists n. by repeat split. Qed.

Lemma merge_rel_prefix t a b g : g_rels g `prefix_of` g_rels (merge_rel t a b g).
Proof.
  unfold merge_rel. destruct (bool_decide _); [done|]. by apply prefix_app_r.
Qed.

Lemma merge_rels_prefix t ms cs : forall g, g_rels g `prefix_of` g_rels (merge_rels t ms cs g).
Proof.
  unfold merge_rels. induction ms as [|m ms IH]; intros g; simpl; [done|].
  etrans; [|apply IH]. clear IH. revert g.
  induction cs as [|c cs IH]; intros g; simpl; [done|].
  etrans; [apply merge_rel_prefix | apply IH].
Qed.

Lemma grows_trans g1 g2 g3 : grows g1 g2 -> grows g2 g3 -> grows g1 g3.
Proof.
  intros [Hn12 Hr12] [Hn23 Hr23]. split; [|by etrans].
  intros i n Hn. destruct (Hn12 i n Hn) as (n2 & H2 & Hl2 & Hk2 & He2).
  destruct (Hn23 i n2 H2) as (n3 & H3 & Hl3 & Hk3 & He3).
  exists n3. split; [done|]. split; [congruence|]. split.
  - rewrite Hl2 in Hk3. by rewrite Hk3.
  - intros Hne. rewrite He3 by congruence. auto.
Qed.

Lemma grows_merge_node l v g : grows g (merge_node l v g).1.
Proof.
  unfold merge_node. destruct (match_nodes l v g); [|apply grows_refl].
  split; [|done]. intros i n Hn. exists n. simpl.
  split; [by apply lookup_app_l_Some | done].
Qed.

Lemma grows_update_nodes kvs ms g :
  (forall i n, i ∈ ms -> g_nodes g !! i = Some n -> n_label n = Market) ->
  "id" ∉ kvs.*1 ->
  grows g (update_nodes (set_props kvs) ms g).
Proof.
  intros Hms Hid. split; [|done]. intros i n Hn.
  rewrite update_nodes_lookup, Hn. simpl.
  destruct (decide (i ∈ ms)) as [Hin|Hout].
  - rewrite bool_decide_eq_true_2 by done. eexists. split; [done|].
    pose proof (Hms i n Hin Hn) as Hl. simpl. split; [done|]. split; [|congruence].
    rewrite Hl. simpl. by apply foldl_set_prop_other.
  - rewrite bool_decide_eq_false_2 by done. exists n. by repeat split.
Qed.

Lemma grows_merge_rels t ms cs g : grows g (merge_rels t ms cs g).
Proof.
  split.
  - intros i n Hn. exists n. rewrite merge_rels_nodes. by repeat split.
  - apply merge_rels_prefix.
Qed.

Lemma grows_link l t k v g : grows g (cypher_link l t k v g).
Proof.
  unfold cypher_link. destruct (match_nodes Market k g); [apply grows_refl|].
  pose proof (grows_merge_node l v g) as H.
  destruct (merge_node l v g) as [g1 cs]. simpl in H.
  eapply grows_trans; [exact H | apply grows_merge_rels].
Qed.

Lemma grows_upsert g md g' k : create_market_node g md = Ok (g', k) -> grows g g'.
Proof.
  intros E. apply create_market_node_ok in E as (kvs & Hkvs & -> & Hk & ->).
  eapply grows_trans; [apply grows_merge_node|].
  apply grows_update_nodes.
  - intros i n. by apply merge_node_market_labels.
  - by eapply market_properties_no_id.
Qed.

Lemma grows_linked_graph g1 k md : grows g1 (linked_graph g1 k md).
Proof.
  unfold linked_graph, create_category_relationship, create_series_relationship.
  destruct (truthy (dict_get_none md "category"));
    destruct (truthy (dict_get_none md "seriesSlug")); simpl;
    eauto using grows_trans, grows_refl, grows_link.
Qed.

Lemma grows_document_step g md : grows g (document_step g md).
Proof.
  destruct (create_market_node g md) as [[g1 k]|e] eqn:E.
  - rewrite (document_step_ok _ _ _ _ E).
    eapply grows_trans; [by eapply grows_upsert | apply grows_linked_graph].
  - rewrite (document_step_raise _ _ _ E). apply grows_refl.
Qed.

Lemma grows_foldl_document_step ds : forall g, grows g (foldl document_step g ds).
Proof.
  induction ds as [|d ds IH]; intros g; simpl; [apply grows_refl|].
  eapply grows_trans; [apply grows_document_step | apply IH].
Qed.

Lemma grows_count_label g g' l : grows g g' -> (count_label l g <= count_label l g')%nat.
Proof.
  intros [Hn _]. rewrite !count_label_labels.
  assert (Hpre : exists rest, n_label <$> g_nodes g' = (n_label <$> g_nodes g) ++ rest).
  { exists (drop (length (g_nodes g)) (n_label <$> g_nodes g')).
    rewrite <- (take_drop (length (g_nodes g)) (n_label <$> g_nodes g')) at 1.
    f_equal. apply list_eq. intros i. rewrite lookup_take.
    case_decide as Hlt.
    - destruct (lookup_lt_is_Some_2 (g_nodes g) i Hlt) as [n Hi].
      destruct (Hn i n Hi) as (n' & Hi' & Hl & _).
      rewrite !list_lookup_fmap, Hi, Hi'. simpl. by rewrite Hl.
    - symmetry. apply lookup_ge_None. rewrite length_fmap. lia. }
  destruct Hpre as [rest ->]. rewrite filter_app, length_app. lia.
Qed.

(** X1.  An import takes nothing away.  Every node the graph held is still
    at its position with its label and its key, a Category or Series node
    with all its properties; every relationship is still there; no count of
    nodes or relationships goes down; and a pattern that matched matches the
    same nodes. *)
Theorem import_keeps_the_graph (docs : list document) (g : graph) (bs : Z) :
  let g' := (import_markets_to_neo4j docs g bs).1 in
  grows g g' /\
  (forall r, r ∈ g_rels g -> r ∈ g_rels g') /\
  (forall l, (count_label l g <= count_label l g')%nat) /\
  (count_rels g <= count_rels g')%nat /\
  (forall l v, match_nodes l v g <> [] -> match_nodes l v g' = match_nodes l v g).
Proof.
  intros g'. subst g'. rewrite import_markets_to_neo4j_graph.
  pose proof (grows_foldl_document_step docs g) as Hg.
  pose proof (foldl_document_step_extends docs g) as [Hm Hr].
  split_and!; [done | done | intros l; by apply grows_count_label | | done].
  destruct Hg as [_ Hp]. by apply prefix_length.
Qed.

(** ** The structure is kept *)

Lemma typed_rels_well_formed g : typed_rels g -> well_formed g.
Proof.
  intros H r Hr. destruct (H r Hr) as (a & b & Ha & Hb & _).
  split; by eapply lookup_lt_Some.
Qed.

Lemma typed_rels_empty : typed_rels empty_graph.
Proof. intros r Hr. inversion Hr. Qed.

Lemma keyed_empty : keyed empty_graph.
Proof. intros n Hn. inversion Hn. Qed.

(** Old relationships keep their types in a graph that grew; the new ones
    have to bring theirs. *)
Lemma typed_rels_grows g g' :
  grows g g' -> typed_rels g ->
  (forall r, r ∈ g_rels g' -> r ∉ g_rels g ->
     exists a b, g_nodes g' !! r_src r = Some a /\ g_nodes g' !! r_dst r = Some b /\
                 n_label a = Market /\ n_label b = target_label (r_type r)) ->
  typed_rels g'.
Proof.
  intros [Hn _] Ht Hnew r Hr.
  destruct (decide (r ∈ g_rels g)) as [Hold|Hfresh]; [|by apply Hnew].
  destruct (Ht r Hold) as (a & b & Ha & Hb & Hla & Hlb).
  destruct (Hn _ _ Ha) as (a' & Ha' & Hla' & _).
  destruct (Hn _ _ Hb) as (b' & Hb' & Hlb' & _).
  exists a', b'. split_and!; congruence.
Qed.

Lemma typed_rels_upsert g md g' k :
  create_market_node g md = Ok (g', k) -> typed_rels g -> typed_rels g'.
Proof.
  intros E Ht. eapply typed_rels_grows; [by eapply grows_upsert | done |].
  intros r Hr Hnot. by rewrite (upsert_rels _ _ _ _ E) in Hr.
Qed.

Lemma typed_rels_link t k v g :
  v <> VNone -> typed_rels g -> typed_rels (cypher_link (target_label t) t k v g).
Proof.
  intros Hv Ht. eapply typed_rels_grows; [apply grows_link | done |].
  intros r Hr Hnot.
  destruct (decide (match_nodes Market k g = [])) as [Hnil|Hsome].
  { by rewrite cypher_link_absent in Hr. }
  rewrite cypher_link_eq in Hr |- * by done.
  apply merge_rels_elem in Hr as [Hr|(a & b & Ha & Hb & ->)].
  { by rewrite merge_node_rels in Hr. }
  rewrite merge_rels_nodes. simpl.
  rewrite <- (match_nodes_merge_node_keep (target_label t) v) in Ha by done.
  rewrite merge_node_matches in Hb by done.
  destruct (lookup_lt_is_Some_2 _ _ (match_nodes_lt _ _ _ _ Ha)) as [na Hna].
  destruct (lookup_lt_is_Some_2 _ _ (match_nodes_lt _ _ _ _ Hb)) as [nb Hnb].
  exists na, nb. split_and!; [done | done | by eapply match_nodes_label..].
Qed.

Lemma typed_rels_linked_graph g1 k md : typed_rels g1 -> typed_rels (linked_graph g1 k md).
Proof.
  intros Ht. unfold linked_graph.
  set (c := dict_get_none md "category"). set (s := dict_get_none md "seriesSlug").
  assert (H2 : typed_rels (if truthy c then create_category_relationship g1 k c else g1)).
  { destruct (truthy c) eqn:Hc; [|done].
    rewrite create_category_relationship_eq by done.
    apply (typed_rels_link BELONGS_TO); [by apply truthy_not_none | done]. }
  destruct (truthy s) eqn:Hs; [|done].
  rewrite create_series_relationship_eq by done.
  apply (typed_rels_link IN_SERIES); [by apply truthy_not_none | done].
Qed.

Lemma keyed_merge_node l v g : keyed g -> keyed (merge_node l v g).1.
Proof.
  intros Hk. unfold merge_node. destruct (match_nodes l v g); [|done]. simpl.
  intros n [Hn|Hn]%elem_of_app; [by apply Hk|].
  apply list_elem_of_singleton in Hn as ->. simpl. by rewrite lookup_singleton_eq.
Qed.

Lemma keyed_grows g g' :
  grows g g' -> length (g_nodes g') = length (g_nodes g) -> keyed g -> keyed g'.
Proof.
  intros [Hn _] Hlen Hk n' Hin. apply list_elem_of_lookup in Hin as [i Hi].
  destruct (lookup_lt_is_Some_2 (g_nodes g) i) as [n Hn0].
  { rewrite <- Hlen. by eapply lookup_lt_Some. }
  destruct (Hn i n Hn0) as (n'' & Hi'' & Hl & Hkey & _).
  assert (n'' = n') as -> by congruence.
  rewrite Hl, Hkey. apply Hk. by eapply list_elem_of_lookup_2.
Qed.

Lemma keyed_upsert g md g' k :
  create_market_node g md = Ok (g', k) -> keyed g -> keyed g'.
Proof.
  intros E Hk. apply create_market_node_ok in E as (kvs & Hkvs & -> & Hn & ->).
  eapply keyed_grows; [| apply update_nodes_length | by apply keyed_merge_node].
  apply grows_update_nodes.
  - intros i n. by apply merge_node_market_labels.
  - by eapply market_properties_no_id.
Qed.

Lemma keyed_link l t k v g : keyed g -> keyed (cypher_link l t k v g).
Proof.
  intros Hk. unfold cypher_link. destruct (match_nodes Market k g); [done|].
  pose proof (keyed_merge_node l v g Hk) as H.
  destruct (merge_node l v g) as [g1 cs]. simpl in H.
  eapply keyed_grows; [apply grows_merge_rels | by rewrite merge_rels_nodes | done].
Qed.

Lemma keyed_linked_graph g1 k md : keyed g1 -> keyed (linked_graph g1 k md).
Proof.
  intros Hk. unfold linked_graph, create_category_relationship, create_series_relationship.
  destruct (truthy (dict_get_none md "category"));
    destruct (truthy (dict_get_none md "seriesSlug")); simpl;
    auto using keyed_link.
Qed.

Lemma document_step_structure g md :
  typed_rels g /\ keyed g -> typed_rels (document_step g md) /\ keyed (document_step g md).
Proof.
  intros [Ht Hk]. destruct (create_market_node g md) as [[g1 k]|e] eqn:E.
  - rewrite (document_step_ok _ _ _ _ E). split.
    + by eapply typed_rels_linked_graph, typed_rels_upsert.
    + by eapply keyed_linked_graph, keyed_upsert.
  - by rewrite (document_step_raise _ _ _ E).
Qed.

Lemma foldl_document_step_structure ds : forall g,
  typed_rels g /\ keyed g ->
  typed_rels (foldl document_step g ds) /\ keyed (foldl document_step g ds).
Proof.
  induction ds as [|d ds IH]; intros g H; simpl; [done|].
  by apply IH, document_step_structure.
Qed.

(** X2.  An import keeps the graph in the structure the script documents.
    If every relationship goes from a Market node to a node of the label its
    type asks ([BELONGS_TO] a Category, [IN_SERIES] a Series), no two nodes
    share a label and a key, and every node has its key property, then the
    same holds after the import, whatever the documents; so the uniqueness
    constraints the import declares are never violated by its own writes. *)
Theorem import_keeps_the_structure (docs : list document) (g : graph) (bs : Z) :
  typed_rels g -> unique_keys g -> keyed g ->
  let g' := (import_markets_to_neo4j docs g bs).1 in
  typed_rels g' /\ unique_keys g' /\ keyed g' /\ well_formed g'.
Proof.
  intros Ht Hu Hk g'. subst g'. rewrite import_markets_to_neo4j_graph.
  destruct (foldl_document_step_structure docs g) as [Ht' Hk']; [done|].
  destruct (foldl_document_step_invariants docs g) as [Hwf' Hu'].
  { split; [by apply typed_rels_well_formed | done]. }
  done.
Qed.

(** ** Every document is there at the end *)

(** A node answers to one key only. *)
Lemma match_nodes_one_key l v v' g i :
  i ∈ match_nodes l v g -> i ∈ match_nodes l v' g -> v = v'.
Proof.
  unfold match_nodes. rewrite !positions_from_elem, Nat.sub_0_r.
  intros [_ (n & Hn & Hp)] [_ (n' & Hn' & Hp')].
  assert (n' = n) as -> by congruence.
  unfold node_matches in Hp, Hp'.
  apply andb_true_iff in Hp as [_ Hp]. apply andb_true_iff in Hp' as [_ Hp'].
  destruct (n_props n !! key_name l) as [w|].
  - assert (value_eqb w v = true) as Hv by (by destruct v).
    assert (value_eqb w v' = true) as Hv' by (by destruct v').
    apply value_eqb_eq in Hv, Hv'. congruence.
  - by destruct v.
Qed.

Lemma import_covers docs g bs md :
  md ∈ docs -> covered md (import_markets_to_neo4j docs g bs).1.
Proof.
  intros Hin. rewrite import_markets_to_neo4j_graph.
  pose proof (foldl_document_step_covers docs g) as H.
  rewrite Forall_forall in H. by apply H.
Qed.

(** X3.  Nothing a document asks for is missing at the end of the run.  For
    every document of the source that reaches the store, the graph the
    import leaves has a Market node of its key, a Category node of its
    category with a [BELONGS_TO] relationship from every Market node of the
    key, and likewise a Series node and [IN_SERIES] for its series slug,
    whatever documents came before or after it. *)
Theorem import_covers_every_document (docs : list document) (g : graph) (bs : Z)
    (md : document) :
  md ∈ docs -> importable md = true ->
  let g' := (import_markets_to_neo4j docs g bs).1 in
  let k := market_id_of md in
  let c := dict_get_none md "category" in
  let s := dict_get_none md "seriesSlug" in
  match_nodes Market k g' <> [] /\
  (truthy c = true ->
     match_nodes Category c g' <> [] /\
     forall a b, a ∈ match_nodes Market k g' -> b ∈ match_nodes Category c g' ->
       Rel a BELONGS_TO b ∈ g_rels g') /\
  (truthy s = true ->
     match_nodes Series s g' <> [] /\
     forall a b, a ∈ match_nodes Market k g' -> b ∈ match_nodes Series s g' ->
       Rel a IN_SERIES b ∈ g_rels g').
Proof.
  intros Hin Himp. apply importable_true in Himp as [Hok Hk].
  exact (import_covers docs g bs md Hin Hok Hk).
Qed.

(** X4.  A link is never replaced.  When two documents of the source carry
    the same key and name two different categories, the Market node of that
    key ends the run with a [BELONGS_TO] relationship to each of the two
    Category nodes: the later document adds its category and leaves the
    earlier one in place. *)
Theorem import_keeps_earlier_category (docs : list document) (g : graph) (bs : Z)
    (d1 d2 : document) :
  d1 ∈ docs -> d2 ∈ docs -> importable d1 = true -> importable d2 = true ->
  market_id_of d1 = market_id_of d2 ->
  truthy (dict_get_none d1 "category") = true ->
  truthy (dict_get_none d2 "category") = true ->
  dict_get_none d1 "category" <> dict_get_none d2 "category" ->
  let g' := (import_markets_to_neo4j docs g bs).1 in
  exists a b1 b2,
    a ∈ match_nodes Market (market_id_of d1) g' /\
    b1 ∈ match_nodes Category (dict_get_none d1 "category") g' /\
    b2 ∈ match_nodes Category (dict_get_none d2 "category") g' /\
    b1 <> b2 /\
    Rel a BELONGS_TO b1 ∈ g_rels g' /\ Rel a BELONGS_TO b2 ∈ g_rels g'.
Proof.
  intros H1 H2 Hi1 Hi2 Hkey Hc1 Hc2 Hne g'.
  apply importable_true in Hi1 as [Hok1 Hk1]. apply importable_true in Hi2 as [Hok2 Hk2].
  destruct (import_covers docs g bs d1 H1 Hok1 Hk1) as (Hm & Hl1 & _).
  destruct (import_covers docs g bs d2 H2 Hok2 Hk2) as (_ & Hl2 & _).
  destruct (Hl1 Hc1) as [Hn1 Hr1]. destruct (Hl2 Hc2) as [Hn2 Hr2].
  fold g' in Hm, Hn1, Hr1, Hn2, Hr2. rewrite <- Hkey in Hr2.
  destruct (match_nodes Market (market_id_of d1) g') as [|a ms] eqn:Ea; [done|].
  destruct (match_nodes Category (dict_get_none d1 "category") g') as [|b1 cs1] eqn:E1; [done|].
  destruct (match_nodes Category (dict_get_none d2 "category") g') as [|b2 cs2] eqn:E2; [done|].
  exists a, b1, b2. split_and!; try by left.
  - intros <-. apply Hne. apply (match_nodes_one_key Category _ _ g' b1).
    + rewrite E1. by left.
    + rewrite E2. by left.
  - apply Hr1; by left.
  - apply Hr2; by left.
Qed.

(** ** The last document of a key wins *)

Lemma merge_node_nodes_prefix l v g : g_nodes g `prefix_of` g_nodes (merge_node l v g).1.
Proof.
  unfold merge_node. destruct (match_nodes l v g); [|done]. by apply prefix_app_r.
Qed.

Lemma cypher_link_nodes_prefix l t k v g : g_nodes g `prefix_of` g_nodes (cypher_link l t k v g).
Proof.
  unfold cypher_link. destruct (match_nodes Market k g); [done|].
  pose proof (merge_node_nodes_prefix l v g) as H.
  destruct (merge_node l v g) as [g1 cs]. by rewrite merge_rels_nodes.
Qed.

Lemma linked_graph_nodes_prefix g1 k md : g_nodes g1 `prefix_of` g_nodes (linked_graph g1 k md).
Proof.
  unfold linked_graph, create_category_relationship, create_series_relationship.
  destruct (truthy (dict_get_none md "category"));
    destruct (truthy (dict_get_none md "seriesSlug")); simpl; try done;
    try apply cypher_link_nodes_prefix.
  etrans; apply cypher_link_nodes_prefix.
Qed.

Lemma linked_graph_lookup g1 k md i n :
  g_nodes g1 !! i = Some n -> g_nodes (linked_graph g1 k md) !! i = Some n.
Proof.
  intros Hn. destruct (linked_graph_nodes_prefix g1 k md) as [rest ->].
  by apply lookup_app_l_Some.
Qed.

(** After a document every Market node of its key holds the document's
    values. *)
Lemma document_step_properties g md kvs i n name v :
  importable md = true -> market_properties md = Ok kvs ->
  i ∈ match_nodes Market (market_id_of md) (document_step g md) ->
  g_nodes (document_step g md) !! i = Some n -> (name, v) ∈ kvs ->
  n_props n !! name = stored v.
Proof.
  intros Himp Hkvs Hi Hn Hin.
  destruct (create_market_node_importable g md Himp) as [g1 E].
  rewrite (document_step_ok _ _ _ _ E) in Hi, Hn.
  rewrite match_nodes_linked_graph_market in Hi.
  destruct (lookup_lt_is_Some_2 _ _ (match_nodes_lt _ _ _ _ Hi)) as [n1 Hn1].
  rewrite (linked_graph_lookup _ _ _ _ _ Hn1) in Hn. injection Hn as <-.
  by eapply upsert_properties.
Qed.

(** A document of another key leaves the Market nodes of a key as they
    are. *)
Lemma document_step_other_key g md k i :
  market_id_of md <> k -> i ∈ match_nodes Market k g ->
  g_nodes (document_step g md) !! i = g_nodes g !! i.
Proof.
  intros Hne Hi.
  destruct (lookup_lt_is_Some_2 _ _ (match_nodes_lt _ _ _ _ Hi)) as [n Hn].
  destruct (create_market_node g md) as [[g1 k1]|e] eqn:E.
  2:{ by rewrite (document_step_raise _ _ _ E). }
  rewrite (document_step_ok _ _ _ _ E), Hn. apply linked_graph_lookup.
  apply create_market_node_ok in E as (kvs & Hkvs & -> & Hk & ->).
  rewrite update_nodes_lookup.
  assert (Hn0 : g_nodes (merge_node Market (market_id_of md) g).1 !! i = Some n).
  { destruct (merge_node_nodes_prefix Market (market_id_of md) g) as [rest ->].
    by apply lookup_app_l_Some. }
  rewrite Hn0. simpl. rewrite bool_decide_eq_false_2; [done|].
  rewrite merge_node_matches by done. intros Hi'. apply Hne.
  apply (match_nodes_one_key Market _ _ (merge_node Market (market_id_of md) g).1 i);
    [done|].
  rewrite match_nodes_merge_node_keep; [done | done |]. intros Hnil.
  rewrite Hnil in Hi. inversion Hi.
Qed.

Lemma foldl_document_step_other_keys ds k : forall g i,
  (forall d, d ∈ ds -> importable d = true -> market_id_of d <> k) ->
  i ∈ match_nodes Market k g ->
  g_nodes (foldl document_step g ds) !! i = g_nodes g !! i.
Proof.
  induction ds as [|d ds IH]; intros g i Hds Hi; simpl; [done|].
  destruct (importable d) eqn:Himp.
  - rewrite IH.
    + apply (document_step_other_key g d k); [|done]. apply Hds; [by left | done].
    + intros d' Hd'. apply Hds. by right.
    + destruct (document_step_extends g d) as [Hm _]. rewrite Hm; [done|].
      intros Hnil. rewrite Hnil in Hi. inversion Hi.
  - rewrite document_step_not_importable by done. apply IH; [|done].
    intros d' Hd'. apply Hds. by right.
Qed.

(** X5.  Within a run the last document of a key decides the properties of
    its Market node.  When no later document that reaches the store carries
    the key of [md], every Market node of that key ends the run holding, for
    each property of the upsert, the value [md] gave it, and lacking the
    property when that value is null. *)
Theorem last_document_wins (ds1 ds2 : list document) (md : document) (g : graph)
    (bs : Z) (kvs : list (string * value)) :
  importable md = true -> market_properties md = Ok kvs ->
  (forall d, d ∈ ds2 -> importable d = true -> market_id_of d <> market_id_of md) ->
  let g' := (import_markets_to_neo4j (ds1 ++ md :: ds2) g bs).1 in
  match_nodes Market (market_id_of md) g' <> [] /\
  forall i n name v,
    i ∈ match_nodes Market (market_id_of md) g' -> g_nodes g' !! i = Some n ->
    (name, v) ∈ kvs -> n_props n !! name = stored v.
Proof.
  intros Himp Hkvs Hlater g'. subst g'.
  rewrite import_markets_to_neo4j_graph, foldl_app. cbn [foldl].
  set (g0 := foldl document_step g ds1).
  pose proof (document_step_covers g0 md) as Hcov.
  pose proof Himp as Himp'. apply importable_true in Himp' as [Hok Hk].
  destruct (Hcov Hok Hk) as (Hm & _).
  destruct (foldl_document_step_extends ds2 (document_step g0 md)) as [Hext _].
  rewrite (Hext _ _ Hm). split; [done|].
  intros i n name v Hi Hn Hin.
  rewrite (foldl_document_step_other_keys ds2 (market_id_of md)) in Hn by done.
  by eapply document_step_properties.
Qed.

(** ** Counting what a run adds *)

Section Census.
Context {St Doc Key : Type}.
Variables (step : St -> Doc -> St) (size : St -> nat) (key : Doc -> option Key).
Variables (fresh : Key -> St -> bool) (eqb : Key -> Key -> bool) (Inv : St -> Prop).
Hypothesis eqb_eq : forall x y, eqb x y = true <-> x = y.
Hypothesis Inv_step : forall s d, Inv s -> Inv (step s d).
Hypothesis size_step : forall s d, Inv s ->
  size (step s d) =
  (size s + match key d with
            | Some k => if fresh k s then 1 else 0
            | None => 0
            end)%nat.
Hypothesis fresh_step : forall s d k, Inv s ->
  fresh k (step s d) =
  fresh k s && negb match key d with
                    | Some k' => eqb k' k
                    | None => false
                    end.

Lemma existsb_eqb_elem k l : existsb (eqb k) l = true <-> k ∈ l.
Proof.
  rewrite existsb_exists. split.
  - intros (x & Hx & He). apply eqb_eq in He as ->. by apply list_elem_of_In.
  - intros H. exists k. split; [by apply list_elem_of_In | by apply eqb_eq].
Qed.

Lemma elem_of_distinct k l : k ∈ distinct eqb l <-> k ∈ l.
Proof.
  induction l as [|x l IH]; simpl; [done|].
  destruct (existsb (eqb x) l) eqn:E.
  - rewrite IH, elem_of_cons. split; [by right|]. intros [->|?]; [|done].
    by apply existsb_eqb_elem.
  - by rewrite !elem_of_cons, IH.
Qed.

Lemma NoDup_distinct l : NoDup (distinct eqb l).
Proof.
  induction l as [|x l IH]; simpl; [constructor|].
  destruct (existsb (eqb x) l) eqn:E; [done|].
  constructor; [|done]. rewrite elem_of_distinct, <- existsb_eqb_elem. by rewrite E.
Qed.

Lemma filter_without_absent (p : Key -> bool) k l :
  k ∉ l -> List.filter (fun x => p x && negb (eqb k x)) l = List.filter p l.
Proof.
  induction l as [|x l IH]; intros Hk; simpl; [done|].
  apply not_elem_of_cons in Hk as [Hne Hk]. rewrite IH by done.
  assert (eqb k x = false) as ->; [|by rewrite andb_true_r].
  destruct (eqb k x) eqn:E; [|done]. by apply eqb_eq in E.
Qed.

Lemma filter_without_present (p : Key -> bool) k l :
  NoDup l -> k ∈ l ->
  length (List.filter p l) =
  (length (List.filter (fun x => p x && negb (eqb k x)) l) + if p k then 1 else 0)%nat.
Proof.
  induction l as [|x l IH]; intros Hnd Hk; [inversion Hk|].
  apply NoDup_cons in Hnd as [Hx Hnd]. simpl.
  apply elem_of_cons in Hk as [<-|Hk].
  - assert (eqb k k = true) as -> by (by apply eqb_eq).
    rewrite andb_false_r, filter_without_absent by done.
    destruct (p k); simpl; lia.
  - assert (eqb k x = false) as ->.
    { destruct (eqb k x) eqn:E; [|done]. apply eqb_eq in E as ->. done. }
    rewrite andb_true_r. destruct (p x); simpl; rewrite IH by done; lia.
Qed.

(** A run adds one for each key it brings that was not there, counted
    once. *)
Lemma census ds : forall s,
  Inv s ->
  size (foldl step s ds) =
  (size s + length (List.filter (fun k => fresh k s) (distinct eqb (omap key ds))))%nat.
Proof.
  induction ds as [|d ds IH]; intros s Hs; [simpl; lia|].
  cbn [foldl]. rewrite IH, size_step by auto.
  rewrite (List.filter_ext _ _ (fun k => fresh_step s d k Hs)).
  change (omap key (d :: ds))
    with (match key d with Some y => y :: omap key ds | None => omap key ds end).
  destruct (key d) as [k|].
  2:{ rewrite (List.filter_ext _ (fun k => fresh k s)); [lia|].
      intros k. simpl. by rewrite andb_true_r. }
  cbn [distinct]. destruct (existsb (eqb k) (omap key ds)) eqn:E.
  - rewrite (filter_without_present (fun k => fresh k s) k (distinct eqb (omap key ds))).
    + lia.
    + apply NoDup_distinct.
    + by apply elem_of_distinct, existsb_eqb_elem.
  - simpl. rewrite filter_without_absent.
    + destruct (fresh k s); simpl; lia.
    + rewrite elem_of_distinct, <- existsb_eqb_elem. by rewrite E.
Qed.
End Census.

Lemma unseen_nil l g v : unseen l g v = true <-> match_nodes l v g = [].
Proof. unfold unseen. by destruct (match_nodes l v g). Qed.

Lemma unseen_decide l g v : unseen l g v = bool_decide (match_nodes l v g = []).
Proof. unfold unseen. by destruct (match_nodes l v g). Qed.

Lemma value_eqb_decide v w : value_eqb v w = bool_decide (v = w).
Proof.
  destruct (decide (v = w)) as [->|Hne].
  - by rewrite value_eqb_refl, bool_decide_eq_true_2.
  - by rewrite value_eqb_neq, bool_decide_eq_false_2.
Qed.

Lemma unseen_merge_node l v l' v' g :
  v <> VNone ->
  unseen l' (merge_node l v g).1 v' =
  unseen l' g v' && negb (bool_decide (l = l') && value_eqb v v').
Proof.
  intros Hv. rewrite !unseen_decide, match_nodes_merge_node, value_eqb_decide by done.
  destruct (decide (l = l')) as [<-|Hl]; destruct (decide (v = v')) as [<-|Hvv];
    destruct (decide (match_nodes l v g = [])) as [Hn|Hn];
    repeat case_bool_decide; simpl; try done; intuition congruence.
Qed.

Lemma unseen_link l t k v l' v' g :
  v <> VNone -> match_nodes Market k g <> [] ->
  unseen l' (cypher_link l t k v g) v' =
  unseen l' g v' && negb (bool_decide (l = l') && value_eqb v v').
Proof.
  intros Hv Hk. rewrite cypher_link_eq by done.
  rewrite <- unseen_merge_node by done.
  unfold unseen. by rewrite match_nodes_merge_rels.
Qed.

Lemma count_label_link_unseen l l0 t k v g :
  v <> VNone -> match_nodes Market k g <> [] ->
  count_label l (cypher_link l0 t k v g) =
  (count_label l g + if bool_decide (l0 = l) && unseen l0 g v then 1 else 0)%nat.
Proof.
  intros Hv Hk. rewrite count_label_link, unseen_decide by done. f_equal.
  repeat case_bool_decide; simpl; try done; intuition congruence.
Qed.

Lemma unseen_upsert g md g1 k l v' :
  create_market_node g md = Ok (g1, k) ->
  unseen l g1 v' = unseen l g v' && negb (bool_decide (Market = l) && value_eqb k v').
Proof.
  intros E. destruct (upsert_key _ _ _ _ E) as [_ Hk].
  rewrite <- unseen_merge_node by done.
  unfold unseen. by rewrite (upsert_match _ _ _ _ E).
Qed.

Lemma count_label_upsert_unseen g md g1 k l :
  create_market_node g md = Ok (g1, k) ->
  count_label l g1 =
  (count_label l g + if bool_decide (Market = l) && unseen Market g k then 1 else 0)%nat.
Proof.
  intros E. rewrite (count_label_upsert _ _ _ _ _ E), unseen_decide. f_equal.
  repeat case_bool_decide; simpl; try done; intuition congruence.
Qed.

(** What one document adds to the nodes of a label, and to the keys the
    label has. *)
Lemma node_key_step g md l :
  count_label l (document_step g md) =
    (count_label l g + match node_key l md with
                       | Some k => if unseen l g k then 1 else 0
                       | None => 0
                       end)%nat /\
  forall v, unseen l (document_step g md) v =
            unseen l g v && negb match node_key l md with
                                 | Some k => value_eqb k v
                                 | None => false
                                 end.
Proof.
  unfold node_key. destruct (importable md) eqn:Himp.
  2:{ rewrite document_step_not_importable by done.
      split; [lia | intros v; by rewrite andb_true_r]. }
  destruct (create_market_node_importable g md Himp) as [g1 E].
  rewrite (document_step_ok _ _ _ _ E).
  pose proof (upsert_present _ _ _ _ E) as Hpres.
  unfold linked_graph.
  set (c := dict_get_none md "category"). set (s := dict_get_none md "seriesSlug").
  assert (Hpres2 : truthy c = true ->
            match_nodes Market (market_id_of md)
              (cypher_link Category BELONGS_TO (market_id_of md) c g1) <> []).
  { intros Hc. destruct (cypher_link_extends Category BELONGS_TO (market_id_of md) c
                           (truthy_not_none _ Hc) g1) as [Hm _]. by rewrite Hm. }
  destruct (truthy c) eqn:Hc; destruct (truthy s) eqn:Hs;
    rewrite ?create_series_relationship_eq, ?create_category_relationship_eq by done;
    (split; [|intros v]);
    rewrite ?count_label_link_unseen, ?unseen_link by auto using truthy_not_none;
    rewrite ?(count_label_upsert_unseen _ _ _ _ _ E), ?(unseen_upsert _ _ _ _ _ _ E);
    destruct l; simpl; rewrite ?andb_true_r; try lia; try done.
Qed.

Lemma foldl_document_step_census docs g l :
  count_label l (foldl document_step g docs) =
  (count_label l g + length (new_keys l g (omap (node_key l) docs)))%nat.
Proof.
  apply (census document_step (count_label l) (node_key l) (fun k g => unseen l g k)
           value_eqb (fun _ => True)); try done.
  - apply value_eqb_eq.
  - intros s d _. apply node_key_step.
  - intros s d k _. apply node_key_step.
Qed.

Lemma elem_of_list_filter {A} (p : A -> bool) l x :
  x ∈ List.filter p l <-> x ∈ l /\ p x = true.
Proof. by rewrite !list_elem_of_In, filter_In. Qed.

Lemma NoDup_list_filter {A} (p : A -> bool) l : NoDup l -> NoDup (List.filter p l).
Proof.
  induction 1 as [|x l Hx Hnd IH]; simpl; [constructor|].
  destruct (p x); [|done]. constructor; [|done].
  rewrite elem_of_list_filter. tauto.
Qed.

Lemma new_keys_Permutation l g vs vs' :
  vs ≡ₚ vs' -> length (new_keys l g vs) = length (new_keys l g vs').
Proof.
  intros Hp. apply Permutation_length, NoDup_Permutation.
  - apply NoDup_list_filter, NoDup_distinct, value_eqb_eq.
  - apply NoDup_list_filter, NoDup_distinct, value_eqb_eq.
  - intros x. unfold new_keys.
    rewrite !elem_of_list_filter, !(elem_of_distinct _ value_eqb_eq). by rewrite Hp.
Qed.

(** X6.  The node counts of a run follow from the keys its documents bring.
    Each label gains one node for every distinct key that no node of the
    label carried: Market nodes for the keys of the documents that reach the
    store, Category nodes for their non-empty categories, Series nodes for
    their non-empty series slugs.  From an empty graph the count is the
    number of distinct keys. *)
Theorem import_census (docs : list document) (g : graph) (bs : Z) (l : label) :
  count_label l (import_markets_to_neo4j docs g bs).1 =
    (count_label l g + length (new_keys l g (omap (node_key l) docs)))%nat /\
  count_label l (import_markets_to_neo4j docs empty_graph bs).1 =
    length (distinct value_eqb (omap (node_key l) docs)).
Proof.
  rewrite !import_markets_to_neo4j_graph, !foldl_document_step_census. split; [done|].
  unfold new_keys. simpl. f_equal.
  induction (distinct value_eqb (omap (node_key l) docs)) as [|v vs IH]; [done|].
  simpl. by rewrite IH.
Qed.

(** ** Counting the relationships a run adds *)

Lemma pair_eqb_eq p q : pair_eqb p q = true <-> p = q.
Proof.
  destruct p as [k v], q as [k' v']. unfold pair_eqb. simpl.
  rewrite andb_true_iff, !value_eqb_eq. split; [by intros [-> ->] | by intros [= -> ->]].
Qed.

Lemma unlinked_false t g k v : unlinked t g (k, v) = false <-> pair_linked t g k v.
Proof.
  unfold unlinked, pair_linked. rewrite negb_false_iff, existsb_exists. simpl. split.
  - intros (a & Ha & Hb). apply existsb_exists in Hb as (b & Hb & Hr).
    apply bool_decide_eq_true in Hr. exists a, b.
    split_and!; [by apply list_elem_of_In | by apply list_elem_of_In | done].
  - intros (a & b & Ha & Hb & Hr). exists a. split; [by apply list_elem_of_In|].
    apply existsb_exists. exists b. split; [by apply list_elem_of_In|].
    by apply bool_decide_eq_true.
Qed.

Lemma unlinked_true t g k v : unlinked t g (k, v) = true <-> ~ pair_linked t g k v.
Proof.
  rewrite <- unlinked_false. by destruct (unlinked t g (k, v)).
Qed.

(** Below the length of the smaller graph, a graph that only adds nodes
    matches what the smaller one matched. *)
Lemma match_nodes_prefix l v g g' i :
  g_nodes g `prefix_of` g_nodes g' -> (i < length (g_nodes g))%nat ->
  i ∈ match_nodes l v g' <-> i ∈ match_nodes l v g.
Proof.
  intros [rest Hrest] Hi. unfold match_nodes.
  rewrite !positions_from_elem, !Nat.sub_0_r, Hrest, lookup_app_l by done. done.
Qed.

Lemma match_nodes_upsert_below g md g1 k l v i :
  create_market_node g md = Ok (g1, k) -> (i < length (g_nodes g))%nat ->
  i ∈ match_nodes l v g1 <-> i ∈ match_nodes l v g.
Proof.
  intros E Hi. rewrite (upsert_match _ _ _ _ E).
  apply match_nodes_prefix; [apply merge_node_nodes_prefix | done].
Qed.

Lemma extends_elem l v g g' i :
  extends g g' -> i ∈ match_nodes l v g -> i ∈ match_nodes l v g'.
Proof.
  intros [Hm _] Hi. rewrite Hm; [done|]. intros Hnil. rewrite Hnil in Hi. inversion Hi.
Qed.

Lemma pair_linked_extends t g g' k v :
  extends g g' -> pair_linked t g k v -> pair_linked t g' k v.
Proof.
  intros Hext (a & b & Ha & Hb & Hr). exists a, b.
  split_and!; [by eapply extends_elem.. | by apply Hext].
Qed.

Lemma pair_linked_upsert t g md g1 k k' v' :
  well_formed g -> create_market_node g md = Ok (g1, k) ->
  pair_linked t g1 k' v' <-> pair_linked t g k' v'.
Proof.
  intros Hwf E. split; [|by apply pair_linked_extends, (upsert_extends _ _ _ _ E)].
  intros (a & b & Ha & Hb & Hr). rewrite (upsert_rels _ _ _ _ E) in Hr.
  destruct (Hwf _ Hr) as [Hsrc Hdst]. simpl in Hsrc, Hdst.
  exists a, b. split_and!; [| | done].
  - by apply (match_nodes_upsert_below _ _ _ _ _ _ _ E Hsrc).
  - by apply (match_nodes_upsert_below _ _ _ _ _ _ _ E Hdst).
Qed.

Lemma pair_linked_link t g k v k' v' :
  well_formed g -> v <> VNone -> match_nodes Market k g <> [] ->
  pair_linked t (cypher_link (target_label t) t k v g) k' v' <->
  pair_linked t g k' v' \/ (k' = k /\ v' = v).
Proof.
  intros Hwf Hv Hk. split.
  - intros (a & b & Ha & Hb & Hr).
    pose proof (cypher_link_nodes_prefix (target_label t) t k v g) as Hpre.
    rewrite cypher_link_eq in Ha, Hb, Hr by done.
    apply merge_rels_elem in Hr as [Hr|(a0 & b0 & Ha0 & Hb0 & [= -> ->])].
    + rewrite merge_node_rels in Hr. destruct (Hwf _ Hr) as [Hsrc Hdst].
      simpl in Hsrc, Hdst. left. exists a, b.
      rewrite <- cypher_link_eq in Ha, Hb by done.
      split_and!; [| | done].
      * by apply (match_nodes_prefix _ _ g _ _ Hpre Hsrc).
      * by apply (match_nodes_prefix _ _ g _ _ Hpre Hdst).
    + right. rewrite match_nodes_merge_rels in Ha, Hb.
      rewrite <- (match_nodes_merge_node_keep (target_label t) v) in Ha0 by done.
      rewrite merge_node_matches in Hb0 by done. split.
      * by eapply match_nodes_one_key.
      * by eapply match_nodes_one_key.
  - intros [H|[-> ->]].
    + by eapply pair_linked_extends; [apply cypher_link_extends|].
    + destruct (cypher_link_linked (target_label t) t k v Hv g Hk) as [Hsome Hall].
      destruct (cypher_link_extends (target_label t) t k v Hv g) as [Hm _].
      destruct (match_nodes Market k (cypher_link (target_label t) t k v g))
        as [|a ms] eqn:Ea; [by rewrite Hm in Ea|].
      destruct (match_nodes (target_label t) v (cypher_link (target_label t) t k v g))
        as [|b cs] eqn:Eb; [done|].
      exists a, b. rewrite Ea, Eb. split_and!; [by left | by left |].
      apply Hall; by left.
Qed.

Lemma pair_linked_link_other t t' l k v g k' v' :
  t' <> t -> well_formed g -> v <> VNone ->
  pair_linked t (cypher_link l t' k v g) k' v' <-> pair_linked t g k' v'.
Proof.
  intros Ht Hwf Hv. split; [|by apply pair_linked_extends, cypher_link_extends].
  intros (a & b & Ha & Hb & Hr).
  pose proof (cypher_link_nodes_prefix l t' k v g) as Hpre.
  assert (Hold : Rel a t b ∈ g_rels g).
  { destruct (decide (match_nodes Market k g = [])) as [Hnil|Hsome].
    - by rewrite cypher_link_absent in Hr.
    - rewrite cypher_link_eq in Hr by done.
      apply merge_rels_elem in Hr as [Hr|(a0 & b0 & _ & _ & [= _ <- _])]; [|done].
      by rewrite merge_node_rels in Hr. }
  destruct (Hwf _ Hold) as [Hsrc Hdst]. simpl in Hsrc, Hdst.
  exists a, b. split_and!; [| | done].
  - by apply (match_nodes_prefix _ _ g _ _ Hpre Hsrc).
  - by apply (match_nodes_prefix _ _ g _ _ Hpre Hdst).
Qed.

Lemma unlinked_ext t g g' k v :
  (pair_linked t g' k v <-> pair_linked t g k v) ->
  unlinked t g' (k, v) = unlinked t g (k, v).
Proof.
  intros H. destruct (unlinked t g (k, v)) eqn:E.
  - apply unlinked_true. rewrite H. by apply unlinked_true.
  - apply unlinked_false. rewrite H. by apply unlinked_false.
Qed.

(** With unique keys a link writes one relationship, when the two nodes
    were not joined, and none otherwise. *)
Lemma count_type_link t k v g :
  well_formed g -> unique_keys g -> v <> VNone -> match_nodes Market k g <> [] ->
  count_type t (cypher_link (target_label t) t k v g) =
  (count_type t g + if unlinked t g (k, v) then 1 else 0)%nat.
Proof.
  intros Hwf Hu Hv Hk. rewrite cypher_link_eq by done.
  destruct (singleton_of_unique _ Hk (Hu Market k)) as [a Ha].
  destruct (singleton_of_unique (merge_node (target_label t) v g).2) as [b Hb].
  { apply merge_node_nonempty. }
  { rewrite merge_node_matches by done. by apply unique_keys_merge_node. }
  rewrite Ha, Hb. unfold merge_rels. simpl. rewrite count_type_merge_rel.
  rewrite merge_node_rels.
  assert (Hcount : count_type t (merge_node (target_label t) v g).1 = count_type t g).
  { unfold count_type. by rewrite merge_node_rels. }
  rewrite Hcount. f_equal.
  destruct (unlinked t g (k, v)) eqn:E.
  - rewrite bool_decide_eq_true_2; [done|]. split; [done|]. intros Hin.
    apply unlinked_true in E. apply E. exists a, b.
    destruct (Hwf _ Hin) as [_ Hdst]. simpl in Hdst.
    split_and!; [by rewrite Ha; left | | done].
    apply (match_nodes_prefix _ _ g (merge_node (target_label t) v g).1);
      [apply merge_node_nodes_prefix | done |].
    rewrite <- merge_node_matches, Hb by done. by left.
  - rewrite bool_decide_eq_false_2; [done|]. intros [_ Hnot]. apply Hnot.
    apply unlinked_false in E as (a' & b' & Ha' & Hb' & Hr).
    rewrite Ha in Ha'. apply list_elem_of_singleton in Ha' as ->.
    rewrite merge_node_found in Hb.
    2:{ intros Hnil. rewrite Hnil in Hb'. inversion Hb'. }
    simpl in Hb. rewrite Hb in Hb'. by apply list_elem_of_singleton in Hb' as ->.
Qed.

Section LinkStep.
Variables (g : graph) (md : document) (g1 : graph).
Hypothesis Hwf : well_formed g.
Hypothesis Hu : unique_keys g.
Hypothesis E : create_market_node g md = Ok (g1, market_id_of md).

Let k := market_id_of md.
Let c := dict_get_none md "category".
Let s := dict_get_none md "seriesSlug".
Let g2 := cypher_link Category BELONGS_TO k c g1.

Lemma link_step_upsert : well_formed g1 /\ unique_keys g1 /\ match_nodes Market k g1 <> [].
Proof.
  split_and!; [by eapply well_formed_upsert | by eapply unique_keys_upsert |
               by eapply upsert_present].
Qed.

Lemma link_step_category :
  truthy c = true ->
  well_formed g2 /\ unique_keys g2 /\ match_nodes Market k g2 <> [].
Proof.
  intros Hc. destruct link_step_upsert as (Hwf1 & Hu1 & Hk1).
  pose proof (truthy_not_none _ Hc) as Hn.
  split_and!; [by apply well_formed_link | by apply unique_keys_link |].
  destruct (cypher_link_extends Category BELONGS_TO k c Hn g1) as [Hm _].
  by rewrite Hm.
Qed.

Lemma count_type_upsert t : count_type t g1 = count_type t g.
Proof. unfold count_type. by rewrite (upsert_rels _ _ _ _ E). Qed.

(** The pairs a document joins: its key with its category, and its key
    with its series slug. *)
Lemma pair_linked_linked_graph t k' v' :
  pair_linked t (linked_graph g1 k md) k' v' <->
  pair_linked t g k' v' \/
  (k' = k /\ match t with
            | BELONGS_TO => truthy c = true /\ v' = c
            | IN_SERIES => truthy s = true /\ v' = s
            end).
Proof.
  destruct link_step_upsert as (Hwf1 & Hu1 & Hk1).
  unfold linked_graph. fold c s.
  destruct (truthy c) eqn:Hc.
  - destruct (link_step_category Hc) as (Hwf2 & Hu2 & Hk2).
    pose proof (truthy_not_none _ Hc) as Hcn.
    rewrite (create_category_relationship_eq g1 k c Hc). fold g2.
    destruct (truthy s) eqn:Hs.
    + pose proof (truthy_not_none _ Hs) as Hsn.
      rewrite (create_series_relationship_eq g2 k s Hs).
      destruct t.
      * rewrite pair_linked_link_other by done. unfold g2.
        rewrite (pair_linked_link BELONGS_TO g1 k c) by done.
        rewrite (pair_linked_upsert _ _ _ _ _ _ _ Hwf E). tauto.
      * rewrite (pair_linked_link IN_SERIES g2 k s) by done. unfold g2.
        rewrite pair_linked_link_other by done.
        rewrite (pair_linked_upsert _ _ _ _ _ _ _ Hwf E). tauto.
    + destruct t.
      * unfold g2. rewrite (pair_linked_link BELONGS_TO g1 k c) by done.
        rewrite (pair_linked_upsert _ _ _ _ _ _ _ Hwf E). tauto.
      * unfold g2. rewrite pair_linked_link_other by done.
        rewrite (pair_linked_upsert _ _ _ _ _ _ _ Hwf E).
        split; [by left | intros [?|[_ [? _]]]; done].
  - destruct (truthy s) eqn:Hs.
    + pose proof (truthy_not_none _ Hs) as Hsn.
      rewrite (create_series_relationship_eq g1 k s Hs).
      destruct t.
      * rewrite pair_linked_link_other by done.
        rewrite (pair_linked_upsert _ _ _ _ _ _ _ Hwf E).
        split; [by left | intros [?|[_ [? _]]]; done].
      * rewrite (pair_linked_link IN_SERIES g1 k s) by done.
        rewrite (pair_linked_upsert _ _ _ _ _ _ _ Hwf E). tauto.
    + rewrite (pair_linked_upsert _ _ _ _ _ _ _ Hwf E).
      split; [by left | intros [?|[_ H]]; [done | by destruct t, H]].
Qed.

Lemma count_type_linked_graph t :
  count_type t (linked_graph g1 k md) =
  (count_type t g +
   match t with
   | BELONGS_TO => if truthy c then if unlinked BELONGS_TO g (k, c) then 1 else 0 else 0
   | IN_SERIES => if truthy s then if unlinked IN_SERIES g (k, s) then 1 else 0 else 0
   end)%nat.
Proof.
  destruct link_step_upsert as (Hwf1 & Hu1 & Hk1).
  unfold linked_graph. fold c s.
  destruct (truthy c) eqn:Hc.
  - destruct (link_step_category Hc) as (Hwf2 & Hu2 & Hk2).
    pose proof (truthy_not_none _ Hc) as Hcn.
    rewrite (create_category_relationship_eq g1 k c Hc). fold g2.
    assert (H2 : count_type BELONGS_TO g2 =
                 (count_type BELONGS_TO g + if unlinked BELONGS_TO g (k, c) then 1 else 0)%nat).
    { unfold g2.
      pose proof (count_type_link BELONGS_TO k c g1 Hwf1 Hu1 Hcn Hk1) as Hl.
      cbn [target_label] in Hl. rewrite Hl, count_type_upsert. f_equal.
      rewrite (unlinked_ext _ g g1); [done|].
        apply (pair_linked_upsert _ _ _ _ _ _ _ Hwf E). }
    assert (H2' : count_type IN_SERIES g2 = count_type IN_SERIES g).
    { unfold g2. rewrite count_type_link_other by done. apply count_type_upsert. }
    destruct (truthy s) eqn:Hs.
    + pose proof (truthy_not_none _ Hs) as Hsn.
      rewrite (create_series_relationship_eq g2 k s Hs).
      destruct t.
      * by rewrite count_type_link_other.
      * pose proof (count_type_link IN_SERIES k s g2 Hwf2 Hu2 Hsn Hk2) as Hl.
        cbn [target_label] in Hl. rewrite Hl, H2'. f_equal.
        rewrite (unlinked_ext _ g g2); [done|]. unfold g2.
        rewrite pair_linked_link_other by done.
        apply (pair_linked_upsert _ _ _ _ _ _ _ Hwf E).
    + destruct t; [done | rewrite H2'; lia].
  - destruct (truthy s) eqn:Hs.
    + pose proof (truthy_not_none _ Hs) as Hsn.
      rewrite (create_series_relationship_eq g1 k s Hs).
      destruct t.
      * rewrite count_type_link_other, count_type_upsert by done. lia.
      * pose proof (count_type_link IN_SERIES k s g1 Hwf1 Hu1 Hsn Hk1) as Hl.
        cbn [target_label] in Hl. rewrite Hl, count_type_upsert. f_equal.
        rewrite (unlinked_ext _ g g1); [done|].
        apply (pair_linked_upsert _ _ _ _ _ _ _ Hwf E).
    + rewrite count_type_upsert. destruct t; lia.
Qed.
End LinkStep.

Lemma pair_eqb_neq p q : pair_eqb p q = false <-> p <> q.
Proof.
  rewrite <- pair_eqb_eq. by destruct (pair_eqb p q).
Qed.

(** What one document adds to the relationships of a type, and to the
    pairs the type joins. *)
Lemma link_key_step t g md :
  well_formed g /\ unique_keys g ->
  count_type t (document_step g md) =
    (count_type t g + match link_key t md with
                      | Some kv => if unlinked t g kv then 1 else 0
                      | None => 0
                      end)%nat /\
  forall kv, unlinked t (document_step g md) kv =
             unlinked t g kv && negb match link_key t md with
                                     | Some kv' => pair_eqb kv' kv
                                     | None => false
                                     end.
Proof.
  intros [Hwf Hu]. unfold link_key, node_key. destruct (importable md) eqn:Himp.
  2:{ rewrite document_step_not_importable by done.
      split; [lia | intros kv; by rewrite andb_true_r]. }
  destruct (create_market_node_importable g md Himp) as [g1 E].
  rewrite (document_step_ok _ _ _ _ E). split.
  - rewrite (count_type_linked_graph g md g1 Hwf Hu E). f_equal.
    destruct t; simpl;
      [destruct (truthy (dict_get_none md "category")) |
       destruct (truthy (dict_get_none md "seriesSlug"))]; done.
  - intros [k' v']. apply Bool.eq_iff_eq_true.
    rewrite andb_true_iff, negb_true_iff, !unlinked_true.
    rewrite (pair_linked_linked_graph g md g1 Hwf Hu E).
    destruct t; simpl;
      [destruct (truthy (dict_get_none md "category")) |
       destruct (truthy (dict_get_none md "seriesSlug"))];
      rewrite ?pair_eqb_neq; split.
    all: try (intros H; split; [intros HA; apply H; by left|]).
    all: try (intros [= <- <-]; apply H; by right).
    all: try done.
    all: intros [HA Hne] [?|(Hk & Ht & Hv)]; [by apply HA | try done].
    all: subst; by apply Hne.
Qed.

Lemma foldl_document_step_link_census docs g t :
  well_formed g -> unique_keys g ->
  count_type t (foldl document_step g docs) =
  (count_type t g + length (new_links t g (omap (link_key t) docs)))%nat.
Proof.
  intros Hwf Hu.
  apply (census document_step (count_type t) (link_key t) (fun kv g => unlinked t g kv)
           pair_eqb (fun g => well_formed g /\ unique_keys g)); try done.
  - apply pair_eqb_eq.
  - intros s d. apply document_step_invariants.
  - intros s d Hs. by apply link_key_step.
  - intros s d kv Hs. by apply link_key_step.
Qed.

Lemma count_rels_types g :
  count_rels g = (count_type BELONGS_TO g + count_type IN_SERIES g)%nat.
Proof.
  unfold count_rels, count_type. induction (g_rels g) as [|r rs IH]; [done|].
  rewrite !filter_cons. simpl. destruct r as [a [] b]; simpl; lia.
Qed.

(** X8.  The relationships of a run follow from the pairs its documents
    bring.  In a graph whose keys are unique, a run adds one [BELONGS_TO]
    relationship for every distinct pair of a document key and a category
    that was not joined yet, and one [IN_SERIES] relationship for every such
    pair of a key and a series slug.  From an empty graph the total the
    summary prints is the number of distinct pairs of the two kinds. *)
Theorem import_link_census (docs : list document) (g : graph) (bs : Z) (t : rel_type) :
  well_formed g -> unique_keys g ->
  count_type t (import_markets_to_neo4j docs g bs).1 =
    (count_type t g + length (new_links t g (omap (link_key t) docs)))%nat /\
  count_rels (import_markets_to_neo4j docs empty_graph bs).1 =
    (length (distinct pair_eqb (omap (link_key BELONGS_TO) docs)) +
     length (distinct pair_eqb (omap (link_key IN_SERIES) docs)))%nat.
Proof.
  intros Hwf Hu. rewrite !import_markets_to_neo4j_graph. split.
  - by apply foldl_document_step_link_census.
  - rewrite count_rels_types.
    rewrite !foldl_document_step_link_census
      by (apply well_formed_empty || apply unique_keys_empty).
    unfold new_links. simpl.
    assert (Hall : forall kvs, List.filter (unlinked BELONGS_TO empty_graph) kvs = kvs /\
                               List.filter (unlinked IN_SERIES empty_graph) kvs = kvs).
    { induction kvs as [|kv kvs [IH1 IH2]]; [done|]. simpl. by rewrite IH1, IH2. }
    by rewrite (proj1 (Hall _)), (proj2 (Hall _)).
Qed.

Lemma new_links_Permutation t g kvs kvs' :
  kvs ≡ₚ kvs' -> length (new_links t g kvs) = length (new_links t g kvs').
Proof.
  intros Hp. apply Permutation_length, NoDup_Permutation.
  - apply NoDup_list_filter, NoDup_distinct, pair_eqb_eq.
  - apply NoDup_list_filter, NoDup_distinct, pair_eqb_eq.
  - intros x. unfold new_links.
    rewrite !elem_of_list_filter, !(elem_of_distinct _ pair_eqb_eq). by rewrite Hp.
Qed.

(** X7.  The order of the documents does not change the counts.  Two
    sources that hold the same documents in different orders, imported with
    any batch sizes, leave the same number of Market, Category and Series
    nodes, and, in a graph whose keys are unique, the same number of
    relationships of each type. *)
Theorem import_counts_any_order (docs docs' : list document) (g : graph) (bs bs' : Z) :
  docs ≡ₚ docs' ->
  let g1 := (import_markets_to_neo4j docs g bs).1 in
  let g2 := (import_markets_to_neo4j docs' g bs').1 in
  (forall l, count_label l g1 = count_label l g2) /\
  (well_formed g -> unique_keys g ->
   (forall t, count_type t g1 = count_type t g2) /\ count_rels g1 = count_rels g2).
Proof.
  intros Hp g1 g2. subst g1 g2. rewrite !import_markets_to_neo4j_graph. split.
  - intros l. rewrite !foldl_document_step_census.
    f_equal. apply new_keys_Permutation. by rewrite Hp.
  - intros Hwf Hu.
    assert (Ht : forall t, count_type t (foldl document_step g docs) =
                           count_type t (foldl document_step g docs')).
    { intros t. rewrite !foldl_document_step_link_census by done.
      f_equal. apply new_links_Permutation. by rewrite Hp. }
    split; [done|]. by rewrite !count_rels_types, !Ht.
Qed.

(** ** What a run prints *)

Lemma length_omap_node_key_cons l d ds :
  length (omap (node_key l) (d :: ds)) =
  (match node_key l d with Some _ => 1 | None => 0 end + length (omap (node_key l) ds))%nat.
Proof.
  change (omap (node_key l) (d :: ds))
    with (match node_key l d with
          | Some y => y :: omap (node_key l) ds
          | None => omap (node_key l) ds
          end).
  by destruct (node_key l d).
Qed.

(** The counters count the documents that reach the store, and those among
    them that name a category or a series. *)
Lemma foldl_process_document_stats ds : forall g c,
  (foldl process_document (g, c) ds).2 =
  Stats (processed c + length (omap (node_key Market) ds))
        (markets_created c + length (omap (node_key Market) ds))
        (categories_created c + length (omap (node_key Category) ds))
        (series_created c + length (omap (node_key Series) ds)).
Proof.
  induction ds as [|d ds IH]; intros g c; cbn [foldl].
  - destruct c. simpl. f_equal; lia.
  - rewrite !length_omap_node_key_cons. unfold node_key at 1 3 5 7.
    destruct (importable d) eqn:Himp.
    + rewrite process_document_importable by done. rewrite IH. simpl.
      destruct (truthy (dict_get_none d "category"));
        destruct (truthy (dict_get_none d "seriesSlug")); f_equal; lia.
    + rewrite process_document_not_importable by done. rewrite IH. f_equal; lia.
Qed.

Lemma length_distinct {A} (eqb : A -> A -> bool) l : (length (distinct eqb l) <= length l)%nat.
Proof.
  induction l as [|x l IH]; simpl; [done|].
  destruct (existsb (eqb x) l); simpl; lia.
Qed.

Lemma length_list_filter {A} (p : A -> bool) l : (length (List.filter p l) <= length l)%nat.
Proof. induction l as [|x l IH]; simpl; [done|]. destruct (p x); simpl; lia. Qed.

Lemma length_new_keys l g vs : (length (new_keys l g vs) <= length vs)%nat.
Proof.
  unfold new_keys. etrans; [apply length_list_filter | apply length_distinct].
Qed.

Lemma length_omap_le {A B} (f : A -> option B) l : (length (omap f l) <= length l)%nat.
Proof.
  induction l as [|x l IH]; [done|].
  change (omap f (x :: l)) with (match f x with Some y => y :: omap f l | None => omap f l end).
  destruct (f x); simpl; lia.
Qed.

Lemma length_omap_node_key_market l ds :
  (length (omap (node_key l) ds) <= length (omap (node_key Market) ds))%nat.
Proof.
  induction ds as [|d ds IH]; [done|]. rewrite !length_omap_node_key_cons.
  unfold node_key at 1 3. destruct (importable d); [|lia].
  destruct l; simpl; [lia | |].
  - destruct (truthy (dict_get_none d "category")); lia.
  - destruct (truthy (dict_get_none d "seriesSlug")); lia.
Qed.

(** *** When statements fail *)

Lemma try_create_market_node_ok raises g md g1 k :
  try_create_market_node raises g md = Ok (g1, k) ->
  upsert_runs raises md = true /\ create_market_node g md = Ok (g1, k).
Proof.
  unfold try_create_market_node, upsert_runs.
  destruct (market_properties md) as [kvs|] eqn:Hkvs; [|done]. simpl.
  destruct (raises _); [done|]. intros E. split; [|done].
  apply create_market_node_ok in E as (_ & _ & Hid & Hk & _).
  destruct (value_eqb (market_id_of md) VNone) eqn:Heq; [|done].
  apply value_eqb_eq in Heq. congruence.
Qed.

Lemma try_create_market_node_raise raises g md e :
  try_create_market_node raises g md = Raise e -> upsert_runs raises md = false.
Proof.
  unfold try_create_market_node, upsert_runs.
  destruct (market_properties md) as [kvs|] eqn:Hkvs; [|done]. simpl.
  destruct (raises _); [by rewrite andb_false_r|]. intros E. rewrite andb_true_r.
  destruct (value_eqb (market_id_of md) VNone) eqn:Heq; [done|].
  assert (Himp : importable md = true) by (unfold importable; by rewrite Hkvs, Heq).
  destruct (create_market_node_importable g md Himp) as [g1 E1]. congruence.
Qed.

Lemma try_document_stats raises g c md :
  (try_document raises (g, c) md).2 =
  Stats (processed c + Nat.b2n (completed raises md))
        (markets_created c + Nat.b2n (upsert_runs raises md))
        (categories_created c + Nat.b2n (category_linked raises md))
        (series_created c + Nat.b2n (series_linked raises md)).
Proof.
  unfold try_document, completed, category_linked, series_linked, category_fails,
    series_fails.
  destruct (try_create_market_node raises g md) as [[g1 k]|e] eqn:E.
  - apply try_create_market_node_ok in E as [Hr E]. rewrite Hr.
    apply create_market_node_ok in E as (_ & _ & -> & _).
    unfold try_create_category_relationship, try_create_series_relationship.
    destruct c as [p mc cc sc].
    destruct (truthy (dict_get_none md "category")) eqn:Hc;
      destruct (raises (Link Category BELONGS_TO (market_id_of md)
                          (dict_get_none md "category"))) eqn:Hrc;
      destruct (truthy (dict_get_none md "seriesSlug")) eqn:Hs;
      destruct (raises (Link Series IN_SERIES (market_id_of md)
                          (dict_get_none md "seriesSlug"))) eqn:Hrs;
      simpl; rewrite ?Hc, ?Hs, ?Hrc, ?Hrs; simpl;
      unfold count_processed, count_series, count_category, count_market; simpl;
      f_equal; lia.
  - apply try_create_market_node_raise in E. rewrite E. destruct c. simpl. f_equal; lia.
Qed.

Lemma count_docs_cons p d ds :
  count_docs p (d :: ds) = (Nat.b2n (p d) + count_docs p ds)%nat.
Proof. unfold count_docs. simpl. by destruct (p d). Qed.

Lemma count_docs_le p q ds :
  (forall d, p d = true -> q d = true) -> (count_docs p ds <= count_docs q ds)%nat.
Proof.
  intros H. induction ds as [|d ds IH]; [done|]. rewrite !count_docs_cons.
  destruct (p d) eqn:Hp; [rewrite (H d Hp); simpl; lia|].
  destruct (q d); simpl; lia.
Qed.

Lemma count_docs_length p ds : (count_docs p ds <= length ds)%nat.
Proof. apply length_list_filter. Qed.

Lemma foldl_try_document_stats raises ds : forall g c,
  (foldl (try_document raises) (g, c) ds).2 =
  Stats (processed c + count_docs (completed raises) ds)
        (markets_created c + count_docs (upsert_runs raises) ds)
        (categories_created c + count_docs (category_linked raises) ds)
        (series_created c + count_docs (series_linked raises) ds).
Proof.
  induction ds as [|d ds IH]; intros g c; cbn [foldl].
  - destruct c. unfold count_docs. simpl. f_equal; lia.
  - pose proof (try_document_stats raises g c d) as Hd.
    destruct (try_document raises (g, c) d) as [g1 c1]. simpl in Hd. subst c1.
    rewrite IH, !count_docs_cons. simpl. f_equal; lia.
Qed.

(** When no statement fails the body is [process_document]. *)
Lemma try_document_quiet raises st md :
  (forall s, raises s = false) -> try_document raises st md = process_document st md.
Proof.
  intros Hq. destruct st as [g c]. unfold try_document, process_document.
  unfold try_create_market_node.
  destruct (market_properties md) as [kvs|e] eqn:Hkvs; simpl.
  - rewrite Hq. destruct (create_market_node g md) as [[g1 k]|e]; [|done].
    unfold try_create_category_relationship, try_create_series_relationship,
      create_category_relationship, create_series_relationship.
    rewrite !Hq. destruct c as [p mc cc sc].
    destruct (truthy (dict_get_none md "category"));
      destruct (truthy (dict_get_none md "seriesSlug")); done.
  - unfold create_market_node. by rewrite Hkvs.
Qed.

Lemma foldl_try_document_quiet raises ds :
  (forall s, raises s = false) ->
  forall st, foldl (try_document raises) st ds = foldl process_document st ds.
Proof.
  intros Hq. induction ds as [|d ds IH]; intros st; [done|].
  cbn [foldl]. by rewrite try_document_quiet, IH.
Qed.

Lemma try_document_extends raises g c md :
  extends g (try_document raises (g, c) md).1.
Proof.
  unfold try_document.
  destruct (try_create_market_node raises g md) as [[g1 k]|e] eqn:E;
    [|apply extends_refl].
  apply try_create_market_node_ok in E as [_ E].
  pose proof (upsert_extends _ _ _ _ E) as H1.
  unfold try_create_category_relationship, try_create_series_relationship.
  destruct (truthy (dict_get_none md "category")) eqn:Hc; simpl.
  - destruct (raises (Link Category _ _ _)); [done|].
    pose proof (cypher_link_extends Category BELONGS_TO k _ (truthy_not_none _ Hc) g1) as H2.
    destruct (truthy (dict_get_none md "seriesSlug")) eqn:Hs; simpl.
    + destruct (raises (Link Series _ _ _)); simpl; [by eapply extends_trans|].
      eapply extends_trans; [|apply (cypher_link_extends Series IN_SERIES k _
                                       (truthy_not_none _ Hs))].
      by eapply extends_trans.
    + by eapply extends_trans.
  - destruct (truthy (dict_get_none md "seriesSlug")) eqn:Hs; simpl; [|done].
    destruct (raises (Link Series _ _ _)); simpl; [done|].
    eapply extends_trans; [done|].
    apply (cypher_link_extends Series IN_SERIES k _ (truthy_not_none _ Hs)).
Qed.

Lemma foldl_try_document_extends raises ds : forall g c,
  extends g (foldl (try_document raises) (g, c) ds).1.
Proof.
  induction ds as [|d ds IH]; intros g c; cbn [foldl]; [apply extends_refl|].
  pose proof (try_document_extends raises g c d) as Hd.
  destruct (try_document raises (g, c) d) as [g1 c1]. simpl in Hd.
  eapply extends_trans; [done | apply IH].
Qed.

(** The Market node of a document whose upsert runs is there after the body,
    whatever becomes of its links. *)
Lemma try_document_present raises g c md :
  upsert_runs raises md = true ->
  match_nodes Market (market_id_of md) (try_document raises (g, c) md).1 <> [].
Proof.
  intros Hr. pose proof (try_document_extends raises g c md) as Hext. revert Hext.
  unfold try_document.
  destruct (try_create_market_node raises g md) as [[g1 k]|e] eqn:E.
  - apply try_create_market_node_ok in E as [_ E].
    pose proof (upsert_present _ _ _ _ E) as Hp.
    pose proof (upsert_key _ _ _ _ E) as [-> _].
    pose proof (try_document_extends raises g1 c md) as _.
    intros _.
    assert (Hkeep : forall g', extends g1 g' ->
              match_nodes Market (market_id_of md) g' <> []).
    { intros g' [Hm _]. by rewrite Hm. }
    unfold try_create_category_relationship, try_create_series_relationship.
    destruct (truthy (dict_get_none md "category")) eqn:Hc; simpl.
    + destruct (raises (Link Category _ _ _)); [done|].
      pose proof (cypher_link_extends Category BELONGS_TO (market_id_of md) _
                    (truthy_not_none _ Hc) g1) as H2.
      destruct (truthy (dict_get_none md "seriesSlug")) eqn:Hs; simpl.
      * destruct (raises (Link Series _ _ _)); simpl; [by apply Hkeep|].
        apply Hkeep. eapply extends_trans; [done|].
        apply (cypher_link_extends Series IN_SERIES _ _ (truthy_not_none _ Hs)).
      * by apply Hkeep.
    + destruct (truthy (dict_get_none md "seriesSlug")) eqn:Hs; simpl; [|done].
      destruct (raises (Link Series _ _ _)); simpl; [done|].
      apply Hkeep. apply (cypher_link_extends Series IN_SERIES _ _ (truthy_not_none _ Hs)).
  - apply try_create_market_node_raise in E. congruence.
Qed.

Lemma foldl_try_document_present raises ds : forall g c md,
  md ∈ ds -> upsert_runs raises md = true ->
  match_nodes Market (market_id_of md) (foldl (try_document raises) (g, c) ds).1 <> [].
Proof.
  induction ds as [|d ds IH]; intros g c md Hin Hr; [inversion Hin|].
  cbn [foldl]. apply elem_of_cons in Hin as [->|Hin].
  - pose proof (try_document_present raises g c d Hr) as Hp.
    destruct (try_document raises (g, c) d) as [g1 c1]. simpl in Hp.
    destruct (foldl_try_document_extends raises ds g1 c1) as [Hm _].
    by rewrite Hm.
  - destruct (try_document raises (g, c) d) as [g1 c1]. by apply IH.
Qed.

(** X9.  The counters of a run, when statements may fail.  Whatever
    statements the driver or the store refuses, after the loop markets
    created counts the documents whose upsert ran, categories linked and
    series linked those whose link ran, and documents processed those that
    got through the whole body: a document whose category link fails has its
    Market node in the graph and is counted as created, but is not counted
    as processed, and its series link is not attempted.  So processed never
    exceeds markets created, and no counter the number of documents.  When
    no statement fails the run is the run of [import_markets_to_neo4j]:
    processed and markets created agree, and the summary it prints shows
    these counters. *)
Theorem import_counters (raises : statement -> bool) (docs : list document) (g : graph) :
  let g' := (foldl (try_document raises) (g, no_stats) docs).1 in
  let c := (foldl (try_document raises) (g, no_stats) docs).2 in
  c = Stats (count_docs (completed raises) docs) (count_docs (upsert_runs raises) docs)
            (count_docs (category_linked raises) docs)
            (count_docs (series_linked raises) docs) /\
  (processed c <= markets_created c <= length docs)%nat /\
  (categories_created c <= markets_created c)%nat /\
  (series_created c <= markets_created c)%nat /\
  (forall md, md ∈ docs -> upsert_runs raises md = true ->
     match_nodes Market (market_id_of md) g' <> []) /\
  ((forall s, raises s = false) ->
     processed c = markets_created c /\
     forall bs,
       g' = (import_markets_to_neo4j docs g bs).1 /\
       (docs <> [] ->
        summary_of (import_markets_to_neo4j docs g bs).2 =
          Some (Summary (count_label Market g') (count_label Category g')
                  (count_label Series g') (count_rels g') c (length docs)))).
Proof.
  intros g' c.
  assert (Hc : c = Stats (count_docs (completed raises) docs)
                     (count_docs (upsert_runs raises) docs)
                     (count_docs (category_linked raises) docs)
                     (count_docs (series_linked raises) docs)).
  { subst c. by rewrite foldl_try_document_stats. }
  split; [done|]. rewrite Hc. cbn [processed markets_created categories_created
                                     series_created].
  split_and!.
  - apply count_docs_le.
    unfold completed. intros d Hd. by apply andb_true_iff in Hd as [[Hd _]%andb_true_iff _].
  - apply count_docs_length.
  - apply count_docs_le. unfold category_linked. intros d Hd.
    by apply andb_true_iff in Hd as [[Hd _]%andb_true_iff _].
  - apply count_docs_le. unfold series_linked. intros d Hd.
    by apply andb_true_iff in Hd as [[[Hd _]%andb_true_iff _]%andb_true_iff _].
  - intros md Hin Hr. by apply foldl_try_document_present.
  - intros Hq. split.
    + unfold count_docs.
      rewrite (List.filter_ext (completed raises) (upsert_runs raises)); [done|].
      intros d. unfold completed, category_fails, series_fails.
      by rewrite !Hq, !andb_false_r, !andb_true_r.
    + intros bs. subst g'. rewrite (foldl_try_document_quiet raises docs Hq).
      rewrite import_markets_to_neo4j_graph.
      assert (Hg : (foldl process_document (g, no_stats) docs).1 = foldl document_step g docs).
      { clear. generalize no_stats. revert g.
        induction docs as [|d ds IH]; intros g c0; [done|]. cbn [foldl].
        rewrite <- (process_document_graph g c0 d).
        destruct (process_document (g, c0) d) as [g1 c1]. apply IH. }
      split; [done|]. intros Hne.
      destruct (import_markets_to_neo4j_out docs g bs Hne) as (ps & _ & ->).
      rewrite <- Hc. subst c. rewrite (foldl_try_document_quiet raises docs Hq).
      destruct (foldl process_document (g, no_stats) docs) as [g1 c1]. cbn [fst snd].
      change (ConstraintsCreated :: ps ++ ?x) with ((ConstraintsCreated :: ps) ++ x).
      by rewrite summary_of_snoc.
Qed.

(** The progress lines of the loop: one for each full batch, showing how
    many documents have reached the store so far. *)
Lemma batch_loop_lines bs total cursor : forall batch st out,
  (length batch < Z.to_nat (Z.max 1 bs))%nat ->
  exists ps,
    (batch_loop bs total cursor batch st out).2 = out ++ ps /\
    length ps = ((length batch + length cursor) / Z.to_nat (Z.max 1 bs))%nat /\
    forall j, (j < length ps)%nat ->
      ps !! j =
      Some (Progress
              (processed (foldl process_document st
                            (take ((j + 1) * Z.to_nat (Z.max 1 bs)) (batch ++ cursor))).2)
              total).
Proof.
  set (b := Z.to_nat (Z.max 1 bs)).
  induction cursor as [|doc cursor IH]; intros batch st out Hlen.
  - exists []. simpl. rewrite app_nil_r, Nat.add_0_r, Nat.div_small by done.
    split_and!; [done | done | intros j Hj; simpl in Hj; lia].
  - cbn [batch_loop]. destruct (bs <=? Z.of_nat (length (batch ++ [doc]))) eqn:Hfull.
    + apply Z.leb_le in Hfull. rewrite length_app in Hfull. simpl in Hfull.
      assert (Hb : length (batch ++ [doc]) = b).
      { rewrite length_app. simpl. unfold b in *. lia. }
      destruct (IH [] (foldl process_document st (batch ++ [doc]))
                  (out ++ [Progress (processed (foldl process_document st (batch ++ [doc])).2)
                             total]))
        as (ps & Hout & Hn & Hps); [simpl; lia|].
      eexists (_ :: ps). rewrite Hout, <- app_assoc. split; [done|]. split.
      * cbn [length]. rewrite Hn. simpl.
        replace (length batch + S (length cursor))%nat with (1 * b + length cursor)%nat
          by (rewrite length_app in Hb; simpl in Hb; lia).
        rewrite Nat.div_add_l by lia. lia.
      * intros [|j] Hj.
        -- assert (Ht : take ((0 + 1) * b) (batch ++ doc :: cursor) = batch ++ [doc]).
           { rewrite cons_middle, app_assoc. apply take_app_length'. lia. }
           by rewrite Ht.
        -- assert (Ht : take ((S j + 1) * b) (batch ++ doc :: cursor) =
                        (batch ++ [doc]) ++ take ((j + 1) * b) cursor).
           { rewrite cons_middle, app_assoc.
             replace ((S j + 1) * b)%nat with (length (batch ++ [doc]) + (j + 1) * b)%nat
               by lia.
             apply take_app_add. }
           rewrite Ht. cbn [length] in Hj. trans (ps !! j); [done|].
           rewrite Hps by lia. by rewrite (foldl_app _ (batch ++ [doc])).
    + apply Z.leb_gt in Hfull. rewrite length_app in Hfull. simpl in Hfull.
      destruct (IH (batch ++ [doc]) st out) as (ps & Hout & Hn & Hps).
      { rewrite length_app. simpl. unfold b. lia. }
      exists ps. rewrite Hout. split; [done|]. split.
      * rewrite Hn, length_app. simpl. f_equal. lia.
      * intros j Hj. rewrite (Hps j Hj). by rewrite <- app_assoc.
Qed.

(** X10.  The progress lines of a run.  With batches of [batch_size]
    documents, a run prints, between the notice of the constraints and the
    summary, one progress line for every full batch and none for the
    remainder; the line after the [j]-th batch shows how many of the first
    [j * batch_size] documents reached the store, out of the total.  A batch
    size of zero or less behaves as a batch size of one: a line for every
    document. *)
Theorem import_progress (docs : list document) (g : graph) (bs : Z) :
  docs <> [] ->
  let n := length docs in
  let b := Z.to_nat (Z.max 1 bs) in
  exists ps summary,
    (import_markets_to_neo4j docs g bs).2 = ConstraintsCreated :: ps ++ [summary] /\
    is_progress summary = false /\
    length ps = (n / b)%nat /\
    forall j, (j < n / b)%nat ->
      ps !! j =
      Some (Progress (length (omap (node_key Market) (take ((j + 1) * b) docs))) n).
Proof.
  intros Hne n b. unfold import_markets_to_neo4j.
  destruct docs as [|d docs]; [done|]. fold n.
  replace (Nat.eqb n 0) with false by done.
  destruct (batch_loop_lines bs n (d :: docs) [] (g, no_stats) [ConstraintsCreated])
    as (ps & Hout & Hn & Hps); [unfold n; simpl; lia|].
  destruct (batch_loop bs n (d :: docs) [] (g, no_stats) [ConstraintsCreated])
    as [[rest st] out]. simpl in Hout. subst out.
  destruct (foldl process_document st rest) as [g' c].
  exists ps. eexists. split; [done|]. split; [done|]. split; [done|].
  intros j Hj. rewrite Hps by (rewrite Hn; done). do 2 f_equal.
  rewrite app_nil_l, foldl_process_document_stats. done.
Qed.

(** ** Connecting, clearing and [main], for any setting *)


Lemma lower_is_y c : lower c = "y"%char <-> c = "y"%char \/ c = "Y"%char.
Proof.
  split.
  - destruct c as [[] [] [] [] [] [] [] []]; vm_compute; intros H;
      first [discriminate H | by left | by right].
  - by intros [-> | ->].
Qed.

Lemma lower_string_is_y line : lower_string line = "y" <-> line = "y" \/ line = "Y".
Proof.
  split.
  - destruct line as [|c [|c' rest]]; simpl; try done.
    intros [= H]. apply lower_is_y in H as [-> | ->]; auto.
  - by intros [-> | ->].
Qed.

(** X12.  [clear_neo4j_graph] deletes everything or nothing.  Left to
    itself ([auto_clear]) it empties the graph.  At the prompt it empties
    the graph when the operator types [y] or [Y] and nothing else, and keeps
    it on any other line and at the end of input.  It reports a deletion
    exactly when there was a node to delete. *)
Theorem clear_neo4j_graph_policy (g : graph) (auto_clear : bool) (typed : option string) :
  well_formed g ->
  let g' := (clear_neo4j_graph g auto_clear typed).1 in
  let out := (clear_neo4j_graph g auto_clear typed).2 in
  (g' = g \/ g' = empty_graph) /\
  (auto_clear = true -> g' = empty_graph) /\
  (auto_clear = false -> typed = None -> g' = g) /\
  (forall line, auto_clear = false -> typed = Some line ->
     (line = "y" \/ line = "Y" -> g' = empty_graph) /\
     (line <> "y" -> line <> "Y" -> g' = g)) /\
  (out = [GraphCleared] /\ g_nodes g <> [] /\ g' = empty_graph \/ out = [] /\ g' = g).
Proof.
  intros Hwf g' out. subst g' out. unfold clear_neo4j_graph.
  destruct (g_nodes g) as [|n ns] eqn:Hn; simpl.
  { rewrite (well_formed_no_nodes g Hwf Hn). split_and!; auto. }
  destruct auto_clear.
  { split_and!; try done; auto. }
  destruct typed as [line|].
  2:{ split_and!; try done; auto. }
  destruct (String.eqb (lower_string line) "y") eqn:Hy.
  - apply String.eqb_eq, lower_string_is_y in Hy.
    split_and!; try done; auto.
    intros line' _ [= <-]. split; [done|]. intros H1 H2. by destruct Hy.
  - apply String.eqb_neq in Hy. rewrite lower_string_is_y in Hy.
    split_and!; try done; auto.
    intros line' _ [= <-]. split; [done | done].
Qed.

(** X13.  What [main] starts from.  A run that can start and is told by its
    graph address that it runs in the container imports into an empty graph,
    so the graph it leaves does not depend on the graph it found.  A run at
    the prompt whose operator declines, or has no input, imports on top of
    the graph it found and loses none of it. *)
Theorem main_starting_graph (w : world) (g : graph) :
  ready w -> well_formed g ->
  let g' := (main w g).1.2 in
  (is_docker w = true -> g' = (import_markets_to_neo4j (source w) empty_graph 100).1) /\
  (is_docker w = false ->
   (forall line, operator w = Some line -> line <> "y" /\ line <> "Y") ->
   g' = (import_markets_to_neo4j (source w) g 100).1 /\ grows g g').
Proof.
  intros Hready Hwf g'. subst g'.
  destruct (main_runs w g Hready) as (sleeps & _ & ->). cbn [fst snd].
  unfold cleared, clear_neo4j_graph. split.
  - intros ->. destruct (g_nodes g) as [|n ns] eqn:Hn; simpl; [|done].
    by rewrite (well_formed_no_nodes g Hwf Hn).
  - intros -> Hop.
    assert (Hkeep : (if Nat.ltb 0 (length (g_nodes g))
                     then match operator w with
                          | Some line =>
                              if String.eqb (lower_string line) "y"
                              then (empty_graph, [GraphCleared]) else (g, [])
                          | None => (g, [])
                          end
                     else (g, [])).1 = g).
    { destruct (Nat.ltb 0 (length (g_nodes g))); [|done].
      destruct (operator w) as [line|]; [|done].
      destruct (String.eqb (lower_string line) "y") eqn:Hy; [|done].
      apply String.eqb_eq, lower_string_is_y in Hy.
      destruct (Hop line eq_refl). by destruct Hy. }
    rewrite Hkeep. split; [done|].
    rewrite import_markets_to_neo4j_graph. apply grows_foldl_document_step.
Qed.

(** ** Dates that are stored *)

(** No way through a run of digits when the continuation refuses what
    remains of it. *)
Lemma rmatch_digits_only {R} r : forall s g (k : string -> groups -> option R),
  digits_only s = true ->
  (forall s' g', digits_only s' = true -> k s' g' = None) ->
  rmatch r s g k = None.
Proof.
  induction r as [c|lo hi| | |r1 IH1 r2 IH2|r1 IH1 r2 IH2|name r IH];
    intros s g k Hs Hk; simpl.
  - destruct s as [|a s]; [done|]. simpl in Hs. apply andb_true_iff in Hs as [_ Hs].
    destruct (Ascii.eqb (lower a) (lower c)); [by apply Hk | done].
  - destruct s as [|a s]; [done|]. simpl in Hs. apply andb_true_iff in Hs as [_ Hs].
    destruct (in_class lo hi a); [by apply Hk | done].
  - destruct s as [|a s]; [done|]. simpl in Hs. apply andb_true_iff in Hs as [Ha _].
    apply spaces_plus_digit. done.
  - by apply Hk.
  - apply IH1; [done|]. intros s' g' Hs'. by apply IH2.
  - rewrite IH1, IH2 by done. done.
  - apply IH; [done|]. intros s' g' Hs'. by apply Hk.
Qed.

Lemma digits_only_fixed_digits w : forall v, digits_only (fixed_digits w v) = true.
Proof.
  induction w as [|w IH]; intros v; [done|]. cbn [fixed_digits].
  specialize (IH (v / 10)). induction (fixed_digits w (v / 10)) as [|c s IHs].
  - rewrite append_nil_l. simpl. by rewrite digit_mod.
  - rewrite append_cons. simpl in *. apply andb_true_iff in IH as [-> Hs]. simpl. auto.
Qed.

Lemma literal_refuses_digits_only {R} c r s g (k : string -> groups -> option R) :
  is_digit c = false -> digits_only s = true ->
  rmatch (RSeq (RChar c) r) s g k = None.
Proof.
  intros Hc Hs. destruct s as [|a s]; [done|].
  simpl in Hs. apply andb_true_iff in Hs as [Ha _].
  by apply (refuses_digits_literal c r k Hc).
Qed.

Lemma isoformat_parts d : isoformat d = date_text d +:+ "T" +:+ time_text d +:+ iso_tail d.
Proof. unfold isoformat, date_text, time_text, iso_tail. by rewrite !append_assoc. Qed.

Lemma iso_tail_cases d :
  iso_tail d = "" \/ iso_tail d = "." +:+ fixed_digits 6 (microsecond d).
Proof. unfold iso_tail. destruct (microsecond d =? 0); auto. Qed.

Lemma isoformat_unparsed d fmt :
  valid_datetime d = true -> fmt ∈ formats -> strptime_text (isoformat d) fmt = None.
Proof.
  intros Hvalid Hfmt.
  destruct (valid_datetime_ranges d Hvalid) as (HY & Hm & Hd & HH & HM & HS & Hf).
  rewrite isoformat_parts. unfold formats in Hfmt.
  repeat (apply elem_of_cons in Hfmt as [->|Hfmt]); [| | | | inversion Hfmt].
  - rewrite (strptime_text_eq _ _ _ pattern_fraction_format).
    rewrite date_regex_match by (done || by apply refuses_digits_literal).
    rewrite rmatch_text_literal.
    rewrite time_regex_match by (done || by apply refuses_digits_literal).
    destruct (iso_tail_cases d) as [-> | ->]; [done|].
    rewrite rmatch_text_literal.
    rewrite rmatch_seq, rmatch_digits_only; [done | apply digits_only_fixed_digits |].
    intros s' g' Hs'. by apply literal_refuses_digits_only.
  - rewrite (strptime_text_eq _ _ _ pattern_zulu_format).
    rewrite date_regex_match by (done || by apply refuses_digits_literal).
    rewrite rmatch_text_literal.
    rewrite time_regex_match by (done || by apply refuses_digits_literal).
    destruct (iso_tail_cases d) as [-> | ->]; [done|].
    rewrite append_cons, append_nil_l. by rewrite rmatch_literal_mismatch.
  - rewrite (strptime_text_eq _ _ _ pattern_space_format).
    rewrite date_regex_match by (done || apply refuses_digits_spaces).
    by rewrite append_cons.
  - rewrite (strptime_text_eq _ _ _ pattern_date_format).
    erewrite date_regex_match_success; [| done | done | reflexivity].
    by rewrite append_cons.
Qed.

Lemma strptime_text_valid s fmt d : strptime_text s fmt = Some d -> valid_datetime d = true.
Proof.
  unfold strptime_text. destruct (pattern false fmt) as [r|]; [|done].
  change (Some r ≫= ?f) with (f r). cbv beta.
  destruct (rmatch r s [] _) as [[rest g]|]; [|done].
  change (Some (rest, g) ≫= ?f) with (f (rest, g)). cbv beta iota.
  destruct rest; [|done]. unfold datetime_of_groups.
  match goal with |- context [valid_datetime ?x] => destruct (valid_datetime x) eqn:E end;
    [|done].
  by intros [= <-].
Qed.

Lemma first_format_valid s d : first_format s = Some d -> valid_datetime d = true.
Proof.
  unfold first_format.
  repeat match goal with
         | |- context [strptime_text s ?f] =>
             let E := fresh "E" in
             destruct (strptime_text s f) eqn:E;
             [intros [= <-]; by eapply strptime_text_valid|]
         end.
  done.
Qed.

Lemma length_isoformat d :
  String.length (isoformat d) = if microsecond d =? 0 then 19%nat else 26%nat.
Proof.
  unfold isoformat. rewrite !length_append, !length_fixed_digits.
  destruct (microsecond d =? 0); [done|].
  by rewrite length_append, length_fixed_digits.
Qed.

(** X14.  The date the script stores is not a date it reads.  The ISO form
    of a date, as [create_market_node] writes it into the graph, matches
    none of the four formats of [parse_date], which gives [None] for it: the
    formats with a time ask for a final [Z] or a space in place of [T]. *)
Theorem stored_date_is_not_read (d : datetime) :
  valid_datetime d = true ->
  Forall (fun fmt => strptime_text (isoformat d) fmt = None) formats /\
  parse_date (VStr (isoformat d)) = Ok None /\
  iso_or_none <$> parse_date (iso_or_none (Some d)) = Ok VNone.
Proof.
  intros Hvalid.
  assert (Hall : Forall (fun fmt => strptime_text (isoformat d) fmt = None) formats).
  { apply Forall_forall. intros fmt Hfmt. by apply isoformat_unparsed. }
  assert (Hnone : parse_date (VStr (isoformat d)) = Ok None).
  { rewrite parse_date_text. unfold first_format.
    unfold formats in Hall. repeat (apply Forall_cons in Hall as [-> Hall]). done. }
  split_and!; [done | done |]. simpl. by rewrite Hnone.
Qed.

(** X15.  Every date [parse_date] returns exists, and its stored form is
    canonical.  The result is a date of the calendar with a time of the
    day; its ISO form has 19 characters, or 26 with microseconds; and that
    form with [Z] appended is read back as the same date, so normalising
    twice gives what normalising once gives. *)
Theorem parsed_date_is_canonical (s : string) (d : datetime) :
  parse_date (VStr s) = Ok (Some d) ->
  valid_datetime d = true /\
  String.length (isoformat d) = (if microsecond d =? 0 then 19%nat else 26%nat) /\
  parse_date (VStr (isoformat d +:+ "Z")) = Ok (Some d).
Proof.
  rewrite parse_date_text. intros [= H].
  pose proof (first_format_valid _ _ H) as Hvalid.
  split_and!; [done | apply length_isoformat | by apply parse_date_isoformat].
Qed.

(** ** What a Market node holds *)

Lemma parse_date_valid v d : parse_date v = Ok (Some d) -> valid_datetime d = true.
Proof.
  destruct v as [| | | |s| | |]; try (unfold parse_date; simpl;
    repeat match goal with |- context [if ?b then _ else _] => destruct b end; done).
  rewrite parse_date_text. intros [= H]. by eapply first_format_valid.
Qed.

Lemma iso_or_none_cases v o :
  parse_date v = Ok o ->
  iso_or_none o = VNone \/
  exists d, valid_datetime d = true /\ iso_or_none o = VStr (isoformat d).
Proof.
  intros H. destruct o as [d|]; [right | by left].
  exists d. split; [by eapply parse_date_valid | done].
Qed.

Lemma match_nodes_key l v g i n :
  i ∈ match_nodes l v g -> g_nodes g !! i = Some n -> n_props n !! key_name l = Some v.
Proof.
  unfold match_nodes. rewrite positions_from_elem, Nat.sub_0_r.
  intros [_ (n' & Hn' & Hp)] Hn. assert (n' = n) as -> by congruence.
  unfold node_matches in Hp. apply andb_true_iff in Hp as [_ Hp].
  destruct (n_props n !! key_name l) as [w|]; [|by destruct v].
  assert (value_eqb w v = true) as Hw by (by destruct v).
  by apply value_eqb_eq in Hw as ->.
Qed.

(** X16.  What [create_market_node] leaves on the node.  Every Market node
    of the returned key has that key as [id]; a float as [volume] and an
    integer as [commentCount], whatever the types in the document; for each
    of the four dates either no property or the ISO form of a date that
    exists; and each text field as the document has it: the empty string
    when the field is missing, no property when it is null, [publishedAt]
    being read from [published_at]. *)
Theorem market_node_is_normalised (g : graph) (md : document) (g1 : graph) (k : value)
    (i : nat) (n : node) :
  create_market_node g md = Ok (g1, k) ->
  i ∈ match_nodes Market k g1 -> g_nodes g1 !! i = Some n ->
  n_props n !! "id" = Some k /\
  (exists f, n_props n !! "volume" = Some (VFloat f)) /\
  (exists z, n_props n !! "commentCount" = Some (VInt z)) /\
  (forall name, name ∈ ["startDate"; "endDate"; "createdAt"; "closedTime"] ->
     n_props n !! name = None \/
     exists d, valid_datetime d = true /\ n_props n !! name = Some (VStr (isoformat d))) /\
  (forall name field,
     (name, field) ∈ [("title", "title"); ("description", "description"); ("slug", "slug");
                      ("ticker", "ticker"); ("image", "image"); ("icon", "icon");
                      ("resolutionSource", "resolutionSource");
                      ("publishedAt", "published_at"); ("updatedAt", "updatedAt")] ->
     n_props n !! name = stored (dict_get md field (VStr ""))).
Proof.
  intros E Hi Hn.
  pose proof E as E'. apply create_market_node_ok in E' as (kvs & Hkvs & _).
  pose proof (fun name v => upsert_properties g md g1 k kvs i n name v E Hkvs Hi Hn) as Hset.
  unfold market_properties in Hkvs.
  apply bind_ok in Hkvs as (volume & _ & Hkvs).
  apply bind_ok in Hkvs as (start_date & Hstart & Hkvs).
  apply bind_ok in Hkvs as (end_date & Hend & Hkvs).
  apply bind_ok in Hkvs as (created_at & Hcreated & Hkvs).
  apply bind_ok in Hkvs as (closed_time & Hclosed & Hkvs).
  apply bind_ok in Hkvs as (volume_f & _ & Hkvs).
  apply bind_ok in Hkvs as (comment_count & _ & Hkvs).
  injection Hkvs as <-.
  split_and!.
  - by apply (match_nodes_key Market k g1 i n).
  - exists volume_f. apply (Hset "volume" (VFloat volume_f)). set_solver.
  - exists comment_count. apply (Hset "commentCount" (VInt comment_count)). set_solver.
  - intros name Hname.
    assert (Hdate : exists v o, parse_date v = Ok o /\ n_props n !! name = stored (iso_or_none o)).
    { repeat (apply elem_of_cons in Hname as [->|Hname]); [| | | | inversion Hname].
      - exists (dict_get_none md "startDate"), start_date. split; [done|].
        apply Hset. set_solver.
      - exists (dict_get_none md "endDate"), end_date. split; [done|].
        apply Hset. set_solver.
      - eexists _, created_at. split; [exact Hcreated|]. apply Hset. set_solver.
      - exists (dict_get_none md "closedTime"), closed_time. split; [done|].
        apply Hset. set_solver. }
    destruct Hdate as (v & o & Ho & ->).
    destruct (iso_or_none_cases v o Ho) as [-> | (d & Hd & ->)]; [by left | right; eauto].
  - intros name field Hin.
    repeat (apply elem_of_cons in Hin as [[= -> ->]|Hin]); [..| inversion Hin];
      apply Hset; set_solver.
Qed.

(** ** The check of the environment *)

Lemma length_stars n : String.length (stars n) = n.
Proof. induction n as [|n IH]; simpl; [done | by rewrite IH]. Qed.

Lemma stars_only n c : c ∈ list_ascii_of_string (stars n) -> c = "*"%char.
Proof.
  induction n as [|n IH]; simpl; [by intros H; inversion H|].
  intros [->|H]%elem_of_cons; auto.
Qed.

Lemma length_substring_le n s : (String.length (String.substring 0 n s) <= n)%nat.
Proof.
  revert s. induction n as [|n IH]; intros [|c s]; simpl; try lia.
  specialize (IH s). lia.
Qed.

Lemma shown_lines_shown e x :
  x ∈ shown_lines e ->
  exists var value, x = Shown var (display_value var value) /\ var ∈ required_vars /\
                    getenv e var = Some value /\ value <> "".
Proof.
  unfold shown_lines. intros H. apply list_elem_of_omap in H as ([v d] & Hin & H).
  simpl in H. destruct (getenv e v) as [value|] eqn:Hv; [|done].
  destruct (String.eqb value "") eqn:He; [done|]. injection H as <-.
  exists v, value. split_and!; [done | | done | by apply String.eqb_neq].
  unfold required_descriptions in Hin. unfold required_vars.
  repeat (apply elem_of_cons in Hin as [[= -> _]|Hin]); [set_solver.. | inversion Hin].
Qed.

Lemma missing_lines_missing e x :
  x ∈ missing_lines e -> exists var description, x = MissingVar var description.
Proof.
  unfold missing_lines. intros H. apply list_elem_of_omap in H as ([v d] & _ & H).
  simpl in H. destruct (is_set e v); [done|]. injection H as <-. eauto.
Qed.

Lemma missing_lines_nil e : missing_lines e = [] <-> check_environment_variables e = true.
Proof.
  unfold missing_lines, check_environment_variables, required_descriptions, required_vars.
  simpl.
  destruct (is_set e "MONGO_URI"), (is_set e "DB2"), (is_set e "NEO4J_URI"),
    (is_set e "NEO4J_USER"), (is_set e "NEO4J_PASSWORD"); done.
Qed.

Lemma all_set_line e : AllSet ∈ check_environment_variables_lines e <-> missing_lines e = [].
Proof.
  unfold check_environment_variables_lines. rewrite elem_of_app. split.
  - intros [H|H].
    + by apply shown_lines_shown in H as (? & ? & ? & _).
    + destruct (missing_lines e) as [|x xs] eqn:E; [done|].
      apply elem_of_cons in H as [H|H]; [done|]. rewrite <- E in H.
      by apply missing_lines_missing in H as (? & ? & ?).
  - intros ->. right. by left.
Qed.

Lemma missing_header_line e :
  MissingHeader ∈ check_environment_variables_lines e <-> missing_lines e <> [].
Proof.
  unfold check_environment_variables_lines. rewrite elem_of_app. split.
  - intros [H|H].
    + by apply shown_lines_shown in H as (? & ? & ? & _).
    + destruct (missing_lines e) as [|x xs] eqn:E; [|done].
      by apply list_elem_of_singleton in H.
  - intros Hne. right. destruct (missing_lines e); [done | by left].
Qed.

Lemma shown_line e var text :
  Shown var text ∈ check_environment_variables_lines e ->
  var ∈ required_vars /\
  exists value, getenv e var = Some value /\ value <> "" /\ text = display_value var value.
Proof.
  unfold check_environment_variables_lines. intros [H|H]%elem_of_app.
  - apply shown_lines_shown in H as (v & value & [= -> ->] & Hv & Hg & Hne). eauto.
  - destruct (missing_lines e) as [|x xs] eqn:E.
    + by apply list_elem_of_singleton in H.
    + apply elem_of_cons in H as [H|H]; [done|]. rewrite <- E in H.
      by apply missing_lines_missing in H as (? & ? & ?).
Qed.

(** X17.  What the check of the environment shows.  The function answers
    that all is there exactly when it lists no missing variable.  A variable
    that is set is shown with its value, except that the password is shown
    as one star for each of its characters and nothing else, and a URI is
    cut after its first thirty characters, followed by three dots. *)
Theorem environment_check_masks (e : list (string * string)) :
  let lines := check_environment_variables_lines e in
  (check_environment_variables e = true <-> AllSet ∈ lines) /\
  (check_environment_variables e = false <-> MissingHeader ∈ lines) /\
  (forall var text, Shown var text ∈ lines ->
     var ∈ required_vars /\
     exists value, getenv e var = Some value /\ value <> "" /\
       (var = "NEO4J_PASSWORD" ->
          text = stars (String.length value) /\
          String.length text = String.length value /\
          forall c, c ∈ list_ascii_of_string text -> c = "*"%char) /\
       (var = "MONGO_URI" \/ var = "NEO4J_URI" ->
          (String.length text <= 33)%nat /\
          text = if Nat.ltb 30 (String.length value)
                 then String.substring 0 30 value +:+ "..." else value) /\
       (var = "DB2" \/ var = "NEO4J_USER" -> text = value)).
Proof.
  intros lines. subst lines. split_and!.
  - by rewrite all_set_line, missing_lines_nil.
  - rewrite missing_header_line, missing_lines_nil.
    by destruct (check_environment_variables e).
  - intros var text H. destruct (shown_line e var text H) as (Hvar & value & Hv & Hne & ->).
    split; [done|]. exists value. split_and!; try done.
    + intros ->. change (display_value "NEO4J_PASSWORD" value)
        with (stars (String.length value)).
      split_and!; [done | apply length_stars | apply stars_only].
    + intros Huri.
      assert (Hd : display_value var value =
                   if Nat.ltb 30 (String.length value)
                   then String.substring 0 30 value +:+ "..." else value).
      { by destruct Huri as [-> | ->]. }
      rewrite Hd. split; [|done].
      destruct (Nat.ltb 30 (String.length value)) eqn:Hl.
      * rewrite length_append. pose proof (length_substring_le 30 value). simpl. lia.
      * apply Nat.ltb_ge in Hl. lia.
    + by intros [-> | ->].
Qed.

(** ** A second run changes nothing *)

Lemma doc_props_no_id md : "id" ∉ (doc_props md).*1.
Proof.
  unfold doc_props. destruct (market_properties md) as [kvs|e] eqn:E.
  - by eapply market_properties_no_id.
  - intros H. inversion H.
Qed.

Lemma node_matches_market_label k n : node_matches Market k n = true -> n_label n = Market.
Proof.
  unfold node_matches. intros [H _]%andb_true_iff. by apply bool_decide_eq_true in H.
Qed.

Lemma node_matches_set_props_any kvs k n :
  "id" ∉ kvs.*1 -> node_matches Market k (set_props kvs n) = node_matches Market k n.
Proof.
  intros Hid. destruct (decide (n_label n = Market)) as [Hl|Hl].
  - by apply node_matches_set_props.
  - unfold node_matches. simpl. by rewrite !bool_decide_eq_false_2.
Qed.

Lemma touches_set_props md kvs n :
  "id" ∉ kvs.*1 -> touches md (set_props kvs n) = touches md n.
Proof. intros Hid. unfold touches. by rewrite node_matches_set_props_any. Qed.

Lemma touches_node_step md n d : touches md (node_step n d) = touches md n.
Proof.
  unfold node_step. destruct (touches d n); [|done].
  apply touches_set_props, doc_props_no_id.
Qed.

Lemma written_ext ds n n' :
  (forall md, touches md n' = touches md n) -> written ds n' = written ds n.
Proof.
  intros H. unfold written. induction ds as [|d ds IH]; simpl; [done|].
  by rewrite H, IH.
Qed.

Lemma written_no_id ds n : "id" ∉ (written ds n).*1.
Proof.
  unfold written. induction ds as [|d ds IH]; simpl; [by intros H; inversion H|].
  rewrite fmap_app, elem_of_app. intros [H|H]; [|done].
  destruct (touches d n); [by apply doc_props_no_id in H | inversion H].
Qed.

Lemma set_props_app kvs1 kvs2 n :
  set_props (kvs1 ++ kvs2) n = set_props kvs2 (set_props kvs1 n).
Proof. unfold set_props. simpl. by rewrite foldl_app. Qed.

Lemma set_props_nil n : set_props [] n = n.
Proof. by destruct n. Qed.

(** A run does to a node what one [SET] of all it writes would do. *)
Lemma node_run_written ds : forall n, node_run ds n = set_props (written ds n) n.
Proof.
  unfold node_run. induction ds as [|d ds IH]; intros n; simpl.
  - by rewrite set_props_nil.
  - rewrite IH. rewrite (written_ext ds n (node_step n d)) by (intros; apply touches_node_step).
    unfold node_step. destruct (touches d n).
    + by rewrite set_props_app.
    + done.
Qed.

Lemma node_run_twice ds n : node_run ds (node_run ds n) = node_run ds n.
Proof.
  rewrite !node_run_written.
  rewrite (written_ext ds n (set_props (written ds n) n)).
  - apply set_props_twice.
  - intros md. apply touches_set_props, written_no_id.
Qed.

Lemma node_run_cons d ds n : node_run (d :: ds) n = node_run ds (node_step n d).
Proof. done. Qed.

(** The nodes that were there go through [node_step]. *)
Lemma document_step_lookup g md i n :
  g_nodes g !! i = Some n -> g_nodes (document_step g md) !! i = Some (node_step n md).
Proof.
  intros Hn. unfold node_step, touches.
  destruct (importable md) eqn:Himp.
  2:{ by rewrite document_step_not_importable. }
  destruct (create_market_node_importable g md Himp) as [g1 E].
  rewrite (document_step_ok _ _ _ _ E). apply linked_graph_lookup.
  apply create_market_node_ok in E as (kvs & Hkvs & _ & Hk & ->).
  unfold doc_props. rewrite Hkvs. rewrite update_nodes_lookup.
  assert (Hn0 : g_nodes (merge_node Market (market_id_of md) g).1 !! i = Some n).
  { destruct (merge_node_nodes_prefix Market (market_id_of md) g) as [rest ->].
    by apply lookup_app_l_Some. }
  rewrite Hn0. simpl. f_equal.
  assert (Hiff : i ∈ (merge_node Market (market_id_of md) g).2 <->
                 node_matches Market (market_id_of md) n = true).
  { rewrite merge_node_matches by done. unfold match_nodes.
    rewrite positions_from_elem, Nat.sub_0_r. split.
    - intros [_ (n' & Hn' & Hp)]. congruence.
    - intros Hp. split; [lia | eauto]. }
  destruct (node_matches Market (market_id_of md) n) eqn:Hm.
  - by rewrite bool_decide_eq_true_2 by (by apply Hiff).
  - rewrite bool_decide_eq_false_2; [done|]. intros Hin. apply Hiff in Hin. done.
Qed.

Lemma foldl_document_step_lookup ds : forall g i n,
  g_nodes g !! i = Some n -> g_nodes (foldl document_step g ds) !! i = Some (node_run ds n).
Proof.
  induction ds as [|d ds IH]; intros g i n Hn; [done|].
  cbn [foldl]. rewrite node_run_cons. apply IH. by apply document_step_lookup.
Qed.

Lemma merge_node_new l v g i n :
  g_nodes g !! i = None -> g_nodes (merge_node l v g).1 !! i = Some n ->
  n = Node l {[ key_name l := v ]} /\ i = length (g_nodes g) /\ match_nodes l v g = [].
Proof.
  intros Hold Hnew. destruct (decide (match_nodes l v g = [])) as [Hnil|Hsome].
  - rewrite merge_node_fresh in Hnew by done. simpl in Hnew.
    apply lookup_ge_None in Hold.
    rewrite lookup_app_r in Hnew by done.
    destruct (i - length (g_nodes g))%nat as [|j] eqn:Ej; simpl in Hnew; [|done].
    injection Hnew as <-. split_and!; [done | lia | done].
  - rewrite merge_node_found in Hnew by done. simpl in Hnew. congruence.
Qed.

Lemma cypher_link_new l t k v g i n :
  l <> Market ->
  g_nodes g !! i = None -> g_nodes (cypher_link l t k v g) !! i = Some n ->
  n_label n <> Market.
Proof.
  intros Hl Hold Hnew. unfold cypher_link in Hnew.
  destruct (match_nodes Market k g); [congruence|].
  destruct (merge_node l v g) as [g1 cs] eqn:Em.
  rewrite merge_rels_nodes in Hnew.
  assert (Hg1 : g1 = (merge_node l v g).1) by (by rewrite Em). subst g1.
  by apply merge_node_new in Hnew as (-> & _ & _).
Qed.

Lemma linked_graph_new g1 k md i n :
  g_nodes g1 !! i = None -> g_nodes (linked_graph g1 k md) !! i = Some n ->
  n_label n <> Market.
Proof.
  unfold linked_graph, create_category_relationship, create_series_relationship.
  intros Hold Hnew.
  destruct (truthy (dict_get_none md "category")); simpl in Hnew;
    destruct (truthy (dict_get_none md "seriesSlug")); simpl in Hnew;
    try congruence.
  - destruct (g_nodes (cypher_link Category BELONGS_TO k (dict_get_none md "category") g1) !! i)
      as [n'|] eqn:E.
    + pose proof (cypher_link_nodes_prefix Series IN_SERIES k
                    (dict_get_none md "seriesSlug")
                    (cypher_link Category BELONGS_TO k (dict_get_none md "category") g1))
        as [rest Hrest].
      rewrite Hrest, (lookup_app_l_Some _ _ _ _ E) in Hnew. injection Hnew as <-.
      eapply (cypher_link_new Category); [done | exact Hold | exact E].
    + eapply (cypher_link_new Series); [done | exact E | exact Hnew].
  - eapply (cypher_link_new Category); [done | exact Hold | exact Hnew].
  - eapply (cypher_link_new Series); [done | exact Hold | exact Hnew].
Qed.

(** A node that a document creates is as that document wants it. *)
Lemma document_step_new g md i n :
  g_nodes g !! i = None -> g_nodes (document_step g md) !! i = Some n ->
  node_step n md = n.
Proof.
  intros Hold Hnew. unfold node_step.
  destruct (touches md n) eqn:Ht; [|done].
  unfold touches in Ht. apply andb_true_iff in Ht as [Himp Hm].
  destruct (create_market_node_importable g md Himp) as [g1 E].
  rewrite (document_step_ok _ _ _ _ E) in Hnew.
  destruct (g_nodes g1 !! i) as [n1|] eqn:Hn1.
  2:{ apply linked_graph_new in Hnew; [|done].
      by apply node_matches_market_label in Hm. }
  rewrite (linked_graph_lookup _ _ _ _ _ Hn1) in Hnew. injection Hnew as <-.
  apply create_market_node_ok in E as (kvs & Hkvs & _ & Hk & ->).
  unfold doc_props. rewrite Hkvs.
  rewrite update_nodes_lookup in Hn1.
  destruct (g_nodes (merge_node Market (market_id_of md) g).1 !! i) as [n0|] eqn:Hn0;
    [|done].
  simpl in Hn1.
  destruct (merge_node_new _ _ _ _ _ Hold Hn0) as (-> & -> & Hnil).
  rewrite merge_node_fresh in Hn1 by done. simpl in Hn1.
  rewrite bool_decide_eq_true_2 in Hn1 by (by left).
  injection Hn1 as <-. apply set_props_twice.
Qed.

Lemma document_step_length g md :
  (length (g_nodes g) <= length (g_nodes (document_step g md)))%nat.
Proof.
  destruct (grows_document_step g md) as [Hn _].
  apply Nat.nlt_ge. intros Hlt.
  destruct (lookup_lt_is_Some_2 (g_nodes g) (length (g_nodes (document_step g md))))
    as [n Hi]; [done|].
  destruct (Hn _ _ Hi) as (n' & Hi' & _). apply lookup_lt_Some in Hi'. lia.
Qed.

(** A node at the end of a run is a node of the start that went through the
    run, or a node the run made, which the run would leave as it is. *)
Lemma foldl_document_step_nodes ds : forall g i n,
  g_nodes (foldl document_step g ds) !! i = Some n ->
  (exists n0, g_nodes g !! i = Some n0 /\ n = node_run ds n0) \/
  (g_nodes g !! i = None /\ node_run ds n = n).
Proof.
  induction ds as [|d ds IH]; intros g i n Hn; simpl in Hn.
  { left. eauto. }
  destruct (IH _ _ _ Hn) as [(n1 & Hn1 & ->)|[Hnone Hstable]].
  - destruct (g_nodes g !! i) as [n0|] eqn:Hn0.
    + left. exists n0. split; [done|].
      rewrite (document_step_lookup _ d _ _ Hn0) in Hn1. injection Hn1 as <-. done.
    + right. split; [done|].
      pose proof (document_step_new _ _ _ _ Hn0 Hn1) as Hnew.
      assert (Hrun : node_run ds n1 = node_run (d :: ds) n1).
      { by rewrite node_run_cons, Hnew. }
      rewrite Hrun. apply node_run_twice.
  - right.
    assert (Hg : g_nodes g !! i = None).
    { apply lookup_ge_None. apply lookup_ge_None in Hnone.
      pose proof (document_step_length g d). lia. }
    split; [done|]. rewrite node_run_cons.
    assert (Hsame : node_step n d = n); [|by rewrite Hsame].
    unfold node_step. destruct (touches d n) eqn:Ht; [|done]. exfalso.
    unfold touches in Ht. apply andb_true_iff in Ht as [Himp Hm].
    pose proof Himp as Himp'. apply importable_true in Himp' as [Hok Hk].
    destruct (document_step_covers g d Hok Hk) as (Hpres & _).
    destruct (foldl_document_step_extends ds (document_step g d)) as [Hext _].
    assert (Hi : i ∈ match_nodes Market (market_id_of d)
                       (foldl document_step (document_step g d) ds)).
    { unfold match_nodes. rewrite positions_from_elem, Nat.sub_0_r.
      split; [lia | eauto]. }
    rewrite (Hext _ _ Hpres) in Hi. apply match_nodes_lt in Hi.
    apply lookup_ge_None in Hnone. lia.
Qed.

Lemma foldl_document_step_again ds g :
  foldl document_step (foldl document_step g ds) ds = foldl document_step g ds.
Proof.
  destruct (foldl_document_step_twice ds g) as (Hl & _ & Hr).
  set (g1 := foldl document_step g ds) in *.
  set (g2 := foldl document_step g1 ds) in *.
  assert (Hnodes : g_nodes g2 = g_nodes g1).
  { apply list_eq. intros i. destruct (g_nodes g1 !! i) as [n|] eqn:Hn.
    - unfold g2. rewrite (foldl_document_step_lookup ds g1 i n Hn). f_equal.
      destruct (foldl_document_step_nodes ds g i n Hn) as [(n0 & _ & ->)|[_ H]];
        [apply node_run_twice | done].
    - apply lookup_ge_None. apply lookup_ge_None in Hn.
      assert (length (g_nodes g2) = length (g_nodes g1)) as ->; [|done].
      by rewrite <- (length_fmap n_label (g_nodes g2)), Hl, length_fmap. }
  destruct g1 as [ns1 rs1], g2 as [ns2 rs2]. simpl in *. congruence.
Qed.

Lemma main_again w g g1 g2 out1 out2 :
  well_formed g -> main w g = (0, g1, out1) -> main w g1 = (0, g2, out2) -> g2 = g1.
Proof.
  intros Hwf H1 H2.
  pose proof (main_ok_ready _ _ _ _ H1) as Hready.
  destruct (main_runs w g Hready) as (s1 & _ & E1).
  destruct (main_runs w g1 Hready) as (s2 & _ & E2).
  rewrite E1 in H1. rewrite E2 in H2.
  injection H1 as Hg1 _. injection H2 as Hg2 _.
  rewrite import_markets_to_neo4j_graph in Hg1, Hg2.
  unfold cleared in *.
  destruct (clear_neo4j_graph_cases g (is_docker w) (operator w))
    as [Hkeep|(Hnodes & Hclear & Hall)].
  - rewrite Hkeep in Hg1.
    destruct (clear_neo4j_graph_cases g1 (is_docker w) (operator w))
      as [Hkeep1|(Hnodes1 & Hclear1 & _)].
    + rewrite Hkeep1 in Hg2. subst g1 g2. apply foldl_document_step_again.
    + rewrite Hclear1 in Hg2.
      destruct (g_nodes g) as [|n ns] eqn:Hn.
      * rewrite (well_formed_no_nodes g Hwf Hn) in Hg1. by subst g1 g2.
      * unfold clear_neo4j_graph in Hkeep, Hclear1. rewrite Hn in Hkeep.
        destruct (g_nodes g1) as [|n1 ns1] eqn:Hn1; [done|]. simpl in Hkeep, Hclear1.
        destruct (is_docker w); [by subst g; simpl in Hn|].
        destruct (operator w) as [line|];
          [|simpl in Hclear1; rewrite Hclear1 in Hn1; by simpl in Hn1].
        destruct (String.eqb (lower_string line) "y"); simpl in Hkeep, Hclear1.
        -- rewrite <- Hkeep in Hn. by simpl in Hn.
        -- rewrite Hclear1 in Hn1. by simpl in Hn1.
  - rewrite Hclear in Hg1.
    destruct (g_nodes g1) as [|n1 ns1] eqn:Hn1.
    + assert (Hid : (clear_neo4j_graph g1 (is_docker w) (operator w)).1 = g1).
      { unfold clear_neo4j_graph. by rewrite Hn1. }
      rewrite Hid in Hg2. subst g1 g2. apply foldl_document_step_again.
    + rewrite Hall in Hg2 by (by rewrite Hn1). by subst g1 g2.
Qed.

(** X18.  A second run changes nothing at all.  Importing the same
    documents again, with any batch size, leaves the graph of the first run:
    the same nodes with the same properties and the same relationships; and
    so does a second [main] in the same world.  Runs compose: two runs one
    after the other leave what one run over the two sources together leaves,
    so the batch size never shows in the graph. *)
Theorem import_again_is_identity (docs docs' : list document) (g : graph) (bs bs' bs'' : Z) :
  (import_markets_to_neo4j docs (import_markets_to_neo4j docs g bs).1 bs').1 =
    (import_markets_to_neo4j docs g bs).1 /\
  (import_markets_to_neo4j docs' (import_markets_to_neo4j docs g bs).1 bs').1 =
    (import_markets_to_neo4j (docs ++ docs') g bs'').1 /\
  (import_markets_to_neo4j docs g bs).1 = (import_markets_to_neo4j docs g bs').1 /\
  (forall w g1 g2 out1 out2,
     well_formed g -> main w g = (0, g1, out1) -> main w g1 = (0, g2, out2) -> g2 = g1).
Proof.
  rewrite !import_markets_to_neo4j_graph. split_and!.
  - apply foldl_document_step_again.
  - by rewrite foldl_app.
  - done.
  - intros w g1 g2 out1 out2. apply main_again.
Qed.

Lemma doc_props_names md name : name ∈ (doc_props md).*1 -> name ∈ upsert_names.
Proof.
  unfold doc_props. destruct (market_properties md) as [kvs|e] eqn:E.
  - by rewrite (market_properties_keys _ _ E).
  - intros H. inversion H.
Qed.

Lemma written_names ds n name : name ∈ (written ds n).*1 -> name ∈ upsert_names.
Proof.
  unfold written. induction ds as [|d ds IH]; simpl; [by intros H; inversion H|].
  rewrite fmap_app, elem_of_app. intros [H|H]; [|by apply IH].
  destruct (touches d n); [by eapply doc_props_names | inversion H].
Qed.

Lemma written_untouched ds n :
  (forall d, d ∈ ds -> touches d n = false) -> written ds n = [].
Proof.
  unfold written. induction ds as [|d ds IH]; intros H; simpl; [done|].
  rewrite (H d) by (by left). simpl. apply IH. intros d' Hd'. apply H. by right.
Qed.

(** X19.  An import writes only what the upsert names, and only where a
    document points.  A node that was in the graph keeps, through any run,
    its label and every property other than the fifteen the upsert sets, its
    [id] among them; and a node that is not a Market node carrying the key of
    a document that reaches the store comes out exactly as it went in. *)
Theorem import_writes_only_upsert_properties (docs : list document) (g : graph) (bs : Z)
    (i : nat) (n : node) :
  g_nodes g !! i = Some n ->
  exists n',
    g_nodes (import_markets_to_neo4j docs g bs).1 !! i = Some n' /\
    n_label n' = n_label n /\
    (forall name, name ∉ upsert_names -> n_props n' !! name = n_props n !! name) /\
    ((forall d, d ∈ docs -> importable d = true ->
        node_matches Market (market_id_of d) n = false) -> n' = n).
Proof.
  intros Hn. exists (node_run docs n). rewrite import_markets_to_neo4j_graph.
  split; [by apply foldl_document_step_lookup|].
  rewrite node_run_written. split_and!.
  - done.
  - intros name Hname. unfold set_props. simpl. apply foldl_set_prop_other.
    intros Hin. by apply Hname, (written_names docs n).
  - intros Hnot. rewrite written_untouched; [apply set_props_nil|].
    intros d Hd. unfold touches. destruct (importable d) eqn:Himp; [|done].
    by rewrite Hnot.
Qed.

End Script.

(** * Closed instances *)

Lemma world_up_ready docs : ready (world_up docs).
Proof.
  split; [reflexivity|]. split; [reflexivity|]. exists 3. split; [lia | reflexivity].
Defined.

Lemma import_idempotent_witness :
  (exists g1 n,
     create_market_node no_repr graph_m1 doc_plain_moved = Ok (g1, VStr "m1") /\
     create_market_node no_repr g1 doc_plain_moved = Ok (g1, VStr "m1") /\
     count_label Market g1 = count_label Market graph_m1 /\
     g_nodes g1 !! 0%nat = Some n /\
     n_props n !! "title" = Some (VStr "Lakers win")) /\
  (let g := create_category_relationship graph_m1 (VStr "m1") (VStr "Sports") in
   create_category_relationship g (VStr "m1") (VStr "Sports") = g) /\
  (let g := create_series_relationship graph_m1 (VStr "m1") (VStr "nba") in
   create_series_relationship g (VStr "m1") (VStr "nba") = g) /\
  (let g1 := (import_markets_to_neo4j no_repr [doc_plain; doc_oid] graph_m1 100).1 in
   let g2 := (import_markets_to_neo4j no_repr [doc_plain; doc_oid] g1 100).1 in
   (forall l, count_label l g2 = count_label l g1) /\ count_rels g2 = count_rels g1) /\
  (let w := world_local [doc_plain; doc_oid] in
   let r1 := main no_repr w empty_graph in
   let r2 := main no_repr w r1.1.2 in
   r1.1.1 = 0 /\ r2.1.1 = 0 /\
   cleared w r1.1.2 = r1.1.2 /\ count_label Market r1.1.2 = 2%nat /\
   (forall l, count_label l r2.1.2 = count_label l r1.1.2) /\
   count_rels r2.1.2 = count_rels r1.1.2).
Proof.
  destruct (import_idempotent no_repr) as (H1 & H2 & H3 & H4 & H5 & H6).
  split_and!.
  - remember (create_market_node no_repr graph_m1 doc_plain_moved) as r eqn:E.
    symmetry in E. destruct r as [[g1 k]|e]; [|by vm_compute in E].
    assert (Hk : k = VStr "m1") by (vm_compute in E; by injection E).
    assert (Hi : 0%nat ∈ match_nodes Market k g1).
    { vm_compute in E. injection E as <- <-. vm_compute. by left. }
    assert (Hn : exists n, g_nodes g1 !! 0%nat = Some n).
    { vm_compute in E. injection E as <- <-. eexists. by vm_compute. }
    assert (Hold : match_nodes Market k graph_m1 = [0%nat]) by (by rewrite Hk).
    destruct Hn as [n Hn]. exists g1, n.
    destruct (H2 graph_m1 doc_plain_moved g1 k E) as (Htwice & Hcount).
    rewrite Hold in Hcount. simpl in Hcount.
    destruct (market_properties doc_plain_moved) as [kvs|] eqn:Hkvs; [|by vm_compute in Hkvs].
    pose proof (H1 graph_m1 doc_plain_moved g1 k kvs 0%nat n "title" (VStr "Lakers win")
                  E Hkvs Hi Hn) as Hp.
    rewrite Hk in *.
    split_and!; [done | done | by rewrite Hcount | done |].
    apply Hp. vm_compute in Hkvs. injection Hkvs as <-. by left.
  - apply H3.
  - apply H4.
  - apply (H5 [doc_plain; doc_oid] graph_m1 100).
  - intros w r1 r2.
    split; [reflexivity|]. split; [reflexivity|]. split; [reflexivity|].
    split; [by vm_compute|].
    apply (H6 w empty_graph r1.1.2 r2.1.2 r1.2 r2.2).
    + intros r Hr. inversion Hr.
    + reflexivity.
    + reflexivity.
Defined.

Lemma no_identifier_batch_counterexample :
  market_id_of no_repr doc_no_id = VStr "" /\
  length batch_of_ten = 10%nat /\
  let r := main no_repr (world_up batch_of_ten) empty_graph in
  r.1.1 = 0 /\
  count_label Market r.1.2 = 10%nat /\
  count_label Market r.1.2 <> 9%nat /\
  match_nodes Market (VStr "") r.1.2 = [3%nat] /\
  summary_of r.2 = Some (Summary 10 0 0 0 (Stats 10 10 0 0) 10).
Proof.
  split; [reflexivity|]. split; [reflexivity|].
  split; [reflexivity|]. split; [by vm_compute|]. split; [by vm_compute|].
  split; by vm_compute.
Qed.

Lemma no_identifier_is_imported_witness :
  market_id_of no_repr doc_no_id = VStr "" /\
  (exists g1, create_market_node no_repr empty_graph doc_no_id = Ok (g1, VStr "") /\
              match_nodes Market (VStr "") g1 <> []) /\
  (exists cc sc rc c,
     summary_of (import_markets_to_neo4j no_repr batch_of_ten empty_graph 100).2 =
       Some (Summary 10 cc sc rc c 10) /\ processed c = 10%nat) /\
  exists g' out, main no_repr (world_up batch_of_ten) empty_graph = (0, g', out).
Proof.
  destruct (no_identifier_is_imported no_repr) as (H1 & H2 & H3 & H4).
  split_and!.
  - apply H1; reflexivity.
  - destruct (H2 empty_graph doc_no_id) as (g1 & E & Hm & _); [reflexivity | reflexivity |].
    exists g1. by split.
  - destruct (H3 batch_of_ten 100) as (cc & sc & rc & c & Hs & Hp & _).
    + discriminate.
    + repeat constructor.
    + apply (bool_decide_unpack _). by vm_compute.
    + exists cc, sc, rc, c. by split.
  - apply H4, world_up_ready.
Defined.

Lemma normalization_failures_witness :
  volume_of doc_bad_box ≫= volume_param = Ok float_zero /\
  is_ok (market_properties doc_bad_volume) = false /\
  is_ok (market_properties doc_bad_comment_count) = false /\
  process_document no_repr (graph_m1, no_stats) doc_bad_volume = (graph_m1, no_stats) /\
  (import_markets_to_neo4j no_repr ([doc_plain] ++ doc_bad_volume :: [doc_oid]) empty_graph 100).1 =
  (import_markets_to_neo4j no_repr ([doc_plain] ++ [doc_oid]) empty_graph 100).1 /\
  count_label Market
    (import_markets_to_neo4j no_repr ([doc_plain] ++ doc_bad_volume :: [doc_oid]) empty_graph 100).1
    = 2%nat.
Proof.
  destruct (normalization_failures no_repr) as (H1 & H2 & H3 & H4 & _).
  assert (Hv : is_ok (market_properties doc_bad_volume) = false).
  { apply (H2 doc_bad_volume "abc"); [reflexivity | discriminate | reflexivity]. }
  destruct (H4 doc_bad_volume Hv graph_m1 no_stats) as (_ & Hp & _).
  destruct (H4 doc_bad_volume Hv empty_graph no_stats) as (_ & _ & Hi).
  split_and!.
  - apply (H1 doc_bad_box [("$numberDouble", VStr "abc")] "abc"); reflexivity.
  - exact Hv.
  - apply (H3 doc_bad_comment_count "many"); [reflexivity | discriminate | reflexivity].
  - exact Hp.
  - apply (Hi [doc_plain] [doc_oid] 100).
  - rewrite (Hi [doc_plain] [doc_oid] 100). reflexivity.
Defined.

Lemma key_resolution_witness :
  market_id_of no_repr doc_plain = VStr "m1" /\
  market_id_of no_repr doc_oid = VStr "65ab12cd" /\
  market_id_of no_repr doc_string_id = VStr "legacy-7" /\
  market_id_of no_repr doc_object_id = VStr "65ab12ce" /\
  exists g' i n,
    create_market_node no_repr empty_graph doc_oid = Ok (g', VStr "65ab12cd") /\
    g_nodes g' !! i = Some n /\ n_label n = Market /\
    n_props n !! "id" = Some (VStr "65ab12cd").
Proof.
  split_and!.
  - destruct (key_resolution no_repr doc_plain) as (H & _). apply H. reflexivity.
  - destruct (key_resolution no_repr doc_oid) as (_ & H & _).
    destruct (H eq_refl) as (Hoid & _).
    apply (Hoid [("$oid", VStr "65ab12cd")]); reflexivity.
  - destruct (key_resolution no_repr doc_string_id) as (_ & H & _).
    destruct (H eq_refl) as (_ & Hstr & _). apply (Hstr "legacy-7"). reflexivity.
  - destruct (key_resolution no_repr doc_object_id) as (_ & H & _).
    destruct (H eq_refl) as (_ & _ & Hother). apply Hother; intros; discriminate.
  - destruct (create_market_node no_repr empty_graph doc_oid) as [[g' k]|e] eqn:E;
      [|discriminate].
    destruct (key_resolution no_repr doc_oid) as (_ & _ & H).
    destruct (H _ _ _ E) as (Hk & i & n & Hn & Hl & Hp).
    exists g', i, n. rewrite Hk in *. change (market_id_of no_repr doc_oid)
      with (VStr "65ab12cd") in *. by split_and!.
Defined.


Lemma parse_date_formats_witness :
  parse_date (VStr "2026-01-01 12:30:00") = Ok (Some (Datetime 2026 1 1 12 30 0 0)) /\
  parse_date (VStr "31/12/2026") = Ok None /\
  parse_date (VList []) = Ok None /\
  valid_datetime (Datetime 2024 2 29 23 59 58 250000) = true /\
  parse_date (VStr "2024-02-29T23:59:58.250000Z")
    = Ok (Some (Datetime 2024 2 29 23 59 58 250000)) /\
  parse_date (VStr "2024-02-29T23:59:58Z") = Ok (Some (Datetime 2024 2 29 23 59 58 0)) /\
  parse_date (VStr "2024-02-29") = Ok (Some (Datetime 2024 2 29 0 0 0 0)) /\
  parse_date (VStr (isoformat (Datetime 2024 2 29 23 59 58 250000) +:+ "Z"))
    = Ok (Some (Datetime 2024 2 29 23 59 58 250000)).
Proof.
  destruct parse_date_formats as (_ & H1 & H2 & H3 & H4 & H5 & _).
  destruct (H4 (Datetime 2024 2 29 23 59 58 250000)) as (Hf & Hz & _ & Hd);
    [reflexivity|].
  split_and!.
  - apply (H1 "2026-01-01 12:30:00").
  - apply H2. repeat constructor.
  - apply H3. reflexivity.
  - reflexivity.
  - exact Hf.
  - exact Hz.
  - exact Hd.
  - apply H5. reflexivity.
Defined.

Lemma link_without_market_counterexample :
  truthy (VStr "Sports") = true /\
  create_category_relationship empty_graph (VStr "m1") (VStr "Sports") = empty_graph /\
  count_label Category
    (create_category_relationship empty_graph (VStr "m1") (VStr "Sports")) = 0%nat /\
  match_nodes Category (VStr "Sports")
    (create_category_relationship empty_graph (VStr "m1") (VStr "Sports")) = [] /\
  create_series_relationship empty_graph (VStr "m1") (VStr "nba") = empty_graph.
Proof. split_and!; by vm_compute. Qed.

Lemma link_semantics_witness :
  create_category_relationship graph_m1 (VStr "m1") (VStr "") = graph_m1 /\
  (let g' := create_category_relationship graph_m1 (VStr "m1") (VStr "Sports") in
   count_label Category g' = 1%nat /\ Rel 0 BELONGS_TO 1 ∈ g_rels g' /\
   create_category_relationship g' (VStr "m1") (VStr "Sports") = g') /\
  (let g' := create_series_relationship graph_m1 (VStr "m1") (VStr "nba") in
   count_label Series g' = 1%nat /\ Rel 0 IN_SERIES 1 ∈ g_rels g') /\
  (let g := foldl (document_step no_repr) empty_graph [doc_plain; doc_oid] in
   count_label Category g = 1%nat /\ count_type BELONGS_TO g = 2%nat).
Proof.
  destruct (link_semantics no_repr) as (H1 & H2 & H3 & H4).
  split_and!.
  - apply H1. reflexivity.
  - destruct (H2 graph_m1 (VStr "m1") (VStr "Sports")) as (_ & Hc & Hr & Ht);
      [reflexivity | discriminate |].
    split_and!; [exact Hc | | exact Ht].
    apply Hr; by vm_compute; left.
  - destruct (H3 graph_m1 (VStr "m1") (VStr "nba")) as (_ & Hc & Hr & _);
      [reflexivity | discriminate |].
    split; [exact Hc|]. apply Hr; by vm_compute; left.
  - apply (H4 doc_plain doc_oid (VStr "Sports")); try reflexivity. discriminate.
Defined.

Lemma link_without_market_witness :
  create_category_relationship graph_m1 (VStr "m9") (VStr "Sports") = graph_m1 /\
  create_series_relationship graph_m1 (VStr "m9") (VStr "nba") = graph_m1.
Proof.
  split.
  - apply (link_without_market graph_m1 (VStr "m9") (VStr "Sports")); [reflexivity|].
    intros n Hn _. apply list_elem_of_singleton in Hn. subst n. discriminate.
  - apply (link_without_market graph_m1 (VStr "m9") (VStr "nba")); [reflexivity|].
    intros n Hn _. apply list_elem_of_singleton in Hn. subst n. discriminate.
Defined.

Lemma connection_counterexample :
  main no_repr world_mongo_down empty_graph = (1, empty_graph, []) /\
  main no_repr (world_up []) empty_graph = (0, empty_graph, [Slept 2; Slept 2; NoDocuments]) /\
  summary_of (main no_repr (world_up []) empty_graph).2 = None.
Proof. split_and!; by vm_compute. Qed.

Lemma connection_policy_witness :
  connect_neo4j (fun attempt => 3 <=? attempt) 30 2 = Ok (true, [Slept 2; Slept 2]) /\
  answers_within (fun attempt => 3 <=? attempt) 30 /\
  (exists out, main no_repr world_mongo_down graph_m1 = (1, graph_m1, out) /\
               forallb is_sleep out = true) /\
  (exists g' out m c s r counters,
     main no_repr (world_up [doc_plain; doc_bad_volume]) empty_graph = (0, g', out) /\
     summary_of out = Some (Summary m c s r counters 2)) /\
  (exists out, main no_repr (world_up []) graph_m1 = (0, empty_graph, out) /\
               last out = Some NoDocuments).
Proof.
  destruct (connection_policy no_repr) as (_ & H1 & _ & H3 & H4 & H5).
  split_and!.
  - reflexivity.
  - destruct (H1 (fun attempt => 3 <=? attempt) true [Slept 2; Slept 2] eq_refl)
      as (_ & _ & _ & Hok & _). by apply Hok.
  - apply H3. intros (_ & Hm & _). discriminate.
  - apply (H4 (world_up [doc_plain; doc_bad_volume]) empty_graph);
      [apply world_up_ready | discriminate].
  - destruct (H5 (world_up []) graph_m1 (world_up_ready []) eq_refl) as (out & E & Hl & _).
    exists out. by split.
Defined.

Lemma created_at_counterexample :
  created_at_of doc_two_dates = Ok None /\
  parse_date (dict_get_none doc_two_dates "creationDate")
    = Ok (Some (Datetime 2026 1 1 0 0 0 0)) /\
  exists kvs, market_properties doc_two_dates = Ok kvs /\
              lookup_item "createdAt" kvs = Some VNone.
Proof.
  split; [by vm_compute|]. split; [by vm_compute|].
  eexists. split; [by vm_compute|]. by vm_compute.
Qed.

Lemma created_at_fallback_witness :
  created_at_of doc_creation_date = parse_date (VStr "2026-01-01") /\
  created_at_of doc_two_dates = Ok None /\
  exists d kvs, market_properties doc_creation_date = Ok kvs /\
                created_at_of doc_creation_date = Ok d /\
                lookup_item "createdAt" kvs = Some (iso_or_none d).
Proof.
  split_and!.
  - destruct (created_at_fallback doc_creation_date) as (_ & H & _). apply H. reflexivity.
  - destruct (created_at_fallback doc_two_dates) as (_ & _ & H & _).
    apply (H "garbage"); [reflexivity | discriminate | by vm_compute].
  - destruct (market_properties doc_creation_date) as [kvs|] eqn:E; [|discriminate].
    destruct (created_at_fallback doc_creation_date) as (_ & _ & _ & H).
    destruct (H kvs E) as (d & Hd & Hl). by exists d, kvs.
Defined.

(** ** Instances of the further properties *)

Lemma import_keeps_the_graph_witness :
  (forall l, (count_label l graph_m1 <=
              count_label l (import_markets_to_neo4j no_repr [doc_plain; doc_oid] graph_m1 100).1)%nat) /\
  match_nodes Market (VStr "m1")
    (import_markets_to_neo4j no_repr [doc_plain; doc_oid] graph_m1 100).1 =
  match_nodes Market (VStr "m1") graph_m1.
Proof.
  destruct (import_keeps_the_graph no_repr [doc_plain; doc_oid] graph_m1 100)
    as (_ & _ & Hc & _ & Hm).
  split; [exact Hc|]. apply Hm. by vm_compute.
Defined.

Lemma import_keeps_the_structure_witness :
  typed_rels (import_markets_to_neo4j no_repr [doc_plain; doc_oid] empty_graph 100).1 /\
  unique_keys (import_markets_to_neo4j no_repr [doc_plain; doc_oid] empty_graph 100).1.
Proof.
  destruct (import_keeps_the_structure no_repr [doc_plain; doc_oid] empty_graph 100)
    as (Ht & Hu & _).
  - intros r Hr. inversion Hr.
  - intros l v. vm_compute. lia.
  - intros n Hn. inversion Hn.
  - by split.
Defined.

Lemma import_covers_every_document_witness :
  match_nodes Market (VStr "m1")
    (import_markets_to_neo4j no_repr [doc_plain; doc_oid] empty_graph 100).1 <> [] /\
  match_nodes Category (VStr "Sports")
    (import_markets_to_neo4j no_repr [doc_plain; doc_oid] empty_graph 100).1 <> [].
Proof.
  destruct (import_covers_every_document no_repr [doc_plain; doc_oid] empty_graph 100
              doc_plain) as (Hm & Hc & _).
  - by left.
  - by vm_compute.
  - split; [exact Hm|]. destruct Hc as [Hc _]; [by vm_compute | exact Hc].
Defined.

Lemma import_keeps_earlier_category_witness :
  exists a b1 b2,
    b1 <> b2 /\
    Rel a BELONGS_TO b1 ∈
      g_rels (import_markets_to_neo4j no_repr [doc_plain; doc_plain_moved] empty_graph 100).1 /\
    Rel a BELONGS_TO b2 ∈
      g_rels (import_markets_to_neo4j no_repr [doc_plain; doc_plain_moved] empty_graph 100).1.
Proof.
  destruct (import_keeps_earlier_category no_repr [doc_plain; doc_plain_moved] empty_graph
              100 doc_plain doc_plain_moved) as (a & b1 & b2 & _ & _ & _ & Hne & H1 & H2).
  - by left.
  - right. by left.
  - by vm_compute.
  - by vm_compute.
  - by vm_compute.
  - by vm_compute.
  - by vm_compute.
  - by vm_compute.
  - exists a, b1, b2. by split_and!.
Defined.

Lemma last_document_wins_witness :
  exists n,
    g_nodes (import_markets_to_neo4j no_repr ([doc_plain] ++ doc_plain_moved :: [doc_oid])
               empty_graph 100).1 !! 0%nat = Some n /\
    n_props n !! "title" = Some (VStr "Lakers win") /\ n_props n !! "startDate" = None.
Proof.
  destruct (last_document_wins no_repr [doc_plain] [doc_oid] doc_plain_moved empty_graph 100
              [("title", VStr "Lakers win"); ("description", VStr ""); ("slug", VStr "");
               ("ticker", VStr ""); ("volume", VFloat (S754_zero false));
               ("commentCount", VInt 0); ("image", VStr ""); ("icon", VStr "");
               ("resolutionSource", VStr ""); ("publishedAt", VStr "");
               ("updatedAt", VStr ""); ("startDate", VNone); ("endDate", VNone);
               ("createdAt", VNone); ("closedTime", VNone)]) as [_ H].
  - by vm_compute.
  - by vm_compute.
  - intros d Hd _. apply list_elem_of_singleton in Hd as ->. by vm_compute.
  - assert (Hi : 0%nat ∈ match_nodes Market (market_id_of no_repr doc_plain_moved)
                   (import_markets_to_neo4j no_repr
                      ([doc_plain] ++ doc_plain_moved :: [doc_oid]) empty_graph 100).1).
    { vm_compute. by left. }
    assert (Hn : exists n,
              g_nodes (import_markets_to_neo4j no_repr
                         ([doc_plain] ++ doc_plain_moved :: [doc_oid]) empty_graph 100).1
                !! 0%nat = Some n).
    { eexists. by vm_compute. }
    destruct Hn as [n Hn]. exists n. split; [exact Hn|]. split.
    + apply (H 0%nat n "title" (VStr "Lakers win") Hi Hn). by left.
    + apply (H 0%nat n "startDate" VNone Hi Hn). do 11 right. by left.
Defined.

Lemma import_census_witness :
  count_label Category
    (import_markets_to_neo4j no_repr [doc_plain; doc_oid; doc_plain_moved] empty_graph 100).1 =
  2%nat.
Proof.
  destruct (import_census no_repr [doc_plain; doc_oid; doc_plain_moved] empty_graph 100
              Category) as [_ H].
  rewrite H. by vm_compute.
Defined.

Lemma import_counts_any_order_witness :
  count_label Category (import_markets_to_neo4j no_repr [doc_plain; doc_oid] graph_m1 100).1 =
  count_label Category (import_markets_to_neo4j no_repr [doc_oid; doc_plain] graph_m1 1).1 /\
  count_rels (import_markets_to_neo4j no_repr [doc_plain; doc_oid] graph_m1 100).1 =
  count_rels (import_markets_to_neo4j no_repr [doc_oid; doc_plain] graph_m1 1).1.
Proof.
  destruct (import_counts_any_order no_repr [doc_plain; doc_oid] [doc_oid; doc_plain]
              graph_m1 100 1) as [Hn Hr].
  - apply perm_swap.
  - split; [apply Hn|]. apply Hr.
    + intros r Hin. inversion Hin.
    + intros l v. unfold match_nodes. simpl.
      destruct (node_matches l v _); simpl; lia.
Defined.

Lemma import_link_census_witness :
  count_rels
    (import_markets_to_neo4j no_repr [doc_plain; doc_oid; doc_plain_moved; doc_plain]
       empty_graph 100).1 = 4%nat.
Proof.
  destruct (import_link_census no_repr [doc_plain; doc_oid; doc_plain_moved; doc_plain]
              empty_graph 100 BELONGS_TO) as [_ H].
  - intros r Hr. inversion Hr.
  - intros l v. vm_compute. lia.
  - rewrite H. by vm_compute.
Defined.

Lemma import_counters_witness :
  (let r := foldl (try_document no_repr refuses_maps) (empty_graph, no_stats)
              [doc_plain; doc_map_category; doc_bad_volume] in
   r.2 = Stats 1 2 1 0 /\
   match_nodes Market (VStr "m8") r.1 <> [] /\
   count_type IN_SERIES r.1 = 0%nat) /\
  (let q := foldl (try_document no_repr (fun _ => false)) (empty_graph, no_stats)
              [doc_plain; doc_map_category] in
   processed q.2 = markets_created q.2 /\
   q.1 = (import_markets_to_neo4j no_repr [doc_plain; doc_map_category] empty_graph 100).1).
Proof.
  split.
  - intros r.
    destruct (import_counters no_repr refuses_maps
                [doc_plain; doc_map_category; doc_bad_volume] empty_graph)
      as (Hc & _ & _ & _ & Hpres & _).
    split_and!.
    + subst r. rewrite Hc. by vm_compute.
    + apply (Hpres doc_map_category); [right; left | reflexivity].
    + by vm_compute.
  - intros q.
    destruct (import_counters no_repr (fun _ => false) [doc_plain; doc_map_category]
                empty_graph) as (_ & _ & _ & _ & _ & Hq).
    destruct (Hq (fun _ => eq_refl)) as [Hp Hb].
    split; [exact Hp | apply (Hb 100)].
Defined.

Lemma import_progress_witness :
  exists ps summary,
    (import_markets_to_neo4j no_repr batch_of_ten empty_graph 3).2 =
      ConstraintsCreated :: ps ++ [summary] /\
    length ps = 3%nat /\
    ps !! 2%nat = Some (Progress 9 10).
Proof.
  destruct (import_progress no_repr batch_of_ten empty_graph 3)
    as (ps & summary & Hout & _ & Hlen & Hps); [done|].
  exists ps, summary. split_and!; [exact Hout | exact Hlen |].
  rewrite (Hps 2%nat) by (vm_compute; lia). by vm_compute.
Defined.


Lemma clear_neo4j_graph_policy_witness :
  (clear_neo4j_graph graph_m1 false (Some "Y")).1 = empty_graph /\
  (clear_neo4j_graph graph_m1 false (Some "yes")).1 = graph_m1.
Proof.
  assert (Hwf : well_formed graph_m1) by (intros r Hr; inversion Hr).
  split.
  - destruct (clear_neo4j_graph_policy graph_m1 false (Some "Y") Hwf) as (_ & _ & _ & H & _).
    destruct (H "Y" eq_refl eq_refl) as [Hy _]. apply Hy. by right.
  - destruct (clear_neo4j_graph_policy graph_m1 false (Some "yes") Hwf)
      as (_ & _ & _ & H & _).
    destruct (H "yes" eq_refl eq_refl) as [_ Hn]. by apply Hn.
Defined.

Lemma main_starting_graph_witness :
  (main no_repr (world_up [doc_plain]) graph_m1).1.2 =
  (import_markets_to_neo4j no_repr [doc_plain] empty_graph 100).1.
Proof.
  destruct (main_starting_graph no_repr (world_up [doc_plain]) graph_m1) as [H _].
  - apply world_up_ready.
  - intros r Hr. inversion Hr.
  - by apply H.
Defined.

Lemma stored_date_is_not_read_witness :
  parse_date (VStr (isoformat (Datetime 2024 2 29 23 59 58 250000))) = Ok None.
Proof.
  by destruct (stored_date_is_not_read (Datetime 2024 2 29 23 59 58 250000) eq_refl)
    as (_ & H & _).
Defined.

Lemma parsed_date_is_canonical_witness :
  parse_date (VStr (isoformat (Datetime 2026 1 1 0 0 0 0) +:+ "Z")) =
  Ok (Some (Datetime 2026 1 1 0 0 0 0)).
Proof.
  destruct (parsed_date_is_canonical "2026-01-01" (Datetime 2026 1 1 0 0 0 0))
    as (_ & _ & H); [by vm_compute | exact H].
Defined.

Lemma market_node_is_normalised_witness :
  exists g1 n,
    create_market_node no_repr empty_graph doc_bad_box = Ok (g1, VStr "m4") /\
    g_nodes g1 !! 0%nat = Some n /\
    (exists f, n_props n !! "volume" = Some (VFloat f)) /\
    n_props n !! "title" = Some (VStr "").
Proof.
  remember (create_market_node no_repr empty_graph doc_bad_box) as r eqn:E.
  symmetry in E. destruct r as [[g1 k]|e]; [|by vm_compute in E].
  assert (Hk : k = VStr "m4") by (vm_compute in E; by injection E).
  assert (Hi : 0%nat ∈ match_nodes Market k g1).
  { vm_compute in E. injection E as <- <-. vm_compute. by left. }
  assert (Hn : exists n, g_nodes g1 !! 0%nat = Some n).
  { vm_compute in E. injection E as <- <-. eexists. by vm_compute. }
  destruct Hn as [n Hn]. exists g1, n.
  destruct (market_node_is_normalised no_repr empty_graph doc_bad_box g1 k 0%nat n E Hi Hn)
    as (_ & Hv & _ & _ & Ht).
  split_and!; [by rewrite Hk | done | exact Hv |].
  apply (Ht "title" "title"). by left.
Defined.

Lemma environment_check_masks_witness :
  check_environment_variables full_env = true <->
  AllSet ∈ check_environment_variables_lines full_env.
Proof. by destruct (environment_check_masks full_env) as (H & _). Defined.

Lemma import_again_is_identity_witness :
  (import_markets_to_neo4j no_repr [doc_plain; doc_plain_moved; doc_oid]
     (import_markets_to_neo4j no_repr [doc_plain; doc_plain_moved; doc_oid] graph_m1 100).1
     2).1 =
  (import_markets_to_neo4j no_repr [doc_plain; doc_plain_moved; doc_oid] graph_m1 100).1.
Proof.
  by destruct (import_again_is_identity no_repr [doc_plain; doc_plain_moved; doc_oid] []
                 graph_m1 100 2 1) as (H & _).
Defined.

Lemma import_writes_only_upsert_properties_witness :
  exists n',
    g_nodes (import_markets_to_neo4j no_repr [doc_plain; doc_oid] graph_m1 100).1 !! 0%nat
      = Some n' /\
    n_props n' !! "id" = Some (VStr "m1").
Proof.
  destruct (import_writes_only_upsert_properties no_repr [doc_plain; doc_oid] graph_m1 100
              0%nat (Node Market {[ "id" := VStr "m1" ]}) eq_refl)
    as (n' & Hn' & _ & Hkeep & _).
  exists n'. split; [exact Hn'|]. rewrite Hkeep; [done|].
  intros Hin. repeat (apply elem_of_cons in Hin as [Hin|Hin]; [discriminate|]).
  inversion Hin.
Defined.
